(** * db_bench: the LevelDB benchmark driver (src/db/db_bench.cc)

    A shallow embedding of the benchmark harness: the value generator
    [RandomGenerator], the per-phase bookkeeping ([Start],
    [FinishedSingleOp], [Stop]) and the phase handlers driven by
    [Benchmark::Run].  The storage engine, the clock and the pseudo-random
    source are external collaborators of the file; they enter the model as
    an interface ([World]) whose calls and answers are recorded in a trace.

    Conventions.
    - C [int] is a 32-bit two's complement integer, [size_t] and
      [uint64_t] are 64 bits wide (LP64).  Integers are modelled in [Z] and
      every conversion is written out ([to_int], [to_uint], [to_size_t],
      [to_int64]).  Signed overflow is rendered as wrap-around.
    - [assert] is modelled as compiled in: a failed assertion aborts.
    - [double] values are modelled by exact rationals; rounding and the
      text produced by the floating point conversions of [printf] are not
      modelled. *)

From Stdlib Require Import ZArith String Ascii List Bool Lia QArith.
Import ListNotations.

Local Open Scope Z_scope.

(** ** C integer conversions *)

Module CInt.

Definition INT_MAX : Z := 2147483647.

(** Conversion to [unsigned int] / [uint32_t]. *)
Definition to_uint (x : Z) : Z := x mod 2 ^ 32.

(** Conversion to [int] (wrap-around). *)
Definition to_int (x : Z) : Z := (x + 2 ^ 31) mod 2 ^ 32 - 2 ^ 31.

(** Conversion to [size_t] / [uint64_t]. *)
Definition to_size_t (x : Z) : Z := x mod 2 ^ 64.

(** Conversion to [int64_t] (wrap-around). *)
Definition to_int64 (x : Z) : Z := (x + 2 ^ 63) mod 2 ^ 64 - 2 ^ 63.

(** C division of [int]s truncates toward zero. *)
Definition int_div (a b : Z) : Z := to_int (Z.quot a b).

End CInt.

(** ** The integer conversions of [snprintf] used by the file *)

Module Printf.

Definition digit_char (d : Z) : ascii :=
  ascii_of_nat (48 + Z.to_nat d).

(** Decimal digits of a non-negative number, most significant first; the
    fuel bounds the number of digits produced. *)
Fixpoint decimal_fuel (fuel : nat) (n : Z) : list ascii :=
  match fuel with
  | O => []
  | S fuel' =>
      if n <? 10 then [digit_char n]
      else decimal_fuel fuel' (n / 10) ++ [digit_char (n mod 10)]
  end.

(** A 64-bit magnitude has at most 20 decimal digits. *)
Definition decimal (n : Z) : list ascii := decimal_fuel 20 n.

Definition string_of_chars (l : list ascii) : string :=
  fold_right String EmptyString l.

(** ["%d"] *)
Definition fmt_d (k : Z) : string :=
  string_of_chars
    (if k <? 0 then "-"%char :: decimal (- k) else decimal k).

(** ["%0<width>d"]: the sign comes first, then zeros up to the field
    width, then the digits.  A number wider than the field is printed in
    full. *)
Definition fmt_0d (width : nat) (k : Z) : string :=
  let sign := if k <? 0 then ["-"%char] else [] in
  let ds := decimal (Z.abs k) in
  let pad := (width - (length sign + length ds))%nat in
  string_of_chars (sign ++ repeat "0"%char pad ++ ds).

(** Value of a string of decimal digits (the inverse direction, used to
    state what a key denotes). *)
Definition digit_value (c : ascii) : Z := Z.of_nat (nat_of_ascii c) - 48.

Fixpoint decimal_value_acc (acc : Z) (s : string) : Z :=
  match s with
  | EmptyString => acc
  | String c s' => decimal_value_acc (10 * acc + digit_value c) s'
  end.

Definition decimal_value (s : string) : Z := decimal_value_acc 0 s.

End Printf.

(** ** [Slice]: a view into a byte buffer *)

(** A [Slice] built from [data_.data() + off] and a [size_t] length is
    represented by the offset into the buffer and the length. *)
Record Slice : Type := mkSlice {
  slice_off : Z;
  slice_size : Z
}.

(** Reading the bytes a slice designates; [None] when the slice does not lie
    inside the buffer (the read is undefined in C++). *)
Definition slice_bytes (data : list ascii) (s : Slice) : option (list ascii) :=
  if (0 <=? slice_off s) && (0 <=? slice_size s)
     && (slice_off s + slice_size s <=? Z.of_nat (length data))
  then Some (firstn (Z.to_nat (slice_size s))
                    (skipn (Z.to_nat (slice_off s)) data))
  else None.

(** ** [RandomGenerator] *)

Module RandomGenerator.

Record t : Type := mk {
  data_ : list ascii;
  pos_ : Z
}.

(** The constructor fills [data_] with the pieces returned by
    [test::CompressibleString] until it holds at least 1048576 bytes and
    sets [pos_ = 0].  [test::CompressibleString] is not part of the file:
    the finished buffer is the argument. *)
Definition new (data : list ascii) : t := mk data 0.

Inductive result : Type :=
| Generated (g : t) (s : Slice)
| AssertFailed (g : t).

(** [Slice Generate(int len)].  [pos_ + len] is an [int] sum that is
    converted to [size_t] for the comparison with [data_.size()], and so
    is [len] inside the assertion. *)
Definition Generate (g : t) (len : Z) : result :=
  let size := Z.of_nat (length (data_ g)) in
  if CInt.to_size_t (CInt.to_int (pos_ g + len)) >? size then
    let g0 := mk (data_ g) 0 in
    if CInt.to_size_t len <? size then
      let p := CInt.to_int (pos_ g0 + len) in
      Generated (mk (data_ g) p) (mkSlice (p - len) (CInt.to_size_t len))
    else AssertFailed g0
  else
    let p := CInt.to_int (pos_ g + len) in
    Generated (mk (data_ g) p) (mkSlice (p - len) (CInt.to_size_t len)).

(** States reached from a constructed generator by successful calls. *)
Inductive reachable (data : list ascii) : t -> Prop :=
| reach_new : reachable data (new data)
| reach_generate g len g' s :
    reachable data g ->
    0 <= len <= CInt.INT_MAX ->
    Generate g len = Generated g' s ->
    reachable data g'.

End RandomGenerator.

(** ** The outside world *)

(** [Status] of the engine: [ok()] and [ToString()]. *)
Inductive Status : Type :=
| StatusOK
| StatusError (text : string).

Definition ok (s : Status) : bool :=
  match s with StatusOK => true | StatusError _ => false end.

Definition ToString (s : Status) : string :=
  match s with StatusOK => "OK"%string | StatusError t => t end.

(** A [double] is an exact rational, or the non-finite result of a division
    by zero. *)
Inductive double : Type :=
| Finite (q : Q)
| NonFinite.

Definition ddiv (a b : Q) : double :=
  if Qeq_bool b 0 then NonFinite else Finite (a / b)%Q.

Definition entry : Type := string * list ascii.

(** What the harness calls and does not define: the storage engine
    ([DB], [DestroyDB], [DBImpl]'s test hooks), [Env], [port], [Random] and the
    floating point conversion of [snprintf].  [W] is the state of the world,
    [R] the state of a [Random]. *)
Class World (W R : Type) : Type := {
  DB_Open : W -> Status * W;
  DB_Close : W -> W;
  DestroyDB : W -> W;
  DB_Write : bool -> list entry -> W -> Status * W;
  DB_Get : string -> W -> W;
  (** the entries an iterator created now traverses, in key order *)
  DB_Entries : W -> list entry;
  DB_GetProperty : string -> W -> option Z;
  TEST_CompactMemTable : W -> W;
  TEST_CompactRange : Z -> string -> string -> W -> W;
  Env_NowMicros : W -> Z * W;
  Env_GetChildren : string -> W -> list string;
  Env_NewWritableFile : string -> W -> Status * W;
  Env_DeleteFile : string -> W -> W;
  port_GetHeapProfile : W -> bool * W;
  Random_new : Z -> R;
  Random_Next : R -> Z * R;
  (** ["%5.1f"] *)
  fmt_5_1f : double -> string
}.

(** Calls into the world with their answers, and what is printed. *)
Inductive Event : Type :=
| EvOpen (s : Status)
| EvClose
| EvDestroy
| EvWrite (sync : bool) (batch : list entry) (s : Status)
| EvGet (key : string)
| EvNewIterator
| EvIterEntry (key : string) (value : list ascii)
| EvCompactMemTable
| EvGetProperty (name : string) (r : option Z)
| EvCompactRange (level : Z) (lo hi : string)
| EvNewWritableFile (fname : string) (s : Status)
| EvGetHeapProfile (supported : bool)
| EvDeleteFile (fname : string)
| EvStderr (text : string)
| EvStderrLongOp (micros : Q)
| EvStdoutHeader
| EvStdoutSummary (name : string) (micros_per_op : double)
                  (sep message : string)
| EvStdoutHistogram (samples : list Q).

(** The command line flags and [config::kNumLevels]. *)
Record Flags : Type := mkFlags {
  FLAGS_benchmarks : string;
  FLAGS_num : Z;
  FLAGS_value_size : Z;
  FLAGS_histogram : bool;
  kNumLevels : Z
}.

(** ** Bidirectional iterator over a snapshot of the entries *)

Module Iter.

Record t : Type := mk {
  items : list entry;
  pos : Z
}.

Definition Valid (it : t) : bool :=
  (0 <=? pos it) && (pos it <? Z.of_nat (length (items it))).

Definition SeekToFirst (it : t) : t := mk (items it) 0.
Definition SeekToLast (it : t) : t :=
  mk (items it) (Z.of_nat (length (items it)) - 1).
Definition Next (it : t) : t := mk (items it) (pos it + 1).
Definition Prev (it : t) : t := mk (items it) (pos it - 1).

Definition current (it : t) : option entry :=
  if Valid it then nth_error (items it) (Z.to_nat (pos it)) else None.

End Iter.

(** ** Control: state, [exit] and failed assertions

    A computation returns, or the process exits with a status, or it stops
    on a fault: a failed assertion, or an operation whose behaviour C++
    leaves undefined (a read outside the buffer, a remainder by zero). *)

Inductive Fault : Type :=
| AssertFailure
| OutOfBoundsRead
| DivisionByZero.

Inductive Outcome (S A : Type) : Type :=
| Done (a : A) (s : S)
| Exited (code : Z) (s : S)
| Aborted (f : Fault) (s : S).

Arguments Done {S A} a s.
Arguments Exited {S A} code s.
Arguments Aborted {S A} f s.

Definition M (S A : Type) : Type := S -> Outcome S A.

Definition ret {S A} (a : A) : M S A := fun s => Done a s.

Definition bind {S A B} (m : M S A) (k : A -> M S B) : M S B :=
  fun s =>
    match m s with
    | Done a s' => k a s'
    | Exited c s' => Exited c s'
    | Aborted f s' => Aborted f s'
    end.

Definition exit {S A} (code : Z) : M S A := fun s => Exited code s.
Definition abort {S A} (f : Fault) : M S A := fun s => Aborted f s.
Definition gets {S A} (f : S -> A) : M S A := fun s => Done (f s) s.
Definition modify {S} (f : S -> S) : M S unit := fun s => Done tt (f s).

Declare Scope bench_scope.
Delimit Scope bench_scope with bench.
Notation "x <- m ;; k" := (bind m (fun x => k))
  (at level 61, m at next level, right associativity) : bench_scope.
Notation "m ;; k" := (bind m (fun _ => k))
  (at level 61, right associativity) : bench_scope.

Definition final_state {S A} (o : Outcome S A) : S :=
  match o with
  | Done _ s => s
  | Exited _ s => s
  | Aborted _ s => s
  end.

(** ** [class Benchmark] *)

Inductive Order : Type := SEQUENTIAL | RANDOM.
Inductive DBState : Type := FRESH | EXISTING.

(** The fields of a [Benchmark] ([db_] records whether the handle is
    non-null; the cache plays no role), together with the world it runs in
    and the trace of what it did there. *)
Record Bench (W R : Type) : Type := mkBench {
  db_ : bool;
  num_ : Z;
  heap_counter_ : Z;
  start_ : Q;
  last_op_finish_ : Q;
  bytes_ : Z;
  message_ : string;
  hist_ : list Q;
  gen_ : RandomGenerator.t;
  rand_ : R;
  done_ : Z;
  next_report_ : Z;
  world : W;
  trace : list Event
}.

Arguments mkBench {W R}.
Arguments db_ {W R}.
Arguments num_ {W R}.
Arguments heap_counter_ {W R}.
Arguments start_ {W R}.
Arguments last_op_finish_ {W R}.
Arguments bytes_ {W R}.
Arguments message_ {W R}.
Arguments hist_ {W R}.
Arguments gen_ {W R}.
Arguments rand_ {W R}.
Arguments done_ {W R}.
Arguments next_report_ {W R}.
Arguments world {W R}.
Arguments trace {W R}.

Section Setters.
Context {W R : Type}.
Implicit Type b : Bench W R.

Definition set_db_ (v : bool) b :=
  mkBench v (num_ b) (heap_counter_ b) (start_ b) (last_op_finish_ b)
    (bytes_ b) (message_ b) (hist_ b) (gen_ b) (rand_ b) (done_ b)
    (next_report_ b) (world b) (trace b).
Definition set_heap_counter_ (v : Z) b :=
  mkBench (db_ b) (num_ b) v (start_ b) (last_op_finish_ b)
    (bytes_ b) (message_ b) (hist_ b) (gen_ b) (rand_ b) (done_ b)
    (next_report_ b) (world b) (trace b).
Definition set_start_ (v : Q) b :=
  mkBench (db_ b) (num_ b) (heap_counter_ b) v (last_op_finish_ b)
    (bytes_ b) (message_ b) (hist_ b) (gen_ b) (rand_ b) (done_ b)
    (next_report_ b) (world b) (trace b).
Definition set_last_op_finish_ (v : Q) b :=
  mkBench (db_ b) (num_ b) (heap_counter_ b) (start_ b) v
    (bytes_ b) (message_ b) (hist_ b) (gen_ b) (rand_ b) (done_ b)
    (next_report_ b) (world b) (trace b).
Definition set_bytes_ (v : Z) b :=
  mkBench (db_ b) (num_ b) (heap_counter_ b) (start_ b) (last_op_finish_ b)
    v (message_ b) (hist_ b) (gen_ b) (rand_ b) (done_ b)
    (next_report_ b) (world b) (trace b).
Definition set_message_ (v : string) b :=
  mkBench (db_ b) (num_ b) (heap_counter_ b) (start_ b) (last_op_finish_ b)
    (bytes_ b) v (hist_ b) (gen_ b) (rand_ b) (done_ b)
    (next_report_ b) (world b) (trace b).
Definition set_hist_ (v : list Q) b :=
  mkBench (db_ b) (num_ b) (heap_counter_ b) (start_ b) (last_op_finish_ b)
    (bytes_ b) (message_ b) v (gen_ b) (rand_ b) (done_ b)
    (next_report_ b) (world b) (trace b).
Definition set_gen_ (v : RandomGenerator.t) b :=
  mkBench (db_ b) (num_ b) (heap_counter_ b) (start_ b) (last_op_finish_ b)
    (bytes_ b) (message_ b) (hist_ b) v (rand_ b) (done_ b)
    (next_report_ b) (world b) (trace b).
Definition set_rand_ (v : R) b :=
  mkBench (db_ b) (num_ b) (heap_counter_ b) (start_ b) (last_op_finish_ b)
    (bytes_ b) (message_ b) (hist_ b) (gen_ b) v (done_ b)
    (next_report_ b) (world b) (trace b).
Definition set_done_ (v : Z) b :=
  mkBench (db_ b) (num_ b) (heap_counter_ b) (start_ b) (last_op_finish_ b)
    (bytes_ b) (message_ b) (hist_ b) (gen_ b) (rand_ b) v
    (next_report_ b) (world b) (trace b).
Definition set_next_report_ (v : Z) b :=
  mkBench (db_ b) (num_ b) (heap_counter_ b) (start_ b) (last_op_finish_ b)
    (bytes_ b) (message_ b) (hist_ b) (gen_ b) (rand_ b) (done_ b)
    v (world b) (trace b).
Definition set_world (v : W) b :=
  mkBench (db_ b) (num_ b) (heap_counter_ b) (start_ b) (last_op_finish_ b)
    (bytes_ b) (message_ b) (hist_ b) (gen_ b) (rand_ b) (done_ b)
    (next_report_ b) v (trace b).
(** Append an event to the trace. *)
Definition log (e : Event) b :=
  mkBench (db_ b) (num_ b) (heap_counter_ b) (start_ b) (last_op_finish_ b)
    (bytes_ b) (message_ b) (hist_ b) (gen_ b) (rand_ b) (done_ b)
    (next_report_ b) (world b) (trace b ++ [e]).

End Setters.

(** [snprintf(buf, size, ...)] keeps at most [size - 1] characters. *)
Definition snprintf (size : nat) (s : string) : string :=
  String.substring 0 (size - 1) s.

Definition is_empty (s : string) : bool :=
  match s with EmptyString => true | String _ _ => false end.

Definition CR : string := String (ascii_of_nat 13) EmptyString.
Definition LF : string := String (ascii_of_nat 10) EmptyString.

(** The comma separated list [FLAGS_benchmarks], name by name: what the
    [strchr] loop of [Run] hands to the dispatcher. *)
Fixpoint split_commas (s : string) : list string :=
  match s with
  | EmptyString => [EmptyString]
  | String c s' =>
      if Ascii.eqb c ","%char then EmptyString :: split_commas s'
      else
        match split_commas s' with
        | name :: rest => String c name :: rest
        | [] => [String c EmptyString]
        end
  end.

Section Benchmark.

Context {W R : Type} `{HW : World W R}.
Variable fl : Flags.

Local Abbreviation St := (Bench W R).
Local Open Scope bench_scope.

Definition emit (e : Event) : M St unit := modify (log e).

(** A call into the world that returns something. *)
Definition call {A} (f : W -> A * W) : M St A :=
  fun b => let (a, w) := f (world b) in Done a (set_world w b).

(** A call into the world for its effect. *)
Definition call_ (f : W -> W) : M St unit :=
  modify (fun b => set_world (f (world b)) b).

(** [Env::Default()->NowMicros() * 1e-6] *)
Definition now_seconds : M St Q :=
  t <- call Env_NowMicros ;;
  ret (inject_Z (CInt.to_size_t t) * (1 # 1000000))%Q.

(** The constructor.  [start_], [last_op_finish_], [done_] and
    [next_report_] are left uninitialised by the source; [Start] sets them
    before they are read. *)
Definition Benchmark_new (data : list ascii) (w : W) : St :=
  let heaps :=
    filter (String.prefix "heap-") (Env_GetChildren "/tmp/dbbench" w) in
  let w1 :=
    fold_left (fun w f => Env_DeleteFile ("/tmp/dbbench/" ++ f)%string w) heaps w in
  mkBench false (FLAGS_num fl) 0 0%Q 0%Q 0 ""%string [] (RandomGenerator.new data)
    (Random_new 301) 0 0 (DestroyDB w1)
    (map (fun f => EvDeleteFile ("/tmp/dbbench/" ++ f)%string) heaps ++ [EvDestroy]).

Definition PrintHeader : M St unit := emit EvStdoutHeader.

Definition Start : M St unit :=
  t <- now_seconds ;;
  modify (set_start_ t) ;;
  modify (set_bytes_ 0) ;;
  modify (set_message_ ""%string) ;;
  modify (set_last_op_finish_ t) ;;
  modify (set_hist_ []) ;;
  modify (set_done_ 0) ;;
  modify (set_next_report_ 100).

Definition FinishedSingleOp : M St unit :=
  (if FLAGS_histogram fl then
     now <- now_seconds ;;
     last <- gets last_op_finish_ ;;
     let micros := ((now - last) * 1000000)%Q in
     modify (fun b => set_hist_ (hist_ b ++ [micros]) b) ;;
     (if negb (Qle_bool micros 20000)
      then emit (EvStderrLongOp micros) else ret tt) ;;
     modify (set_last_op_finish_ now)
   else ret tt) ;;
  modify (fun b => set_done_ (CInt.to_int (done_ b + 1)) b) ;;
  d <- gets done_ ;;
  nr <- gets next_report_ ;;
  if nr <=? d then
    modify (set_next_report_
              (CInt.to_int
                 (nr + (if nr <? 1000 then 100
                        else if nr <? 10000 then 1000
                        else if nr <? 100000 then 10000
                        else 100000)))) ;;
    emit (EvStderr ("... finished " ++ Printf.fmt_d d ++ " ops"
                      ++ Printf.string_of_chars (repeat " "%char 30)
                      ++ CR)%string)
  else ret tt.

Definition Stop (name : string) : M St unit :=
  finish <- now_seconds ;;
  d <- gets done_ ;;
  (if d <? 1 then modify (set_done_ 1) else ret tt) ;;
  bytes <- gets bytes_ ;;
  start <- gets start_ ;;
  (if 0 <? bytes then
     let rate :=
       snprintf 100
         (fmt_5_1f (ddiv (inject_Z bytes / 1048576)%Q (finish - start)%Q)
            ++ " MB/s")%string in
     msg <- gets message_ ;;
     if negb (is_empty msg)
     then modify (set_message_ (rate ++ " " ++ msg)%string)
     else modify (set_message_ rate)
   else ret tt) ;;
  ops <- gets done_ ;;
  msg <- gets message_ ;;
  emit (EvStdoutSummary name
          (ddiv ((finish - start) * 1000000)%Q (inject_Z ops))
          (if is_empty msg then "" else " ")%string msg) ;;
  if FLAGS_histogram fl then
    h <- gets hist_ ;; emit (EvStdoutHistogram h)
  else ret tt.

Definition Open : M St unit :=
  open <- gets db_ ;;
  (if open then abort AssertFailure else ret tt) ;;
  s <- call DB_Open ;;
  emit (EvOpen s) ;;
  if negb (ok s) then
    emit (EvStderr ("open error: " ++ ToString s ++ LF)%string) ;;
    exit 1
  else modify (set_db_ true).

(** [gen_.Generate(len)], and the bytes of the slice as [batch.Put] copies
    them. *)
Definition generate_value (len : Z) : M St (list ascii) :=
  g <- gets gen_ ;;
  match RandomGenerator.Generate g len with
  | RandomGenerator.AssertFailed g' =>
      modify (set_gen_ g') ;; abort AssertFailure
  | RandomGenerator.Generated g' s =>
      modify (set_gen_ g') ;;
      match slice_bytes (RandomGenerator.data_ g') s with
      | Some v => ret v
      | None => abort OutOfBoundsRead
      end
  end.

(** [rand_.Next() % FLAGS_num], an unsigned remainder stored in an
    [int]. *)
Definition random_key : M St Z :=
  r <- gets rand_ ;;
  let (v, r') := Random_Next r in
  modify (set_rand_ r') ;;
  if CInt.to_uint (FLAGS_num fl) =? 0 then abort DivisionByZero
  else ret (CInt.to_int (CInt.to_uint v mod CInt.to_uint (FLAGS_num fl))).

(** ["%016d"] into [char key[100]] *)
Definition format_key (k : Z) : string := snprintf 100 (Printf.fmt_0d 16 k).

(** One iteration of the loop of [Write]. *)
Definition write_one (sync : bool) (order : Order) (value_size i : Z)
  : M St unit :=
  k <- match order with
       | SEQUENTIAL => ret i
       | RANDOM => random_key
       end ;;
  let key := format_key k in
  v <- generate_value value_size ;;
  let batch := [(key, v)] in
  s <- call (DB_Write sync batch) ;;
  emit (EvWrite sync batch s) ;;
  modify (fun b =>
    set_bytes_
      (CInt.to_int64
         (bytes_ b
          + CInt.to_size_t
              (CInt.to_size_t value_size + Z.of_nat (String.length key))))
      b) ;;
  if negb (ok s) then
    emit (EvStderr ("put error: " ++ ToString s ++ LF)%string) ;;
    exit 1
  else FinishedSingleOp.

(** [for (int i = 0; i < num_entries; i++)]: [fuel] is the number of
    iterations left, [num_entries - i]. *)
Fixpoint write_loop (sync : bool) (order : Order) (value_size : Z)
  (fuel : nat) (i : Z) : M St unit :=
  match fuel with
  | O => ret tt
  | S fuel' =>
      write_one sync order value_size i ;;
      write_loop sync order value_size fuel' (i + 1)
  end.

Definition Write (sync : bool) (order : Order) (state : DBState)
  (num_entries value_size : Z) : M St unit :=
  (match state with
   | FRESH =>
       open <- gets db_ ;;
       (if open then call_ DB_Close ;; emit EvClose else ret tt) ;;
       modify (set_db_ false) ;;
       call_ DestroyDB ;;
       emit EvDestroy ;;
       Open ;;
       Start
   | EXISTING => ret tt
   end) ;;
  n <- gets num_ ;;
  (if negb (num_entries =? n) then
     modify (set_message_
               (snprintf 100 ("(" ++ Printf.fmt_d num_entries ++ " ops)")%string))
   else ret tt) ;;
  write_loop sync order value_size (Z.to_nat num_entries) 0.

(** [for (...; i < num_ && iter->Valid(); iter->Next()/Prev())]: [fuel] is
    [num_ - i], [step] is [Next] or [Prev]. *)
Fixpoint read_loop (step : Iter.t -> Iter.t) (fuel : nat) (it : Iter.t)
  : M St unit :=
  match fuel with
  | O => ret tt
  | S fuel' =>
      match Iter.current it with
      | None => ret tt
      | Some (k, v) =>
          emit (EvIterEntry k v) ;;
          modify (fun b =>
            set_bytes_
              (CInt.to_int64
                 (bytes_ b
                  + CInt.to_size_t
                      (Z.of_nat (String.length k) + Z.of_nat (length v))))
              b) ;;
          FinishedSingleOp ;;
          read_loop step fuel' (step it)
      end
  end.

Definition NewIterator : M St Iter.t :=
  es <- gets (fun b => DB_Entries (world b)) ;;
  emit EvNewIterator ;;
  ret (Iter.mk es (-1)).

Definition ReadSequential : M St unit :=
  iter <- NewIterator ;;
  n <- gets num_ ;;
  read_loop Iter.Next (Z.to_nat n) (Iter.SeekToFirst iter).

Definition ReadReverse : M St unit :=
  iter <- NewIterator ;;
  n <- gets num_ ;;
  read_loop Iter.Prev (Z.to_nat n) (Iter.SeekToLast iter).

Fixpoint read_random_loop (fuel : nat) : M St unit :=
  match fuel with
  | O => ret tt
  | S fuel' =>
      k <- random_key ;;
      let key := format_key k in
      call_ (DB_Get key) ;;
      emit (EvGet key) ;;
      FinishedSingleOp ;;
      read_random_loop fuel'
  end.

Definition ReadRandom : M St unit :=
  n <- gets num_ ;;
  read_random_loop (Z.to_nat n).

(** The levels [1 .. kNumLevels - 1] of the first loop of [Compact]. *)
Definition probed_levels : list Z :=
  map Z.of_nat (seq 1 (Z.to_nat (kNumLevels fl) - 1)).

Definition level_property (level : Z) : string :=
  snprintf 100 ("leveldb.num-files-at-level" ++ Printf.fmt_d level)%string.

(** [db_->GetProperty(name, &v) && v > 0] *)
Definition has_files (r : option Z) : bool :=
  match r with
  | Some v => 0 <? v
  | None => false
  end.

Fixpoint probe_levels (levels : list Z) (max_level_with_files : Z)
  : M St Z :=
  match levels with
  | [] => ret max_level_with_files
  | level :: rest =>
      let name := level_property level in
      r <- gets (fun b => DB_GetProperty name (world b)) ;;
      emit (EvGetProperty name r) ;;
      probe_levels rest
        (if has_files r then level else max_level_with_files)
  end.

(** [for (int level = 0; level < max_level_with_files; level++)] *)
Fixpoint compact_levels (levels : list Z) : M St unit :=
  match levels with
  | [] => ret tt
  | level :: rest =>
      call_ (TEST_CompactRange level "" "~") ;;
      emit (EvCompactRange level "" "~") ;;
      compact_levels rest
  end.

Definition Compact : M St unit :=
  call_ TEST_CompactMemTable ;;
  emit EvCompactMemTable ;;
  max_level_with_files <- probe_levels probed_levels 1 ;;
  compact_levels (map Z.of_nat (seq 0 (Z.to_nat max_level_with_files))).

Definition HeapProfile : M St unit :=
  modify (fun b => set_heap_counter_ (CInt.to_int (heap_counter_ b + 1)) b) ;;
  c <- gets heap_counter_ ;;
  let fname := snprintf 100 ("/tmp/dbbench/heap-" ++ Printf.fmt_0d 4 c)%string in
  s <- call (Env_NewWritableFile fname) ;;
  emit (EvNewWritableFile fname s) ;;
  if negb (ok s) then modify (set_message_ (ToString s))
  else
    supported <- call port_GetHeapProfile ;;
    emit (EvGetHeapProfile supported) ;;
    if negb supported then
      modify (set_message_ "not supported"%string) ;;
      call_ (Env_DeleteFile fname) ;;
      emit (EvDeleteFile fname)
    else ret tt.

(** The [if]/[else if] chain of [Run]; [None] for a name that matches no
    benchmark. *)
Definition handler (name : string) : option (M St unit) :=
  if String.eqb name "fillseq" then
    Some (n <- gets num_ ;;
          Write false SEQUENTIAL FRESH n (FLAGS_value_size fl))
  else if String.eqb name "fillrandom" then
    Some (n <- gets num_ ;;
          Write false RANDOM FRESH n (FLAGS_value_size fl))
  else if String.eqb name "overwrite" then
    Some (n <- gets num_ ;;
          Write false RANDOM EXISTING n (FLAGS_value_size fl))
  else if String.eqb name "fillsync" then
    Some (n <- gets num_ ;;
          Write true RANDOM FRESH (CInt.int_div n 100) (FLAGS_value_size fl))
  else if String.eqb name "fill100K" then
    Some (n <- gets num_ ;;
          Write false RANDOM FRESH (CInt.int_div n 1000) (100 * 1000))
  else if String.eqb name "readseq" then Some ReadSequential
  else if String.eqb name "readreverse" then Some ReadReverse
  else if String.eqb name "readrandom" then Some ReadRandom
  else if String.eqb name "compact" then Some Compact
  else if String.eqb name "heapprofile" then Some HeapProfile
  else None.

(** One turn of the loop of [Run], for the name just cut off the list. *)
Definition run_benchmark (name : string) : M St unit :=
  Start ;;
  match handler name with
  | Some h => h
  | None => emit (EvStderr ("unknown benchmark '" ++ name ++ "'" ++ LF)%string)
  end ;;
  Stop name.

Fixpoint run_benchmarks (names : list string) : M St unit :=
  match names with
  | [] => ret tt
  | name :: rest => run_benchmark name ;; run_benchmarks rest
  end.

Definition Run : M St unit :=
  PrintHeader ;;
  Open ;;
  run_benchmarks (split_commas (FLAGS_benchmarks fl)).

End Benchmark.

(** ** A simulated world

    An in-memory engine with an ordered store and injectable failures: one
    inhabitant of [World], used to run the harness on concrete inputs. *)

Module Sim.

Record t : Type := mk {
  store : list entry;
  (** [DB::Open] fails *)
  open_fails : bool;
  (** writes accepted before one fails; [None]: every write succeeds *)
  write_budget : option nat;
  props : list (string * Z);
  clock : Z
}.

(** Insert or replace, keeping the keys in bytewise ascending order. *)
Fixpoint put (k : string) (v : list ascii) (st : list entry) : list entry :=
  match st with
  | [] => [(k, v)]
  | (k', v') :: rest =>
      match String.compare k k' with
      | Lt => (k, v) :: st
      | Eq => (k, v) :: rest
      | Gt => (k', v') :: put k v rest
      end
  end.

Definition write (batch : list entry) (w : t) : Status * t :=
  match write_budget w with
  | Some O => (StatusError "IO error: disk full", w)
  | budget =>
      (StatusOK,
       mk (fold_left (fun st e => put (fst e) (snd e) st) batch (store w))
          (open_fails w)
          (match budget with Some (S n) => Some n | b => b end)
          (props w) (clock w))
  end.

Definition open (w : t) : Status * t :=
  if open_fails w then (StatusError "IO error: lock /tmp/dbbench/LOCK", w)
  else (StatusOK, w).

Definition destroy (w : t) : t :=
  mk [] (open_fails w) (write_budget w) (props w) (clock w).

Definition property (name : string) (w : t) : option Z :=
  match find (fun p => String.eqb (fst p) name) (props w) with
  | Some p => Some (snd p)
  | None => None
  end.

Definition now (w : t) : Z * t :=
  (clock w,
   mk (store w) (open_fails w) (write_budget w) (props w) (clock w + 7)).

(** A multiplicative congruential generator. *)
Definition next (seed : Z) : Z * Z :=
  let s := (seed * 16807) mod 2147483647 in (s, s).

#[global] Instance world : World t Z := {|
  DB_Open := open;
  DB_Close := fun w => w;
  DestroyDB := destroy;
  DB_Write := fun _ batch w => write batch w;
  DB_Get := fun _ w => w;
  DB_Entries := store;
  DB_GetProperty := property;
  TEST_CompactMemTable := fun w => w;
  TEST_CompactRange := fun _ _ _ w => w;
  Env_NowMicros := now;
  Env_GetChildren := fun _ _ => [];
  Env_NewWritableFile := fun _ w => (StatusOK, w);
  Env_DeleteFile := fun _ w => w;
  port_GetHeapProfile := fun w => (false, w);
  Random_new := fun seed => seed;
  Random_Next := next;
  fmt_5_1f := fun _ => "?"%string
|}.

(** A 64 byte generator buffer and a healthy empty engine. *)
Definition buffer : list ascii := repeat "x"%char 64.

Definition healthy : t := mk [] false None [] 1000.

Definition flags (benchmarks : string) (num value_size : Z) : Flags :=
  mkFlags benchmarks num value_size false 7.

Definition bench (fl : Flags) (w : t) : Bench t Z :=
  Benchmark_new fl buffer w.

(** The benchmark object over a database that already holds the store of
    [w] (what [DestroyDB] removed is back). *)
Definition populated (fl : Flags) (w : t) : Bench t Z :=
  set_world w (set_db_ true (bench fl w)).

(** Three stored entries. *)
Definition three_keys : t :=
  mk [(format_key 0, ["a"%char]); (format_key 1, ["b"%char]);
      (format_key 2, ["c"%char])] false None [] 1000.

(** An engine whose [n + 1]st write fails. *)
Definition failing_after (n : nat) : t := mk [] false (Some n) [] 1000.


End Sim.

(** Keys the iterator was read at, in order. *)
Definition visited_keys (tr : list Event) : list string :=
  flat_map (fun e =>
              match e with
              | EvIterEntry k _ => [k]
              | _ => []
              end) tr.

(** ** An engine that never fails

    The ordered store of [Sim] without the injected failures: every open and
    every write returns ok. *)

Module Steady.

Record t : Type := mk {
  store : list entry;
  clock : Z
}.

#[global] Instance world : World t Z := {|
  DB_Open := fun w => (StatusOK, w);
  DB_Close := fun w => w;
  DestroyDB := fun w => mk [] (clock w);
  DB_Write := fun _ batch w =>
    (StatusOK,
     mk (fold_left (fun st e => Sim.put (fst e) (snd e) st) batch (store w))
        (clock w));
  DB_Get := fun _ w => w;
  DB_Entries := store;
  DB_GetProperty := fun _ _ => None;
  TEST_CompactMemTable := fun w => w;
  TEST_CompactRange := fun _ _ _ w => w;
  Env_NowMicros := fun w => (clock w, mk (store w) (clock w + 7));
  Env_GetChildren := fun _ _ => [];
  Env_NewWritableFile := fun _ w => (StatusOK, w);
  Env_DeleteFile := fun _ w => w;
  port_GetHeapProfile := fun w => (false, w);
  Random_new := fun seed => seed;
  Random_Next := Sim.next;
  fmt_5_1f := fun _ => "?"%string
|}.

Definition empty : t := mk [] 1000.

Definition bench (fl : Flags) : Bench t Z :=
  Benchmark_new fl Sim.buffer empty.

End Steady.

(** ** Vocabulary for the statements *)

(** Events that only print. *)
Definition is_output (e : Event) : bool :=
  match e with
  | EvStderr _ | EvStderrLongOp _ | EvStdoutHeader
  | EvStdoutSummary _ _ _ _ | EvStdoutHistogram _ => true
  | _ => false
  end.

(** The batches handed to [DB::Write], in order. *)
Definition written_batches (tr : list Event) : list (list entry) :=
  flat_map (fun e => match e with EvWrite _ b _ => [b] | _ => [] end) tr.

(** The key integer of iteration [i]: the loop index, or a remainder of a
    random number by [FLAGS_num]. *)
Definition key_of (fl : Flags) (order : Order) (i k : Z) : Prop :=
  match order with
  | SEQUENTIAL => k = i
  | RANDOM =>
      CInt.to_uint (FLAGS_num fl) <> 0
      /\ exists r,
           k = CInt.to_int (CInt.to_uint r mod CInt.to_uint (FLAGS_num fl))
  end.


(** The key integers of consecutive iterations, from iteration [i] on. *)
Fixpoint keys_from (fl : Flags) (order : Order) (i : Z) (ks : list Z) : Prop :=
  match ks with
  | [] => True
  | k :: rest => key_of fl order i k /\ keys_from fl order (i + 1) rest
  end.

(** [rand_.Next() % FLAGS_num] for the number [v] that [Next] returned, as
    stored in [const int k]: the remainder is taken on [unsigned int]. *)
Definition drawn_key (fl : Flags) (v : Z) : Z :=
  CInt.to_int (CInt.to_uint v mod CInt.to_uint (FLAGS_num fl)).

(** The numbers the next [n] calls of [Next] return, from the generator
    state [r] on. *)
Fixpoint draws {W R} `{World W R} (r : R) (n : nat) : list Z :=
  match n with
  | O => []
  | S n' => fst (Random_Next r) :: draws (snd (Random_Next r)) n'
  end.

(** The state of the generator after [n] calls of [Next]. *)
Fixpoint advanced {W R} `{World W R} (r : R) (n : nat) : R :=
  match n with
  | O => r
  | S n' => advanced (snd (Random_Next r)) n'
  end.

(** A call that the harness treats as fatal: an open or a write that did
    not return ok. *)
Definition failed (e : Event) : bool :=
  match e with
  | EvOpen s | EvWrite _ _ s => negb (ok s)
  | _ => false
  end.

(** What is printed on the diagnostic stream after a fatal call. *)
Definition error_report (e : Event) : list Event :=
  match e with
  | EvOpen s => [EvStderr ("open error: " ++ ToString s ++ LF)%string]
  | EvWrite _ _ s => [EvStderr ("put error: " ++ ToString s ++ LF)%string]
  | _ => []
  end.

(** No fatal call. *)
Definition clean (tr : list Event) : Prop :=
  Forall (fun e => failed e = false) tr.

(** The shape of the events of a computation at its outcome: a process that
    exits does so with status 1, right after the report of the first fatal
    call; one that goes on has seen no fatal call. *)
Definition fail_fast {S A} (o : Outcome S A) (tr : list Event) : Prop :=
  match o with
  | Exited code _ =>
      code = 1
      /\ exists pre e,
           tr = pre ++ e :: error_report e /\ clean pre /\ failed e = true
  | Done _ _ | Aborted _ _ => clean tr
  end.

(** A computation whose events always have that shape. *)
Definition fails_fast {W R A} (m : M (Bench W R) A) : Prop :=
  forall b, exists tr,
    trace (final_state (m b)) = trace b ++ tr /\ fail_fast (m b) tr.


(** A generator that can serve values of [value_size] bytes for ever: the
    cursor is inside the buffer and the buffer is strictly larger than the
    value. *)
Definition gen_ready (g : RandomGenerator.t) (value_size : Z) : Prop :=
  Z.of_nat (length (RandomGenerator.data_ g)) <= CInt.INT_MAX
  /\ 0 <= RandomGenerator.pos_ g <= Z.of_nat (length (RandomGenerator.data_ g))
  /\ 0 <= value_size < Z.of_nat (length (RandomGenerator.data_ g)).

(** Calls into the storage engine. *)
Definition is_engine_call (e : Event) : bool :=
  match e with
  | EvOpen _ | EvClose | EvDestroy | EvWrite _ _ _ | EvGet _ | EvNewIterator
  | EvIterEntry _ _ | EvCompactMemTable | EvGetProperty _ _
  | EvCompactRange _ _ _ => true
  | _ => false
  end.

(** The benchmark names [Run] knows. *)
Definition known_benchmarks : list string :=
  ["fillseq"; "fillrandom"; "overwrite"; "fillsync"; "fill100K"; "readseq";
   "readreverse"; "readrandom"; "compact"; "heapprofile"]%string.

(** The number of entries a write phase asks [Write] for. *)
Definition entries_of (fl : Flags) (name : string) : Z :=
  if String.eqb name "fillsync" then CInt.int_div (FLAGS_num fl) 100
  else if String.eqb name "fill100K" then CInt.int_div (FLAGS_num fl) 1000
  else FLAGS_num fl.

(** ** [TrimSpace] *)

(** [isspace] in the "C" locale, which the program never leaves: the
    characters 9 to 13 and the blank. *)
Definition isspace (c : ascii) : bool :=
  let n := nat_of_ascii c in
  ((9 <=? n)%nat && (n <=? 13)%nat) || (n =? 32)%nat.

Module Trim.

(** [while (start < s.size() && isspace(s[start])) start++;] with [s] the
    bytes of the slice; the loop makes at most [s.size()] turns. *)
Fixpoint skip_front (s : list ascii) (fuel : nat) (start : Z) : Z :=
  match fuel with
  | O => start
  | S fuel' =>
      if (CInt.to_size_t start <? Z.of_nat (length s))
         && isspace (nth (Z.to_nat start) s zero)
      then skip_front s fuel' (CInt.to_int (start + 1))
      else start
  end.

(** [while (limit > start && isspace(s[limit-1])) limit--;] *)
Fixpoint skip_back (s : list ascii) (start : Z) (fuel : nat) (limit : Z) : Z :=
  match fuel with
  | O => limit
  | S fuel' =>
      if (limit >? start) && isspace (nth (Z.to_nat (limit - 1)) s zero)
      then skip_back s start fuel' (CInt.to_int (limit - 1))
      else limit
  end.

End Trim.

(** [static Slice TrimSpace(Slice s)]: the result is a slice of [s], given
    by its offset in [s] and its size. *)
Definition TrimSpace (s : list ascii) : Slice :=
  let start := Trim.skip_front s (length s) 0 in
  let limit :=
    Trim.skip_back s start (length s) (CInt.to_int (Z.of_nat (length s))) in
  mkSlice start (CInt.to_size_t (limit - start)).

(** ** More vocabulary *)

(** The names of the summary lines printed, in order. *)
Definition summary_names (tr : list Event) : list string :=
  flat_map (fun e =>
              match e with
              | EvStdoutSummary name _ _ _ => [name]
              | _ => []
              end) tr.

(** The file a heap profile goes to, by the number of the profile. *)
Definition heap_file_name (counter : Z) : string :=
  snprintf 100 ("/tmp/dbbench/heap-" ++ Printf.fmt_0d 4 counter)%string.

(** The number of commas of a string. *)
Fixpoint count_commas (s : string) : nat :=
  match s with
  | EmptyString => O
  | String c s' =>
      if Ascii.eqb c ","%char then S (count_commas s') else count_commas s'
  end.

(** A sequence of calls of [Generate], as long as none fails its
    assertion: the final generator and the slices returned. *)
Fixpoint generate_all (g : RandomGenerator.t) (lens : list Z)
  : option (RandomGenerator.t * list Slice) :=
  match lens with
  | [] => Some (g, [])
  | len :: rest =>
      match RandomGenerator.Generate g len with
      | RandomGenerator.Generated g' s =>
          match generate_all g' rest with
          | Some (g'', ss) => Some (g'', s :: ss)
          | None => None
          end
      | RandomGenerator.AssertFailed _ => None
      end
  end.

(** Slices each of which starts where the one before ended, the first one
    at [off]. *)
Fixpoint chained (off : Z) (ss : list Slice) : Prop :=
  match ss with
  | [] => True
  | s :: rest => slice_off s = off /\ chained (off + slice_size s) rest
  end.

(** What is printed on the diagnostic stream. *)
Definition is_stderr (e : Event) : bool :=
  match e with
  | EvStderr _ | EvStderrLongOp _ => true
  | _ => false
  end.

(** What is printed on standard output. *)
Definition is_stdout (e : Event) : bool :=
  match e with
  | EvStdoutHeader | EvStdoutSummary _ _ _ _ | EvStdoutHistogram _ => true
  | _ => false
  end.

(** Closing, destroying and opening the database. *)
Definition is_lifecycle (e : Event) : bool :=
  match e with
  | EvOpen _ | EvClose | EvDestroy => true
  | _ => false
  end.

(** Reading from the database. *)
Definition is_read (e : Event) : bool :=
  match e with
  | EvNewIterator | EvIterEntry _ _ | EvGet _ => true
  | _ => false
  end.

(** A write is made with the given [sync] option. *)
Definition write_sync_is (sync : bool) (e : Event) : bool :=
  match e with
  | EvWrite s _ _ => Bool.eqb s sync
  | _ => true
  end.

(** A computation all of whose events satisfy [P], however it ends. *)
Definition emits {W R A} (P : Event -> bool) (m : M (Bench W R) A) : Prop :=
  forall b, exists tr,
    trace (final_state (m b)) = trace b ++ tr
    /\ Forall (fun e => P e = true) tr.

(** The progress line of [FinishedSingleOp] after [done] operations. *)
Definition progress_line (done : Z) : Event :=
  EvStderr ("... finished " ++ Printf.fmt_d done ++ " ops"
              ++ Printf.string_of_chars (repeat " "%char 30) ++ CR)%string.

(** By how much [next_report_] moves on when it is reached. *)
Definition report_step (next_report : Z) : Z :=
  if next_report <? 1000 then 100
  else if next_report <? 10000 then 1000
  else if next_report <? 100000 then 10000
  else 100000.

(** The distance between the operation counts at which progress is
    reported, around the count [d]: every 100 up to 1000, every 1000 up to
    10000, every 10000 up to 100000, every 100000 beyond. *)
Definition report_spacing (d : Z) : Z :=
  if d <=? 1000 then 100
  else if d <=? 10000 then 1000
  else if d <=? 100000 then 10000
  else 100000.

(** The operation counts at which progress is reported. *)
Definition report_point (d : Z) : Prop :=
  0 < d /\ d mod report_spacing d = 0.

(** [next_report_] is the first report point after [done_]. *)
Definition report_pending (done next_report : Z) : Prop :=
  0 <= done < next_report
  /\ next_report - report_spacing next_report <= done
  /\ next_report mod report_spacing next_report = 0.

(** ** The message a write phase leaves *)

(** The message after the test [num_entries != num_] of [Write], from the
    message before it. *)
Definition ops_note (num_entries num : Z) (message : string) : string :=
  if num_entries =? num then message
  else snprintf 100 ("(" ++ Printf.fmt_d num_entries ++ " ops)")%string.

(** The events of [Write] before its loop. *)
Definition fresh_prelude (open : bool) (st : Status) : list Event :=
  (if open then [EvClose] else []) ++ [EvDestroy; EvOpen st].

(** A batch of one value of [value_size] bytes that lie side by side in
    [data]. *)
Definition one_value_from (data : list ascii) (value_size : Z)
  (batch : list entry) : Prop :=
  exists key val off,
    batch = [(key, val)]
    /\ Z.of_nat (length val) = value_size
    /\ val = firstn (Z.to_nat value_size) (skipn off data).

(** ** Vocabulary of the read phases *)

(** The keys [ReadRandom] looked up, in order. *)
Definition looked_up (tr : list Event) : list string :=
  flat_map (fun e =>
              match e with
              | EvGet k => [k]
              | _ => []
              end) tr.

(** The entries an iterator handed out, in order. *)
Definition visited_entries (tr : list Event) : list entry :=
  flat_map (fun e =>
              match e with
              | EvIterEntry k v => [(k, v)]
              | _ => []
              end) tr.

(** [iter->key().size() + iter->value().size()] *)
Definition entry_bytes (e : entry) : Z :=
  Z.of_nat (String.length (fst e)) + Z.of_nat (length (snd e)).

Definition visited_bytes (tr : list Event) : Z :=
  fold_right Z.add 0 (map entry_bytes (visited_entries tr)).

(** ** A world with a directory

    The files of [/tmp/dbbench] by name; every file can be created and heap
    profiles are supported. *)

Module Disk.

Record t : Type := mk {
  files : list string;
  clock : Z
}.

(** The name of [path] inside [/tmp/dbbench/]. *)
Definition base (path : string) : string :=
  String.substring 13 (String.length path - 13) path.

#[global] Instance world : World t Z := {|
  DB_Open := fun w => (StatusOK, w);
  DB_Close := fun w => w;
  DestroyDB := fun w => w;
  DB_Write := fun _ _ w => (StatusOK, w);
  DB_Get := fun _ w => w;
  DB_Entries := fun _ => [];
  DB_GetProperty := fun _ _ => None;
  TEST_CompactMemTable := fun w => w;
  TEST_CompactRange := fun _ _ _ w => w;
  Env_NowMicros := fun w => (clock w, mk (files w) (clock w + 7));
  Env_GetChildren := fun dir w =>
    if String.eqb dir "/tmp/dbbench" then files w else [];
  Env_NewWritableFile := fun path w =>
    (StatusOK, mk (files w ++ [base path]) (clock w));
  Env_DeleteFile := fun path w =>
    mk (filter (fun f => negb (String.eqb ("/tmp/dbbench/" ++ f) path))
          (files w))
       (clock w);
  port_GetHeapProfile := fun w => (true, w);
  Random_new := fun seed => seed;
  Random_Next := Sim.next;
  fmt_5_1f := fun _ => "?"%string
|}.

End Disk.

(** ** Proof plumbing *)

(** Unfolds the plumbing of a computation. *)
Ltac unfold_m :=
  try unfold now_seconds;
  try unfold emit;
  try unfold call_;
  try unfold bind;
  try unfold ret;
  try unfold gets;
  try unfold modify;
  try unfold call;
  try unfold exit;
  try unfold abort.

(** The same in a hypothesis. *)
Ltac unfold_m_in H :=
  progress (try unfold now_seconds in H;
            try unfold emit in H;
            try unfold call_ in H;
            try unfold bind in H;
            try unfold ret in H;
            try unfold gets in H;
            try unfold modify in H;
            try unfold call in H;
            try unfold exit in H;
            try unfold abort in H).

(** Projections of updated states. *)
Ltac simpl_st :=
  cbn [trace log world set_world db_ set_db_ num_ heap_counter_
       set_heap_counter_ start_ set_start_ last_op_finish_
       set_last_op_finish_ bytes_ set_bytes_ message_ set_message_ hist_
       set_hist_ gen_ set_gen_ rand_ set_rand_ done_ set_done_ next_report_
       set_next_report_ final_state] in *.

(** Case analysis on the test of a conditional of the goal. *)
Ltac case_if :=
  match goal with
  | |- context [if ?c then _ else _] => destruct c eqn:?
  end.

(** * Properties *)

(** ** Integer conversions *)

Lemma to_int_id x : - 2 ^ 31 <= x < 2 ^ 31 -> CInt.to_int x = x.
Proof.
  intros Hx. unfold CInt.to_int.
  rewrite Z.mod_small by lia. lia.
Qed.

Lemma to_int_range x : - 2 ^ 31 <= CInt.to_int x < 2 ^ 31.
Proof.
  unfold CInt.to_int.
  pose proof (Z.mod_pos_bound (x + 2 ^ 31) (2 ^ 32) ltac:(lia)). lia.
Qed.

Lemma to_int_wrapped x :
  2 ^ 31 <= x < 2 ^ 32 -> CInt.to_int x = x - 2 ^ 32.
Proof.
  intros Hx. unfold CInt.to_int.
  replace (x + 2 ^ 31) with ((x - 2 ^ 31) + 1 * 2 ^ 32) by lia.
  rewrite Z.mod_add by lia. rewrite Z.mod_small by lia. lia.
Qed.

Lemma to_uint_id x : 0 <= x < 2 ^ 32 -> CInt.to_uint x = x.
Proof. intros Hx. unfold CInt.to_uint. now rewrite Z.mod_small. Qed.

Lemma to_size_t_id x : 0 <= x < 2 ^ 64 -> CInt.to_size_t x = x.
Proof. intros Hx. unfold CInt.to_size_t. now rewrite Z.mod_small. Qed.

Lemma to_size_t_neg x :
  - 2 ^ 64 <= x < 0 -> CInt.to_size_t x = x + 2 ^ 64.
Proof.
  intros Hx. unfold CInt.to_size_t.
  replace x with ((x + 2 ^ 64) + (-1) * 2 ^ 64) at 1 by lia.
  rewrite Z.mod_add by lia. now rewrite Z.mod_small by lia.
Qed.

Lemma to_int64_id x : - 2 ^ 63 <= x < 2 ^ 63 -> CInt.to_int64 x = x.
Proof.
  intros Hx. unfold CInt.to_int64.
  rewrite Z.mod_small by lia. lia.
Qed.

(** ** [RandomGenerator::Generate] *)

Section GenerateFacts.

Import RandomGenerator.

Variable g : RandomGenerator.t.
Variable len : Z.

Let size := Z.of_nat (length (data_ g)).

Hypothesis Hsize : size <= CInt.INT_MAX.
Hypothesis Hpos : 0 <= pos_ g <= size.
Hypothesis Hlen : 0 <= len <= CInt.INT_MAX.

(** The comparison [pos_ + len > data_.size()] decides whether the request
    fits behind the cursor, also when the [int] sum wraps. *)
Lemma Generate_test :
  (CInt.to_size_t (CInt.to_int (pos_ g + len)) >? size) = (pos_ g + len >? size).
Proof using Hsize Hpos Hlen.
  unfold CInt.INT_MAX in *.
  destruct (Z_lt_ge_dec (pos_ g + len) (2 ^ 31)) as [Hs | Hs].
  - rewrite to_int_id by lia. rewrite to_size_t_id by lia. reflexivity.
  - rewrite to_int_wrapped by lia. rewrite to_size_t_neg by lia.
    transitivity true; [| symmetry ]; apply Z.gtb_lt; lia.
Qed.

Lemma Generate_fits :
  pos_ g + len <= size ->
  Generate g len
  = Generated (mk (data_ g) (pos_ g + len)) (mkSlice (pos_ g) len).
Proof using Hsize Hpos Hlen.
  intros Hfit. unfold Generate. fold size.
  rewrite Generate_test.
  destruct (Z.gtb_spec (pos_ g + len) size) as [Hgt | _]; [lia |].
  unfold CInt.INT_MAX in *.
  rewrite to_int_id by lia. rewrite to_size_t_id by lia.
  do 2 f_equal. lia.
Qed.

Lemma Generate_wraps :
  size < pos_ g + len -> len < size ->
  Generate g len = Generated (mk (data_ g) len) (mkSlice 0 len).
Proof using Hsize Hpos Hlen.
  intros Hover Hlt. unfold Generate. fold size.
  rewrite Generate_test.
  destruct (Z.gtb_spec (pos_ g + len) size) as [_ | Hle]; [| lia].
  unfold CInt.INT_MAX in *.
  rewrite to_size_t_id by lia.
  destruct (Z.ltb_spec len size) as [_ | Hge]; [| lia].
  cbn [pos_]. rewrite Z.add_0_l. rewrite to_int_id by lia.
  do 2 f_equal. lia.
Qed.

Lemma Generate_asserts :
  size < pos_ g + len -> size <= len ->
  Generate g len = AssertFailed (mk (data_ g) 0).
Proof using Hsize Hpos Hlen.
  intros Hover Hge. unfold Generate. fold size.
  rewrite Generate_test.
  destruct (Z.gtb_spec (pos_ g + len) size) as [_ | Hle]; [| lia].
  unfold CInt.INT_MAX in *.
  rewrite to_size_t_id by lia.
  destruct (Z.ltb_spec len size) as [Hlt | _]; [lia | reflexivity].
Qed.

End GenerateFacts.

Lemma slice_bytes_inside data off len :
  0 <= off -> 0 <= len -> off + len <= Z.of_nat (length data) ->
  slice_bytes data (mkSlice off len)
  = Some (firstn (Z.to_nat len) (skipn (Z.to_nat off) data))
  /\ Z.of_nat (length (firstn (Z.to_nat len) (skipn (Z.to_nat off) data))) = len.
Proof.
  intros Hoff Hlen Hin. unfold slice_bytes. cbn [slice_off slice_size].
  destruct (Z.leb_spec 0 off); [| lia].
  destruct (Z.leb_spec 0 len); [| lia].
  destruct (Z.leb_spec (off + len) (Z.of_nat (length data))); [| lia].
  split; [reflexivity |].
  rewrite length_firstn, length_skipn. lia.
Qed.

(** A successful call, whatever the cursor was: where the slice starts and
    where the cursor ends. *)
Lemma Generate_success g len g' s :
  let size := Z.of_nat (length (RandomGenerator.data_ g)) in
  size <= CInt.INT_MAX ->
  0 <= RandomGenerator.pos_ g <= size ->
  0 <= len <= CInt.INT_MAX ->
  RandomGenerator.Generate g len = RandomGenerator.Generated g' s ->
  let start := if RandomGenerator.pos_ g + len >? size
               then 0 else RandomGenerator.pos_ g in
  g' = RandomGenerator.mk (RandomGenerator.data_ g) (start + len)
  /\ s = mkSlice start len
  /\ 0 <= start /\ start + len <= size
  /\ (RandomGenerator.pos_ g + len <= size \/ len < size).
Proof.
  intros size Hsize Hpos Hlen Hgen start. subst start.
  destruct (Z.gtb_spec (RandomGenerator.pos_ g + len) size) as [Hover | Hfit].
  - destruct (Z_lt_ge_dec len size) as [Hlt | Hge].
    + rewrite (Generate_wraps g len Hsize Hpos Hlen Hover Hlt) in Hgen.
      injection Hgen as <- <-. repeat split; lia.
    + rewrite (Generate_asserts g len Hsize Hpos Hlen Hover) in Hgen by lia.
      discriminate.
  - rewrite (Generate_fits g len Hsize Hpos Hlen Hfit) in Hgen.
    injection Hgen as <- <-. repeat split; lia.
Qed.

(** Every state reached from the constructor keeps the buffer and has its
    cursor inside it. *)
Lemma reachable_inv data g :
  Z.of_nat (length data) <= CInt.INT_MAX ->
  RandomGenerator.reachable data g ->
  RandomGenerator.data_ g = data
  /\ 0 <= RandomGenerator.pos_ g <= Z.of_nat (length data).
Proof.
  intros Hsize Hreach.
  induction Hreach as [| g len g' s Hreach [IHd IHp] Hlen Hgen].
  - cbn. split; [reflexivity | lia].
  - rewrite <- IHd in Hsize, IHp.
    destruct (Generate_success g len g' s Hsize IHp Hlen Hgen)
      as (-> & _ & H0 & H1 & _).
    cbn [RandomGenerator.data_ RandomGenerator.pos_].
    rewrite <- IHd. split; [reflexivity | lia].
Qed.

(** C2 (as amended): when the request does not fit behind the cursor the
    cursor is reset to zero first; a call that succeeds returns the [len]
    bytes at the cursor and advances the cursor by [len].  The call succeeds
    when the request fits behind the cursor or [len] is strictly smaller than
    the buffer, and the assertion fails otherwise: for every [len] above the
    buffer size, and for [len] equal to it unless the cursor is at zero. *)
Theorem Generate_contract g len :
  let size := Z.of_nat (length (RandomGenerator.data_ g)) in
  size <= CInt.INT_MAX ->
  0 <= RandomGenerator.pos_ g <= size ->
  0 <= len <= CInt.INT_MAX ->
  let start := if RandomGenerator.pos_ g + len >? size
               then 0 else RandomGenerator.pos_ g in
  (RandomGenerator.pos_ g + len <= size \/ len < size ->
   RandomGenerator.Generate g len
   = RandomGenerator.Generated
       (RandomGenerator.mk (RandomGenerator.data_ g) (start + len))
       (mkSlice start len)
   /\ slice_bytes (RandomGenerator.data_ g) (mkSlice start len)
      = Some (firstn (Z.to_nat len)
                (skipn (Z.to_nat start) (RandomGenerator.data_ g)))
   /\ Z.of_nat
        (length (firstn (Z.to_nat len)
                   (skipn (Z.to_nat start) (RandomGenerator.data_ g)))) = len)
  /\ (size < RandomGenerator.pos_ g + len -> size <= len ->
      RandomGenerator.Generate g len
      = RandomGenerator.AssertFailed
          (RandomGenerator.mk (RandomGenerator.data_ g) 0))
  /\ (size < len ->
      RandomGenerator.Generate g len
      = RandomGenerator.AssertFailed
          (RandomGenerator.mk (RandomGenerator.data_ g) 0)).
Proof.
  intros size Hsize Hpos Hlen start. split; [| split].
  - intros Hok. subst start.
    destruct (Z.gtb_spec (RandomGenerator.pos_ g + len) size) as [Hover | Hfit].
    + destruct Hok as [Hfit | Hlt]; [lia |].
      split; [| apply slice_bytes_inside; fold size; lia].
      now apply Generate_wraps.
    + split; [| apply slice_bytes_inside; fold size; lia].
      now apply Generate_fits.
  - intros Hover Hge. now apply Generate_asserts.
  - intros Hbig. apply Generate_asserts; fold size; lia.
Qed.

Lemma Generate_contract_witness :
  let g := RandomGenerator.mk (repeat "x"%char 8) 6 in
  RandomGenerator.Generate g 5
  = RandomGenerator.Generated
      (RandomGenerator.mk (repeat "x"%char 8) 5) (mkSlice 0 5)
  /\ RandomGenerator.Generate g 9
     = RandomGenerator.AssertFailed (RandomGenerator.mk (repeat "x"%char 8) 0).
Proof.
  intros g.
  assert (Hsize : Z.of_nat (length (RandomGenerator.data_ g)) <= CInt.INT_MAX)
    by (vm_compute; discriminate).
  assert (Hpos : 0 <= RandomGenerator.pos_ g
                 <= Z.of_nat (length (RandomGenerator.data_ g)))
    by (vm_compute; split; discriminate).
  split.
  - assert (Hlen : 0 <= 5 <= CInt.INT_MAX) by (vm_compute; split; discriminate).
    destruct (Generate_contract g 5 Hsize Hpos Hlen) as (Hok & _ & _).
    destruct Hok as (Hgen & _ & _).
    + right. vm_compute. reflexivity.
    + exact Hgen.
  - assert (Hlen : 0 <= 9 <= CInt.INT_MAX) by (vm_compute; split; discriminate).
    destruct (Generate_contract g 9 Hsize Hpos Hlen) as (_ & _ & Hbig).
    apply Hbig. vm_compute. reflexivity.
Defined.

(** C2, the claim as written fails: with a buffer of four bytes and the
    cursor at one (after a first call for one byte), a request for four
    bytes, the buffer's total size, does not succeed. *)
Lemma Generate_total_size_counterexample :
  RandomGenerator.Generate (RandomGenerator.new (repeat "x"%char 4)) 1
  = RandomGenerator.Generated
      (RandomGenerator.mk (repeat "x"%char 4) 1) (mkSlice 0 1)
  /\ 4 <= Z.of_nat (length (repeat "x"%char 4))
  /\ RandomGenerator.Generate (RandomGenerator.mk (repeat "x"%char 4) 1) 4
     = RandomGenerator.AssertFailed (RandomGenerator.mk (repeat "x"%char 4) 0).
Proof. vm_compute. repeat split. discriminate. Qed.

(** C10: from the constructor on, every successful call for
    [0 <= len <= size] leaves the cursor with [len <= pos_ <= size], returns
    the slice [pos_ - len, pos_) of the buffer, which lies inside it, and
    leaves the buffer as it was built. *)
Theorem Generate_within_buffer data g len g' s :
  Z.of_nat (length data) <= CInt.INT_MAX ->
  RandomGenerator.reachable data g ->
  0 <= len <= Z.of_nat (length data) ->
  RandomGenerator.Generate g len = RandomGenerator.Generated g' s ->
  RandomGenerator.data_ g' = data
  /\ len <= RandomGenerator.pos_ g' <= Z.of_nat (length data)
  /\ slice_off s = RandomGenerator.pos_ g' - len
  /\ slice_size s = len
  /\ 0 <= slice_off s
  /\ slice_off s + slice_size s <= Z.of_nat (length data)
  /\ slice_bytes data s
     = Some (firstn (Z.to_nat len)
               (skipn (Z.to_nat (RandomGenerator.pos_ g' - len)) data))
  /\ RandomGenerator.reachable data g'.
Proof.
  intros Hsize Hreach Hlen Hgen.
  destruct (reachable_inv data g Hsize Hreach) as [Hd Hp].
  assert (Hlen' : 0 <= len <= CInt.INT_MAX) by lia.
  assert (Hreach' : RandomGenerator.reachable data g')
    by (eapply RandomGenerator.reach_generate; eassumption).
  rewrite <- Hd in Hsize, Hp.
  destruct (Generate_success g len g' s Hsize Hp Hlen' Hgen)
    as (-> & -> & H0 & H1 & _).
  cbn [RandomGenerator.data_ RandomGenerator.pos_ slice_off slice_size].
  rewrite Hd in *.
  set (start := if RandomGenerator.pos_ g + len >? Z.of_nat (length data)
                then 0 else RandomGenerator.pos_ g) in *.
  replace (start + len - len) with start by lia.
  repeat split; try lia; try assumption.
  apply slice_bytes_inside; lia.
Qed.

Lemma Generate_within_buffer_witness :
  let data := repeat "x"%char 8 in
  let g := RandomGenerator.mk data 5 in
  RandomGenerator.reachable data g
  /\ RandomGenerator.pos_ (RandomGenerator.mk data 8) = 8
  /\ slice_bytes data (mkSlice 5 3) = Some (repeat "x"%char 3).
Proof.
  intros data g.
  assert (Hsize : Z.of_nat (length data) <= CInt.INT_MAX)
    by (vm_compute; discriminate).
  assert (Hreach : RandomGenerator.reachable data g).
  { apply (RandomGenerator.reach_generate data (RandomGenerator.new data) 5 g
             (mkSlice 0 5)).
    - constructor.
    - vm_compute; split; discriminate.
    - vm_compute; reflexivity. }
  assert (Hlen : 0 <= 3 <= Z.of_nat (length data))
    by (vm_compute; split; discriminate).
  assert (Hgen : RandomGenerator.Generate g 3
                 = RandomGenerator.Generated (RandomGenerator.mk data 8)
                     (mkSlice 5 3))
    by (vm_compute; reflexivity).
  destruct (Generate_within_buffer data g 3 _ _ Hsize Hreach Hlen Hgen)
    as (_ & _ & _ & _ & _ & _ & Hbytes & _).
  split; [exact Hreach |]. split; [reflexivity |].
  rewrite Hbytes. vm_compute. reflexivity.
Defined.

(** ** Formatting of keys *)

Lemma length_string_of_chars l :
  String.length (Printf.string_of_chars l) = length l.
Proof. induction l as [| c l IH]; simpl; [reflexivity | f_equal; exact IH]. Qed.

Lemma substring_all m s :
  (String.length s <= m)%nat -> String.substring 0 m s = s.
Proof.
  revert m. induction s as [| c s IH]; intros m Hm.
  - destruct m; reflexivity.
  - destruct m as [| m]; cbn in Hm; [lia |].
    cbn. f_equal. apply IH. lia.
Qed.

Lemma snprintf_fits size s :
  (String.length s < size)%nat -> snprintf size s = s.
Proof. intros Hs. unfold snprintf. apply substring_all. lia. Qed.

(** A number below [10 ^ w] has between one and [w] digits. *)
Lemma length_decimal_fuel fuel : forall w n,
  (1 <= w <= fuel)%nat -> 0 <= n < 10 ^ Z.of_nat w ->
  (1 <= length (Printf.decimal_fuel fuel n) <= w)%nat.
Proof.
  induction fuel as [| fuel IH]; intros w n Hw Hn; [lia |].
  cbn [Printf.decimal_fuel].
  destruct (Z.ltb_spec n 10) as [Hlt | Hge]; [cbn; lia |].
  rewrite length_app. cbn [length].
  destruct w as [| [| w]]; [lia | cbn in Hn; lia |].
  assert (Hdiv : 0 <= n / 10 < 10 ^ Z.of_nat (S w)).
  { split; [apply Z.div_pos; lia |].
    apply Z.div_lt_upper_bound; [lia |].
    replace (Z.of_nat (S (S w))) with (Z.succ (Z.of_nat (S w))) in Hn by lia.
    rewrite Z.pow_succ_r in Hn by lia. lia. }
  specialize (IH (S w) (n / 10) ltac:(lia) Hdiv). lia.
Qed.

Lemma length_decimal_int n :
  0 <= n <= 2 ^ 31 -> (1 <= length (Printf.decimal n) <= 10)%nat.
Proof.
  intros Hn. unfold Printf.decimal.
  apply length_decimal_fuel; [lia |].
  change (10 ^ Z.of_nat 10) with 10000000000.
  change (2 ^ 31) with 2147483648 in Hn. lia.
Qed.

(** ["%016d"] of an [int] is exactly sixteen characters wide, so that the
    hundred byte buffer never truncates it. *)
Lemma length_fmt_016d k :
  - 2 ^ 31 <= k < 2 ^ 31 -> String.length (Printf.fmt_0d 16 k) = 16%nat.
Proof.
  intros Hk. unfold Printf.fmt_0d.
  rewrite length_string_of_chars, !length_app, repeat_length.
  assert (Hd := length_decimal_int (Z.abs k) ltac:(lia)).
  destruct (k <? 0); cbn [length]; lia.
Qed.

Lemma format_key_int k :
  - 2 ^ 31 <= k < 2 ^ 31 ->
  format_key k = Printf.fmt_0d 16 k /\ String.length (format_key k) = 16%nat.
Proof.
  intros Hk. unfold format_key.
  rewrite snprintf_fits by (rewrite length_fmt_016d by exact Hk; lia).
  split; [reflexivity | now apply length_fmt_016d].
Qed.

Lemma digit_value_char d :
  0 <= d < 10 -> Printf.digit_value (Printf.digit_char d) = d.
Proof.
  intros Hd. unfold Printf.digit_value, Printf.digit_char.
  rewrite nat_ascii_embedding by lia. lia.
Qed.

Lemma decimal_value_acc_app acc l1 l2 :
  Printf.decimal_value_acc acc (Printf.string_of_chars (l1 ++ l2))
  = Printf.decimal_value_acc
      (Printf.decimal_value_acc acc (Printf.string_of_chars l1))
      (Printf.string_of_chars l2).
Proof.
  revert acc. induction l1 as [| c l1 IH]; intros acc; cbn; [reflexivity |].
  apply IH.
Qed.

Lemma decimal_value_zeros p :
  Printf.decimal_value_acc 0 (Printf.string_of_chars (repeat "0"%char p)) = 0.
Proof. induction p as [| p IH]; cbn; [reflexivity | exact IH]. Qed.

Lemma decimal_value_decimal_fuel fuel : forall n,
  0 <= n < 10 ^ Z.of_nat fuel ->
  Printf.decimal_value_acc 0
    (Printf.string_of_chars (Printf.decimal_fuel fuel n)) = n.
Proof.
  induction fuel as [| fuel IH]; intros n Hn; [cbn in Hn; cbn; lia |].
  cbn [Printf.decimal_fuel].
  destruct (Z.ltb_spec n 10) as [Hlt | Hge].
  - cbn [Printf.string_of_chars fold_right Printf.decimal_value_acc].
    rewrite digit_value_char by lia. lia.
  - rewrite decimal_value_acc_app. rewrite IH.
    + cbn [Printf.string_of_chars fold_right Printf.decimal_value_acc].
      rewrite digit_value_char by (apply Z.mod_pos_bound; lia).
      pose proof (Z.div_mod n 10 ltac:(lia)). lia.
    + split; [apply Z.div_pos; lia |].
      apply Z.div_lt_upper_bound; [lia |].
      replace (Z.of_nat (S fuel)) with (Z.succ (Z.of_nat fuel)) in Hn by lia.
      rewrite Z.pow_succ_r in Hn by lia. lia.
Qed.

(** The key written for [k >= 0] is the decimal representation of [k],
    zero padded: read back as a decimal number it gives [k]. *)
Lemma decimal_value_fmt_0d width k :
  0 <= k < 2 ^ 31 -> Printf.decimal_value (Printf.fmt_0d width k) = k.
Proof.
  intros Hk. unfold Printf.decimal_value, Printf.fmt_0d.
  destruct (Z.ltb_spec k 0) as [Hneg | _]; [lia |].
  cbn [app]. rewrite decimal_value_acc_app, decimal_value_zeros.
  rewrite Z.abs_eq by lia. apply decimal_value_decimal_fuel.
  change (10 ^ Z.of_nat 20) with 100000000000000000000.
  change (2 ^ 31) with 2147483648 in Hk. lia.
Qed.

(** ** Traces *)

Lemma written_batches_app tr1 tr2 :
  written_batches (tr1 ++ tr2) = written_batches tr1 ++ written_batches tr2.
Proof. apply flat_map_app. Qed.

Lemma visited_keys_app tr1 tr2 :
  visited_keys (tr1 ++ tr2) = visited_keys tr1 ++ visited_keys tr2.
Proof. apply flat_map_app. Qed.

Lemma output_only tr :
  Forall (fun e => is_output e = true) tr ->
  written_batches tr = [] /\ visited_keys tr = [].
Proof.
  induction 1 as [| e tr He _ (IH1 & IH2)]; [now repeat split |].
  destruct e; try discriminate He; cbn; auto.
Qed.

Section BenchmarkFacts.

Context {W R : Type} `{HW : World W R}.
Variable fl : Flags.

Local Abbreviation St := (Bench W R).

(** [FinishedSingleOp] returns, prints at most, and leaves the byte counter
    alone. *)
Lemma FinishedSingleOp_spec (b : St) :
  exists s tr,
    FinishedSingleOp fl b = Done tt s
    /\ trace s = trace b ++ tr
    /\ Forall (fun e => is_output e = true) tr
    /\ bytes_ s = bytes_ b.
Proof.
  unfold FinishedSingleOp. unfold_m.
  destruct (FLAGS_histogram fl).
  - destruct (Env_NowMicros (world b)) as [t w] eqn:Hnow. cbn.
    repeat (case_if; cbn); eexists _, _; (split; [reflexivity |]);
      simpl_st; rewrite <- ?app_assoc;
      (split; [first [reflexivity | symmetry; apply app_nil_r] |]);
      (split; [| reflexivity]); repeat constructor.
  - cbn. repeat (case_if; cbn); eexists _, _; (split; [reflexivity |]);
      simpl_st;
      (split; [first [reflexivity | symmetry; apply app_nil_r] |]);
      (split; [| reflexivity]); repeat constructor.
Qed.

Lemma ddiv_nonzero a ops :
  1 <= ops -> ddiv a (inject_Z ops) = Finite (a / inject_Z ops)%Q.
Proof.
  intros Hops. unfold ddiv.
  destruct (Qeq_bool (inject_Z ops) 0) eqn:E; [| reflexivity].
  apply Qeq_bool_eq in E. unfold Qeq, inject_Z in E. cbn in E. lia.
Qed.

(** [Start] returns and zeroes the counters of the phase. *)
Lemma Start_spec (b : St) :
  exists s,
    Start b = Done tt s
    /\ trace s = trace b
    /\ bytes_ s = 0 /\ done_ s = 0 /\ message_ s = EmptyString
    /\ hist_ s = []
    /\ num_ s = num_ b /\ db_ s = db_ b
    /\ world s = snd (Env_NowMicros (world b)).
Proof.
  unfold Start. unfold_m.
  destruct (Env_NowMicros (world b)) as [t w] eqn:Hnow. cbn.
  eexists. split; [reflexivity |]. simpl_st. now repeat split.
Qed.

(** What [Stop] prints and leaves behind. *)
Lemma Stop_spec (name : string) (b : St) :
  let finish :=
    (inject_Z (CInt.to_size_t (fst (Env_NowMicros (world b))))
     * (1 # 1000000))%Q in
  let elapsed := (finish - start_ b)%Q in
  let ops := if done_ b <? 1 then 1 else done_ b in
  let rate :=
    snprintf 100
      (fmt_5_1f (ddiv (inject_Z (bytes_ b) / 1048576)%Q elapsed) ++ " MB/s")
      %string in
  let msg :=
    if 0 <? bytes_ b
    then (if is_empty (message_ b) then rate
          else (rate ++ " " ++ message_ b)%string)
    else message_ b in
  exists s,
    Stop fl name b = Done tt s
    /\ trace s
       = trace b
         ++ EvStdoutSummary name
              (Finite (elapsed * 1000000 / inject_Z ops)%Q)
              (if is_empty msg then "" else " ")%string msg
            :: (if FLAGS_histogram fl then [EvStdoutHistogram (hist_ b)]
                else [])
    /\ 1 <= ops
    /\ done_ s = ops
    /\ message_ s = msg
    /\ bytes_ s = bytes_ b
    /\ ddiv (elapsed * 1000000)%Q (inject_Z ops)
       = Finite (elapsed * 1000000 / inject_Z ops)%Q.
Proof.
  intros finish elapsed ops rate msg.
  assert (Hops : 1 <= ops) by (subst ops; destruct (Z.ltb_spec (done_ b) 1); lia).
  assert (Hdiv := ddiv_nonzero (elapsed * 1000000)%Q ops Hops).
  unfold Stop. unfold_m.
  subst msg rate elapsed finish.
  destruct (Env_NowMicros (world b)) as [t w] eqn:Hnow. cbn [fst] in *.
  simpl_st.
  destruct (done_ b <? 1) eqn:Hdone; simpl_st;
    destruct (0 <? bytes_ b) eqn:Hbytes; simpl_st;
    try (destruct (is_empty (message_ b)) eqn:Hmsg; cbn [negb]; simpl_st);
    subst ops; rewrite Hdiv;
    destruct (FLAGS_histogram fl); simpl_st;
    eexists; (split; [reflexivity |]); simpl_st;
    rewrite <- ?app_assoc; cbn [app]; repeat split; try reflexivity; lia.
Qed.

(** C6: [Stop] divides the elapsed time by the number of operations done,
    with a count below one replaced by one, so that the divisor is never
    zero and the quotient is finite; and the message printed carries the
    MB/s figure in front when the byte counter is positive, and is the
    phase's message untouched when it is not. *)
Theorem Stop_summary (name : string) (b : St) :
  let finish :=
    (inject_Z (CInt.to_size_t (fst (Env_NowMicros (world b))))
     * (1 # 1000000))%Q in
  let elapsed := (finish - start_ b)%Q in
  let ops := if done_ b <? 1 then 1 else done_ b in
  let rate :=
    snprintf 100
      (fmt_5_1f (ddiv (inject_Z (bytes_ b) / 1048576)%Q elapsed) ++ " MB/s")
      %string in
  let msg :=
    if 0 <? bytes_ b
    then (if is_empty (message_ b) then rate
          else (rate ++ " " ++ message_ b)%string)
    else message_ b in
  exists s,
    Stop fl name b = Done tt s
    /\ trace s
       = trace b
         ++ EvStdoutSummary name
              (Finite (elapsed * 1000000 / inject_Z ops)%Q)
              (if is_empty msg then "" else " ")%string msg
            :: (if FLAGS_histogram fl then [EvStdoutHistogram (hist_ b)]
                else [])
    /\ 1 <= ops
    /\ done_ s = ops
    /\ message_ s = msg
    /\ bytes_ s = bytes_ b
    /\ ddiv (elapsed * 1000000)%Q (inject_Z ops)
       = Finite (elapsed * 1000000 / inject_Z ops)%Q.
Proof. exact (Stop_spec name b). Qed.

(** The three ways one iteration of [Write] can go: it aborts before it
    writes; the write fails and the process exits; the write succeeds and
    the iteration completes. *)
Lemma write_one_cases sync order value_size i (b : St) :
  let o := write_one fl sync order value_size i b in
  ((exists f s, o = Aborted f s) /\ trace (final_state o) = trace b)
  \/ (exists k val st,
        key_of fl order i k /\ ok st = false
        /\ (exists s, o = Exited 1 s)
        /\ trace (final_state o)
           = trace b
             ++ [EvWrite sync [(format_key k, val)] st;
                 EvStderr ("put error: " ++ ToString st ++ LF)%string])
  \/ (exists k val st out s,
        key_of fl order i k /\ ok st = true
        /\ o = Done tt s
        /\ trace s
           = trace b ++ EvWrite sync [(format_key k, val)] st :: out
        /\ Forall (fun e => is_output e = true) out
        /\ bytes_ s
           = CInt.to_int64
               (bytes_ b
                + CInt.to_size_t
                    (CInt.to_size_t value_size
                     + Z.of_nat (String.length (format_key k))))).
Proof.
  intros o. assert (Ho : o = write_one fl sync order value_size i b)
    by reflexivity.
  clearbody o. unfold write_one in Ho.
  assert (Hkey :
    exists b1 : St, trace b1 = trace b /\ bytes_ b1 = bytes_ b
    /\ ((exists f,
           match order with
           | SEQUENTIAL => ret i
           | RANDOM => random_key fl
           end b = Aborted f b1)
        \/ exists k, key_of fl order i k /\
             match order with
             | SEQUENTIAL => ret i
             | RANDOM => random_key fl
             end b = Done k b1)).
  { destruct order.
    - exists b. repeat split. right. exists i. now split.
    - unfold random_key. unfold_m.
      destruct (Random_Next (rand_ b)) as [r r'] eqn:Hr. cbn.
      eexists. split; [| split];
        [| | destruct (Z.eqb_spec (CInt.to_uint (FLAGS_num fl)) 0)
               as [Hz | Hz]].
      3: { left. eexists. reflexivity. }
      3: { right. eexists. split; [| reflexivity]. split; [exact Hz |].
           now exists r. }
      all: reflexivity. }
  destruct Hkey as (b1 & Ht1 & Hb1 & [[f Hk] | (k & Hko & Hk)]);
    unfold bind at 1 in Ho; rewrite Hk in Ho.
  { left. subst o. split; [now eexists _, _ | exact Ht1]. }
  unfold bind at 1 in Ho. unfold generate_value in Ho.
  repeat unfold_m_in Ho.
  destruct (RandomGenerator.Generate (gen_ b1) value_size) as [g' sl | g'].
  2: { left. subst o. simpl_st. split; [now eexists _, _ | exact Ht1]. }
  simpl_st.
  destruct (slice_bytes (RandomGenerator.data_ g') sl) as [val |].
  2: { left. subst o. simpl_st. split; [now eexists _, _ | exact Ht1]. }
  simpl_st.
  destruct (DB_Write sync [(format_key k, val)] (world b1)) as [st w] eqn:Hw.
  simpl_st. destruct (ok st) eqn:Hok; cbn [negb] in Ho.
  - right. right.
    match type of Ho with
    | context [FinishedSingleOp fl ?x] =>
        destruct (FinishedSingleOp_spec x) as (s & out & E & Et & Eo & Eb);
        rewrite E in Ho
    end.
    simpl_st. exists k, val, st, out, s.
    repeat split; try assumption.
    + rewrite Et, Ht1, <- app_assoc. reflexivity.
    + rewrite Eb, Hb1. reflexivity.
  - right. left. exists k, val, st. subst o. simpl_st.
    repeat split; try assumption.
    + now eexists.
    + rewrite Ht1, <- app_assoc. reflexivity.
Qed.

(** What [Write] does before its loop: with [FRESH] the database is closed,
    destroyed and reopened and the counters restarted; either that fails and
    [Write] ends there, or the loop runs from a state whose byte counter is
    zero ([FRESH]) or untouched ([EXISTING]).  Nothing is written so far. *)
Lemma Write_prelude sync order state n value_size (b : St) :
  let o := Write fl sync order state n value_size b in
  exists tr0,
    ((exists s1,
        o = write_loop fl sync order value_size (Z.to_nat n) 0 s1
        /\ trace s1 = trace b ++ tr0
        /\ clean tr0
        /\ bytes_ s1 = match state with FRESH => 0 | EXISTING => bytes_ b end)
     \/ ((forall s, o <> Done tt s)
         /\ trace (final_state o) = trace b ++ tr0
         /\ fail_fast o tr0))
    /\ written_batches tr0 = [].
Proof.
  intros o. subst o. unfold Write, Open, Start. unfold_m.
  destruct state; simpl_st.
  - destruct (db_ b); simpl_st;
      match goal with
      | |- context [DB_Open ?w] => destruct (DB_Open w) as [st w1] eqn:Hopen
      end; simpl_st;
      (destruct (ok st) eqn:Hok; cbn [negb]; simpl_st;
       [ match goal with
         | |- context [Env_NowMicros ?w] =>
             destruct (Env_NowMicros w) as [t w2] eqn:Hnow
         end; simpl_st;
         case_if; cbn [negb]; simpl_st;
         eexists; (split; [left; eexists; split; [reflexivity |]; simpl_st;
                          rewrite <- ?app_assoc;
                          split; [reflexivity |]; split; [| reflexivity];
                          repeat constructor; cbn; now rewrite Hok
                         | reflexivity])
       | eexists; (split; [right; split; [discriminate |]; simpl_st;
                          rewrite <- ?app_assoc; split; [reflexivity |];
                          split; [reflexivity |] | reflexivity]) ]).
    + exists [EvClose; EvDestroy], (EvOpen st). cbn. rewrite Hok.
      repeat split. repeat constructor.
    + exists [EvDestroy], (EvOpen st). cbn. rewrite Hok.
      repeat split. repeat constructor.
  - case_if; cbn [negb]; simpl_st; exists [];
      (split; [left; eexists; split; [reflexivity |]; simpl_st;
               rewrite app_nil_r; repeat split; constructor
              | reflexivity]).
Qed.

(** The writes of the loop of [Write]: one single-key batch per iteration
    reached, for the key integers of the iterations in order; all
    iterations are reached when the loop completes. *)
Lemma write_loop_keys sync order value_size fuel : forall i (b : St),
  let o := write_loop fl sync order value_size fuel i b in
  exists tr ks,
    trace (final_state o) = trace b ++ tr
    /\ map (map fst) (written_batches tr) = map (fun k => [format_key k]) ks
    /\ keys_from fl order i ks
    /\ (length ks <= fuel)%nat
    /\ (forall s, o = Done tt s -> length ks = fuel).
Proof.
  induction fuel as [| fuel IH]; intros i b o.
  - subst o. exists [], []. cbn. rewrite app_nil_r. now repeat split.
  - assert (Ho : o = write_loop fl sync order value_size (S fuel) i b)
      by reflexivity.
    clearbody o. cbn [write_loop] in Ho. unfold bind at 1 in Ho.
    destruct (write_one_cases sync order value_size i b)
      as [[(f & s & E) Ht] | [(k & val & st & Hk & Hok & (s & E) & Ht)
                             | (k & val & st & out & s & Hk & Hok & E & Ht & Hout & _)]];
      rewrite E in *; subst o; simpl_st.
    + exists [], []. cbn. rewrite app_nil_r.
      repeat split; try (intros; discriminate); try lia; assumption.
    + eexists _, [k]. split; [exact Ht |]. cbn.
      repeat split; try (intros; discriminate); try lia; assumption.
    + destruct (IH (i + 1) s) as (tr & ks & Ht' & Hw & Hks & Hlen & Hdone).
      exists (EvWrite sync [(format_key k, val)] st :: out ++ tr), (k :: ks).
      split; [rewrite Ht', Ht, <- app_assoc; reflexivity |].
      destruct (output_only out Hout) as (Hout1 & _).
      split; [| split; [| split]].
      * change (EvWrite sync [(format_key k, val)] st :: out ++ tr)
          with ([EvWrite sync [(format_key k, val)] st] ++ out ++ tr).
        rewrite !written_batches_app, Hout1. cbn. now rewrite Hw.
      * now split.
      * cbn. lia.
      * intros s' Hs'. cbn. f_equal. now apply (Hdone s').
Qed.

Lemma keys_from_sequential ks : forall i,
  keys_from fl SEQUENTIAL i ks ->
  ks = map (fun j => i + Z.of_nat j) (seq 0 (length ks)).
Proof.
  induction ks as [| k ks IH]; intros i Hks; [reflexivity |].
  destruct Hks as [Hk Hks]. cbn in Hk. subst k.
  cbn [length seq map]. f_equal; [lia |].
  rewrite <- seq_shift, map_map. rewrite (IH (i + 1) Hks) at 1.
  apply map_ext. intros j. lia.
Qed.

Lemma keys_from_random ks : forall i,
  0 < FLAGS_num fl <= CInt.INT_MAX ->
  keys_from fl RANDOM i ks ->
  Forall (fun k => 0 <= k < FLAGS_num fl) ks.
Proof.
  induction ks as [| k ks IH]; intros i Hnum Hks; constructor.
  - destruct Hks as [[_ [r ->]] _]. unfold CInt.INT_MAX in Hnum.
    rewrite (to_uint_id (FLAGS_num fl)) by lia.
    pose proof (Z.mod_pos_bound (CInt.to_uint r) (FLAGS_num fl) ltac:(lia)).
    rewrite to_int_id by lia. lia.
  - destruct Hks as [_ Hks]. now apply (IH (i + 1)).
Qed.

Lemma key_of_int order i k :
  - 2 ^ 31 <= i < 2 ^ 31 -> key_of fl order i k -> - 2 ^ 31 <= k < 2 ^ 31.
Proof.
  intros Hi Hk. destruct order; cbn in Hk.
  - now subst k.
  - destruct Hk as [_ [r ->]]. apply to_int_range.
Qed.

(** The byte counter after a completed loop of [Write]. *)
Lemma write_loop_bytes sync order value_size fuel : forall i (b s : St),
  0 <= value_size <= CInt.INT_MAX ->
  0 <= i -> i + Z.of_nat fuel <= 2 ^ 31 ->
  0 <= bytes_ b ->
  bytes_ b + Z.of_nat fuel * (value_size + 16) < 2 ^ 63 ->
  write_loop fl sync order value_size fuel i b = Done tt s ->
  bytes_ s = bytes_ b + Z.of_nat fuel * (value_size + 16).
Proof.
  induction fuel as [| fuel IH]; intros i b s Hv Hi Hif Hb Hbound Hrun.
  - cbn in Hrun. injection Hrun as <-. lia.
  - cbn [write_loop] in Hrun. unfold bind at 1 in Hrun.
    destruct (write_one_cases sync order value_size i b)
      as [[(f & s1 & E) _] | [(k & val & st & _ & _ & (s1 & E) & _)
                             | (k & val & st & out & s1 & Hk & _ & E & _ & _ & Hbytes)]];
      rewrite E in Hrun; try discriminate Hrun.
    assert (Hkint : - 2 ^ 31 <= k < 2 ^ 31)
      by (apply (key_of_int order i k); [lia | exact Hk]).
    destruct (format_key_int k Hkint) as [_ Hlen].
    rewrite Hlen in Hbytes. unfold CInt.INT_MAX in Hv.
    change (Z.of_nat 16) with 16 in Hbytes.
    rewrite (to_size_t_id value_size) in Hbytes by lia.
    rewrite to_size_t_id in Hbytes by lia.
    rewrite to_int64_id in Hbytes by nia.
    rewrite (IH (i + 1) s1 s Hv) by (try exact Hrun; nia).
    rewrite Hbytes. lia.
Qed.

(** A write phase as [Run] brackets it: [Start], [Write], [Stop]. *)
Lemma write_phase sync order state n value_size name (b : St) :
  let o := (Start ;; Write fl sync order state n value_size ;;
            Stop fl name)%bench b in
  exists tr ks,
    trace (final_state o) = trace b ++ tr
    /\ map (map fst) (written_batches tr) = map (fun k => [format_key k]) ks
    /\ keys_from fl order 0 ks
    /\ (length ks <= Z.to_nat n)%nat
    /\ (forall s, o = Done tt s ->
        length ks = Z.to_nat n
        /\ (0 <= n <= CInt.INT_MAX -> 0 <= value_size <= CInt.INT_MAX ->
            bytes_ s = n * (value_size + 16))).
Proof.
  intros o.
  assert (Ho : o = (Start ;; Write fl sync order state n value_size ;;
                    Stop fl name)%bench b) by reflexivity.
  clearbody o. unfold bind at 1 in Ho.
  destruct (Start_spec b) as (b1 & E1 & Ht1 & Hb1 & _).
  rewrite E1 in Ho. unfold bind at 1 in Ho.
  destruct (Write_prelude sync order state n value_size b1)
    as (tr0 & [(s1 & Ew & Hts1 & _ & Hbytes1) | (Hnd & Htf & _)] & Hw0).
  - rewrite Ew in Ho.
    destruct (write_loop_keys sync order value_size (Z.to_nat n) 0 s1)
      as (tr & ks & Ht & Hw & Hks & Hlen & Hdone).
    assert (Hs1 : bytes_ s1 = 0) by (destruct state; congruence).
    destruct (write_loop fl sync order value_size (Z.to_nat n) 0 s1)
      as [[] s2 | c s2 | f s2] eqn:El; simpl_st.
    + destruct (Stop_spec name s2)
        as (s3 & Es & Hts & _ & _ & _ & Hbs & _).
      rewrite Es in Ho. subst o. simpl_st.
      eexists _, ks. split.
      { rewrite Hts, Ht, Hts1, Ht1, <- !app_assoc. reflexivity. }
      split.
      { rewrite !written_batches_app, Hw0.
        replace (written_batches (_ :: _)) with (@nil (list entry))
          by (destruct (FLAGS_histogram fl); reflexivity).
        rewrite app_nil_r. exact Hw. }
      split; [exact Hks |]. split; [exact Hlen |].
      intros s Hs. injection Hs as <-.
      split; [now apply (Hdone s2) |].
      intros Hn Hv. rewrite Hbs.
      unfold CInt.INT_MAX in Hn, Hv.
      rewrite (write_loop_bytes sync order value_size (Z.to_nat n) 0 s1 s2);
        try assumption; rewrite ?Hs1, ?Z2Nat.id; try lia.
      change (2 ^ 63) with 9223372036854775808. nia.
    + subst o. simpl_st. exists (tr0 ++ tr), ks.
      split; [rewrite Ht, Hts1, Ht1, <- app_assoc; reflexivity |].
      split; [rewrite written_batches_app, Hw0; exact Hw |].
      repeat split; try assumption; discriminate.
    + subst o. simpl_st. exists (tr0 ++ tr), ks.
      split; [rewrite Ht, Hts1, Ht1, <- app_assoc; reflexivity |].
      split; [rewrite written_batches_app, Hw0; exact Hw |].
      repeat split; try assumption; discriminate.
  - destruct (Write fl sync order state n value_size b1)
      as [[] s2 | c s2 | f s2] eqn:Ew; [now elim (Hnd s2) | |];
      subst o; simpl_st; exists tr0, [];
      (split; [rewrite Htf, Ht1; reflexivity |]);
      (split; [rewrite Hw0; reflexivity |]);
      cbn; repeat split; try lia; discriminate.
Qed.

(** The five write phases of [Run] are brackets of this form. *)
Lemma run_write_phase name sync order state (f : Z -> Z) value_size (b : St) :
  handler fl name
  = Some (n <- gets num_ ;; Write fl sync order state (f n) value_size)%bench ->
  run_benchmark fl name b
  = (Start ;; Write fl sync order state (f (num_ b)) value_size ;;
     Stop fl name)%bench b.
Proof.
  intros Hh. unfold run_benchmark. rewrite Hh.
  destruct (Start_spec b) as (b1 & E1 & _ & _ & _ & _ & _ & Hn & _).
  unfold bind, gets. rewrite E1. cbn beta. rewrite Hn. reflexivity.
Qed.

(** *** Completion with an engine that does not fail *)







Lemma int_div_nonpos n d :
  - 2 ^ 31 <= n <= 0 -> 0 < d -> CInt.int_div n d <= 0.
Proof.
  intros Hn Hd. unfold CInt.int_div.
  assert (Hq : n <= Z.quot n d <= 0).
  { rewrite <- (Z.opp_involutive n), Z.quot_opp_l by lia.
    pose proof (Z.quot_pos (- n) d ltac:(lia) Hd).
    pose proof (Z.quot_le_upper_bound (- n) d (- n) Hd ltac:(nia)). lia. }
  rewrite to_int_id; lia.
Qed.


(** *** The keys of the random phases *)

Lemma FinishedSingleOp_rand (b : St) :
  rand_ (final_state (FinishedSingleOp fl b)) = rand_ b.
Proof.
  unfold FinishedSingleOp. unfold_m.
  destruct (FLAGS_histogram fl).
  - destruct (Env_NowMicros (world b)) as [t w] eqn:Hnow. cbn.
    repeat (case_if; cbn); reflexivity.
  - cbn. repeat (case_if; cbn); reflexivity.
Qed.

Lemma drawn_key_range v :
  0 < FLAGS_num fl <= CInt.INT_MAX ->
  drawn_key fl v = CInt.to_uint v mod FLAGS_num fl
  /\ 0 <= drawn_key fl v < FLAGS_num fl.
Proof.
  intros Hnum. unfold drawn_key, CInt.INT_MAX in *.
  rewrite (to_uint_id (FLAGS_num fl)) by lia.
  pose proof (Z.mod_pos_bound (CInt.to_uint v) (FLAGS_num fl) ltac:(lia)).
  rewrite to_int_id by lia. split; [reflexivity | lia].
Qed.

(** One iteration of the loop of [Write] in a random phase: the key is the
    remainder of the next number of [rand_], and [rand_] moves on by that one
    call. *)
Lemma write_one_random sync value_size i (b : St) :
  let o := write_one fl sync RANDOM value_size i b in
  let k := drawn_key fl (fst (Random_Next (rand_ b))) in
  ((exists f s, o = Aborted f s) /\ trace (final_state o) = trace b)
  \/ (exists val st,
        ok st = false
        /\ (exists s, o = Exited 1 s)
        /\ trace (final_state o)
           = trace b
             ++ [EvWrite sync [(format_key k, val)] st;
                 EvStderr ("put error: " ++ ToString st ++ LF)%string])
  \/ (exists val st out s,
        o = Done tt s
        /\ trace s
           = trace b ++ EvWrite sync [(format_key k, val)] st :: out
        /\ Forall (fun e => is_output e = true) out
        /\ rand_ s = snd (Random_Next (rand_ b))).
Proof.
  intros o k. subst o k.
  unfold write_one, random_key, generate_value, drawn_key. unfold_m.
  destruct (Random_Next (rand_ b)) as [r r'] eqn:Hr. simpl_st.
  cbn [fst snd].
  destruct (CInt.to_uint (FLAGS_num fl) =? 0).
  { left. split; [now eexists _, _ | reflexivity]. }
  simpl_st.
  destruct (RandomGenerator.Generate (gen_ b) value_size) as [g' sl | g'].
  2: { left. simpl_st. split; [now eexists _, _ | reflexivity]. }
  simpl_st.
  destruct (slice_bytes (RandomGenerator.data_ g') sl) as [val |].
  2: { left. simpl_st. split; [now eexists _, _ | reflexivity]. }
  simpl_st.
  match goal with
  | |- context [DB_Write sync ?batch ?w] =>
      destruct (DB_Write sync batch w) as [st w1] eqn:Hw
  end.
  simpl_st. destruct (ok st) eqn:Hok; cbn [negb].
  - right. right.
    match goal with
    | |- context [FinishedSingleOp fl ?x] =>
        destruct (FinishedSingleOp_spec x) as (s & out & E & Et & Eo & _);
        pose proof (FinishedSingleOp_rand x) as Er;
        rewrite E in *
    end.
    simpl_st. exists val, st, out, s.
    split; [reflexivity |].
    split; [rewrite Et, <- app_assoc; reflexivity |].
    split; [exact Eo | exact Er].
  - right. left. exists val, st. simpl_st.
    split; [exact Hok |]. split; [now eexists |].
    rewrite <- app_assoc. reflexivity.
Qed.

(** The loop of [Write] in a random phase: the keys are the remainders of
    the numbers [rand_] returns, one call of [Next] for each key and in
    that order. *)
Lemma write_loop_draws sync value_size fuel : forall i (b : St),
  let o := write_loop fl sync RANDOM value_size fuel i b in
  exists tr ks,
    trace (final_state o) = trace b ++ tr
    /\ map (map fst) (written_batches tr) = map (fun k => [format_key k]) ks
    /\ ks = map (drawn_key fl) (draws (rand_ b) (length ks))
    /\ (length ks <= fuel)%nat
    /\ (forall s, o = Done tt s ->
        length ks = fuel /\ rand_ s = advanced (rand_ b) fuel).
Proof.
  induction fuel as [| fuel IH]; intros i b o.
  - subst o. exists [], []. cbn. rewrite app_nil_r.
    repeat split; try lia;
      match goal with
      | Hs : _ = Done _ _ |- _ => injection Hs as <-
      end; reflexivity.
  - assert (Ho : o = write_loop fl sync RANDOM value_size (S fuel) i b)
      by reflexivity.
    clearbody o. cbn [write_loop] in Ho. unfold bind at 1 in Ho.
    pose proof (write_one_random sync value_size i b) as Hone.
    cbv zeta in Hone.
    destruct Hone
      as [[(f & s & E) Ht] | [(val & st & Hok & (s & E) & Ht)
                             | (val & st & out & s & E & Ht & Hout & Hr)]];
      rewrite E in *; subst o; simpl_st.
    + exists [], []. cbn. rewrite app_nil_r.
      repeat split; try (intros; discriminate); try lia; assumption.
    + eexists _, [_]. split; [exact Ht |]. cbn.
      repeat split; try (intros; discriminate); lia.
    + destruct (IH (i + 1) s) as (tr & ks & Ht' & Hw & Hks & Hlen & Hdone).
      exists (EvWrite sync
                [(format_key (drawn_key fl (fst (Random_Next (rand_ b)))),
                  val)] st :: out ++ tr),
        (drawn_key fl (fst (Random_Next (rand_ b))) :: ks).
      split; [rewrite Ht', Ht, <- app_assoc; reflexivity |].
      destruct (output_only out Hout) as (Hout1 & _).
      split; [| split; [| split]].
      * match goal with
        | |- context [?e :: out ++ tr] =>
            change (e :: out ++ tr) with ([e] ++ out ++ tr)
        end.
        rewrite !written_batches_app, Hout1. cbn. now rewrite Hw.
      * cbn [length draws map]. f_equal. rewrite <- Hr. exact Hks.
      * cbn. lia.
      * intros s' Hs'. destruct (Hdone s' Hs') as [Hl Hadv].
        cbn [length advanced]. split; [now f_equal |].
        now rewrite <- Hr.
Qed.

(** [Write] up to its loop leaves [rand_] alone and writes nothing. *)
Lemma Write_prelude_rand sync order state n value_size (b : St) :
  let o := Write fl sync order state n value_size b in
  exists tr0,
    written_batches tr0 = []
    /\ ((exists s1,
           o = write_loop fl sync order value_size (Z.to_nat n) 0 s1
           /\ trace s1 = trace b ++ tr0
           /\ rand_ s1 = rand_ b)
        \/ ((forall s, o <> Done tt s)
            /\ trace (final_state o) = trace b ++ tr0)).
Proof.
  intros o. subst o. unfold Write, Open, Start. unfold_m.
  destruct state; simpl_st.
  - destruct (db_ b); simpl_st;
      match goal with
      | |- context [DB_Open ?w] => destruct (DB_Open w) as [st w1] eqn:Hopen
      end; simpl_st;
      (destruct (ok st) eqn:Hok; cbn [negb]; simpl_st;
       [ match goal with
         | |- context [Env_NowMicros ?w] =>
             destruct (Env_NowMicros w) as [t w2] eqn:Hnow
         end; simpl_st;
         case_if; cbn [negb]; simpl_st;
         eexists;
         (split; [| left; eexists; split; [reflexivity |]; simpl_st;
                    rewrite <- ?app_assoc; split; reflexivity]);
         reflexivity
       | eexists;
         (split; [| right; split; [discriminate |]; simpl_st;
                    rewrite <- ?app_assoc; reflexivity]);
         reflexivity ]).
  - case_if; cbn [negb]; simpl_st; exists [];
      (split; [reflexivity |]); left; eexists;
      (split; [reflexivity |]); simpl_st; rewrite app_nil_r; now split.
Qed.

(** A random write phase, bracketed by [Start] and [Stop]. *)
Lemma random_write_phase sync state n value_size name (b : St) :
  let o := (Start ;; Write fl sync RANDOM state n value_size ;;
            Stop fl name)%bench b in
  exists tr ks,
    trace (final_state o) = trace b ++ tr
    /\ map (map fst) (written_batches tr) = map (fun k => [format_key k]) ks
    /\ ks = map (drawn_key fl) (draws (rand_ b) (length ks))
    /\ (length ks <= Z.to_nat n)%nat
    /\ (forall s, o = Done tt s ->
        length ks = Z.to_nat n
        /\ rand_ s = advanced (rand_ b) (Z.to_nat n)).
Proof.
  intros o.
  assert (Ho : o = (Start ;; Write fl sync RANDOM state n value_size ;;
                    Stop fl name)%bench b) by reflexivity.
  clearbody o. unfold bind at 1 in Ho.
  assert (Hstart : exists b1 : St,
            Start b = Done tt b1 /\ trace b1 = trace b
            /\ rand_ b1 = rand_ b).
  { unfold Start. unfold_m.
    destruct (Env_NowMicros (world b)) as [t w]. simpl_st.
    eexists. split; [reflexivity |]. simpl_st. now split. }
  destruct Hstart as (b1 & E1 & Ht1 & Hr1).
  rewrite E1 in Ho. unfold bind at 1 in Ho.
  destruct (Write_prelude_rand sync RANDOM state n value_size b1)
    as (tr0 & Hw0 & [(s1 & Ew & Hts1 & Hrs1) | (Hnd & Htf)]).
  - rewrite Ew in Ho.
    destruct (write_loop_draws sync value_size (Z.to_nat n) 0 s1)
      as (tr & ks & Ht & Hw & Hks & Hlen & Hdone).
    rewrite Hrs1, Hr1 in Hks, Hdone.
    destruct (write_loop fl sync RANDOM value_size (Z.to_nat n) 0 s1)
      as [[] s2 | c s2 | f s2] eqn:El; simpl_st.
    + destruct (Stop_spec name s2) as (s3 & Es & Hts & _).
      assert (Hrs : rand_ s3 = rand_ s2).
      { clear - Es. unfold Stop in Es. repeat unfold_m_in Es.
        destruct (Env_NowMicros (world s2)) as [t w]. simpl_st.
        repeat match type of Es with
               | context [if ?c then _ else _] => destruct c; simpl_st
               end;
          injection Es as <-; reflexivity. }
      rewrite Es in Ho. subst o. simpl_st.
      eexists _, ks. split.
      { rewrite Hts, Ht, Hts1, Ht1, <- !app_assoc. reflexivity. }
      split.
      { rewrite !written_batches_app, Hw0.
        replace (written_batches (_ :: _)) with (@nil (list entry))
          by (destruct (FLAGS_histogram fl); reflexivity).
        rewrite app_nil_r. exact Hw. }
      split; [exact Hks |]. split; [exact Hlen |].
      intros s Hs. injection Hs as <-.
      destruct (Hdone s2 eq_refl) as [Hl Hadv].
      split; [exact Hl |]. now rewrite Hrs.
    + subst o. simpl_st. exists (tr0 ++ tr), ks.
      split; [rewrite Ht, Hts1, Ht1, <- app_assoc; reflexivity |].
      split; [rewrite written_batches_app, Hw0; exact Hw |].
      repeat split; try assumption; discriminate.
    + subst o. simpl_st. exists (tr0 ++ tr), ks.
      split; [rewrite Ht, Hts1, Ht1, <- app_assoc; reflexivity |].
      split; [rewrite written_batches_app, Hw0; exact Hw |].
      repeat split; try assumption; discriminate.
  - destruct (Write fl sync RANDOM state n value_size b1)
      as [[] s2 | c s2 | f s2] eqn:Ew; [now elim (Hnd s2) | |];
      subst o; simpl_st; exists tr0, [];
      (split; [rewrite Htf, Ht1; reflexivity |]);
      (split; [rewrite Hw0; reflexivity |]);
      cbn; repeat split; try lia; discriminate.
Qed.

(** C3: in the four random-order write phases every key integer is drawn
    from the random generator [rand_] and bounded by the full entry count
    [FLAGS_num]: the keys written are, in order, the remainders modulo
    [FLAGS_num] of the numbers that successive calls of [Next] return, one
    call for each key, so every key integer lies in [0, FLAGS_num); this
    also in [fillsync] and [fill100K], which write a hundredth and a
    thousandth as many entries.  In the sequential phase the key integers
    are the loop indices. *)
Theorem write_phase_key_integers (name : string) (b : St) :
  num_ b = FLAGS_num fl ->
  - 2 ^ 31 <= FLAGS_num fl <= CInt.INT_MAX ->
  In name ["fillseq"; "fillrandom"; "overwrite"; "fillsync"; "fill100K"]%string ->
  let o := run_benchmark fl name b in
  exists tr ks,
    trace (final_state o) = trace b ++ tr
    /\ map (map fst) (written_batches tr) = map (fun k => [format_key k]) ks
    /\ (length ks <= Z.to_nat (entries_of fl name))%nat
    /\ (forall s, o = Done tt s -> length ks = Z.to_nat (entries_of fl name))
    /\ (name = "fillseq"%string -> ks = map Z.of_nat (seq 0 (length ks)))
    /\ (name <> "fillseq"%string ->
        ks = map (drawn_key fl) (draws (rand_ b) (length ks))
        /\ Forall (fun k => 0 <= k < FLAGS_num fl) ks
        /\ (0 < FLAGS_num fl ->
            forall v, drawn_key fl v = CInt.to_uint v mod FLAGS_num fl)
        /\ (forall s, o = Done tt s ->
            rand_ s = advanced (rand_ b) (length ks))).
Proof.
  intros Hnum Hint Hin o. subst o.
  assert (Hrandom : forall sync state n v nm,
            nm <> "fillseq"%string ->
            n = entries_of fl nm ->
            (FLAGS_num fl <= 0 -> n <= 0) ->
            let o := (Start ;; Write fl sync RANDOM state n v ;;
                      Stop fl nm)%bench b in
            exists tr ks,
              trace (final_state o) = trace b ++ tr
              /\ map (map fst) (written_batches tr)
                 = map (fun k => [format_key k]) ks
              /\ (length ks <= Z.to_nat (entries_of fl nm))%nat
              /\ (forall s, o = Done tt s ->
                  length ks = Z.to_nat (entries_of fl nm))
              /\ (nm = "fillseq"%string ->
                  ks = map Z.of_nat (seq 0 (length ks)))
              /\ (nm <> "fillseq"%string ->
                  ks = map (drawn_key fl) (draws (rand_ b) (length ks))
                  /\ Forall (fun k => 0 <= k < FLAGS_num fl) ks
                  /\ (0 < FLAGS_num fl ->
                      forall v, drawn_key fl v
                                = CInt.to_uint v mod FLAGS_num fl)
                  /\ (forall s, o = Done tt s ->
                      rand_ s = advanced (rand_ b) (length ks)))).
  { intros sync state n v nm Hnm Hn Hnonpos o.
    destruct (random_write_phase sync state n v nm b)
      as (tr & ks & Ht & Hw & Hks & Hlen & Hdone).
    fold o in Ht, Hdone. rewrite Hn in Hlen, Hdone, Hnonpos.
    exists tr, ks.
    split; [exact Ht |]. split; [exact Hw |]. split; [exact Hlen |].
    split; [intros s Hs; now destruct (Hdone s Hs) |].
    split; [intros Heq; now elim Hnm |].
    intros _. split; [exact Hks |].
    split.
    { destruct (Z_lt_ge_dec 0 (FLAGS_num fl)) as [Hpos | Hle].
      - rewrite Hks. apply Forall_forall. intros k Hk.
        apply in_map_iff in Hk. destruct Hk as (v' & <- & _).
        apply drawn_key_range. lia.
      - destruct ks; [constructor | cbn in Hlen; lia]. }
    split; [intros Hpos v'; apply drawn_key_range; lia |].
    intros s Hs. destruct (Hdone s Hs) as [Hl Hr]. now rewrite Hl. }
  cbn [In] in Hin.
  destruct Hin as [<- | [<- | [<- | [<- | [<- | []]]]]].
  - rewrite (run_write_phase "fillseq" false SEQUENTIAL FRESH (fun n => n)
               (FLAGS_value_size fl) b eq_refl).
    destruct (write_phase false SEQUENTIAL FRESH (num_ b)
                (FLAGS_value_size fl) "fillseq" b)
      as (tr & ks & Ht & Hw & Hks & Hlen & Hdone).
    rewrite Hnum in *. exists tr, ks.
    split; [exact Ht |]. split; [exact Hw |]. split; [exact Hlen |].
    split; [intros s Hs; now apply (Hdone s) |].
    split.
    + intros _. rewrite (keys_from_sequential ks 0 Hks) at 1.
      apply map_ext. intros j. lia.
    + intros Hne. now elim Hne.
  - rewrite (run_write_phase "fillrandom" false RANDOM FRESH (fun n => n)
               (FLAGS_value_size fl) b eq_refl).
    rewrite Hnum. apply Hrandom; [discriminate | reflexivity | lia].
  - rewrite (run_write_phase "overwrite" false RANDOM EXISTING (fun n => n)
               (FLAGS_value_size fl) b eq_refl).
    rewrite Hnum. apply Hrandom; [discriminate | reflexivity | lia].
  - rewrite (run_write_phase "fillsync" true RANDOM FRESH
               (fun n => CInt.int_div n 100) (FLAGS_value_size fl) b eq_refl).
    rewrite Hnum. apply Hrandom; [discriminate | reflexivity |].
    intros Hn. apply int_div_nonpos; lia.
  - rewrite (run_write_phase "fill100K" false RANDOM FRESH
               (fun n => CInt.int_div n 1000) (100 * 1000) b eq_refl).
    rewrite Hnum. apply Hrandom; [discriminate | reflexivity |].
    intros Hn. apply int_div_nonpos; lia.
Qed.

(** C9: a write phase, bracketed by [Start] and [Stop] as [Run] does, that
    completes for [n] entries of value size [v] leaves the byte counter at
    exactly [n * (v + 16)]: the key of every [int] is sixteen characters
    long. *)
Theorem write_phase_bytes sync order state n value_size name (b s : St) :
  0 <= n <= CInt.INT_MAX ->
  0 <= value_size <= CInt.INT_MAX ->
  (Start ;; Write fl sync order state n value_size ;; Stop fl name)%bench b
  = Done tt s ->
  bytes_ s = n * (value_size + 16)
  /\ (forall k, - 2 ^ 31 <= k < 2 ^ 31 ->
      String.length (format_key k) = 16%nat).
Proof.
  intros Hn Hv Hrun. split.
  - destruct (write_phase sync order state n value_size name b)
      as (tr & ks & _ & _ & _ & _ & Hdone).
    destruct (Hdone s Hrun) as [_ Hbytes]. now apply Hbytes.
  - intros k Hk. now apply format_key_int.
Qed.

(** *** Compaction *)








(** *** Reading with the iterator *)

Lemma skipn_nth_error {A} (l : list A) : forall p x,
  nth_error l p = Some x -> skipn p l = x :: skipn (S p) l.
Proof.
  induction l as [| a l IH]; intros [| p] x Hx; try discriminate.
  - injection Hx as ->. reflexivity.
  - cbn in Hx. apply (IH p x Hx).
Qed.

Lemma firstn_nth_error {A} (l : list A) : forall p x,
  nth_error l p = Some x -> firstn (S p) l = firstn p l ++ [x].
Proof.
  induction l as [| a l IH]; intros [| p] x Hx; try discriminate.
  - injection Hx as ->. reflexivity.
  - cbn in Hx. cbn [firstn app]. f_equal. apply (IH p x Hx).
Qed.

Lemma current_at (es : list entry) p :
  (p < length es)%nat ->
  exists k v,
    Iter.current (Iter.mk es (Z.of_nat p)) = Some (k, v)
    /\ nth_error es p = Some (k, v).
Proof.
  intros Hp. unfold Iter.current, Iter.Valid. cbn [Iter.pos Iter.items].
  destruct (Z.leb_spec 0 (Z.of_nat p)); [| lia].
  destruct (Z.ltb_spec (Z.of_nat p) (Z.of_nat (length es))); [| lia].
  cbn [andb]. rewrite Nat2Z.id.
  destruct (nth_error es p) as [[k v] |] eqn:E.
  - now exists k, v.
  - apply nth_error_None in E. lia.
Qed.

(** One visit: the entry is read, counted, and the cursor moves. *)
Lemma read_loop_step step fuel es p k v (b : St) :
  Iter.current (Iter.mk es p) = Some (k, v) ->
  exists s out,
    read_loop fl step (S fuel) (Iter.mk es p) b
    = read_loop fl step fuel (step (Iter.mk es p)) s
    /\ trace s = trace b ++ EvIterEntry k v :: out
    /\ Forall (fun e => is_output e = true) out.
Proof.
  intros Hcur. cbn [read_loop]. rewrite Hcur. unfold_m. simpl_st.
  match goal with
  | |- context [FinishedSingleOp fl ?x] =>
      destruct (FinishedSingleOp_spec x) as (s & out & E & Et & Eo & _)
  end.
  rewrite E. exists s, out. split; [reflexivity |].
  split; [| exact Eo]. rewrite Et. simpl_st.
  rewrite <- app_assoc. reflexivity.
Qed.

(** Forward from position [p]: the next [fuel] keys, as far as there are. *)
Lemma read_loop_next es fuel : forall p (b : St),
  (p <= length es)%nat ->
  exists s tr,
    read_loop fl Iter.Next fuel (Iter.mk es (Z.of_nat p)) b = Done tt s
    /\ trace s = trace b ++ tr
    /\ visited_keys tr = firstn fuel (skipn p (map fst es)).
Proof.
  induction fuel as [| fuel IH]; intros p b Hp.
  - exists b, []. cbn. rewrite app_nil_r. now repeat split.
  - destruct (Nat.eq_dec p (length es)) as [-> | Hne].
    + exists b, []. cbn [read_loop].
      unfold Iter.current, Iter.Valid. cbn [Iter.pos Iter.items].
      rewrite Z.ltb_irrefl, andb_false_r.
      split; [reflexivity |]. split; [now rewrite app_nil_r |].
      rewrite skipn_all2 by (rewrite length_map; apply Nat.le_refl).
      now destruct fuel.
    + destruct (current_at es p ltac:(lia)) as (k & v & Hcur & Hnth).
      destruct (read_loop_step Iter.Next fuel es (Z.of_nat p) k v b Hcur)
        as (s1 & out & E & Ht & Hout).
      rewrite E. unfold Iter.Next. cbn [Iter.pos Iter.items].
      replace (Z.of_nat p + 1) with (Z.of_nat (S p)) by lia.
      destruct (IH (S p) s1 ltac:(lia)) as (s & tr & E' & Ht' & Hv).
      exists s, (EvIterEntry k v :: out ++ tr).
      split; [exact E' |].
      split; [rewrite Ht', Ht, <- app_assoc; reflexivity |].
      change (EvIterEntry k v :: out ++ tr)
        with ([EvIterEntry k v] ++ out ++ tr).
      rewrite !visited_keys_app.
      destruct (output_only out Hout) as (_ & ->).
      rewrite Hv. cbn [visited_keys flat_map app].
      rewrite (skipn_nth_error (map fst es) p k)
        by (exact (map_nth_error fst p es Hnth)).
      reflexivity.
Qed.

(** Backward from position [p - 1]: the [fuel] keys before [p], last
    first, as far as there are. *)
Lemma read_loop_prev es fuel : forall p (b : St),
  (p <= length es)%nat ->
  exists s tr,
    read_loop fl Iter.Prev fuel (Iter.mk es (Z.of_nat p - 1)) b = Done tt s
    /\ trace s = trace b ++ tr
    /\ visited_keys tr = firstn fuel (rev (firstn p (map fst es))).
Proof.
  induction fuel as [| fuel IH]; intros p b Hp.
  - exists b, []. cbn. rewrite app_nil_r. now repeat split.
  - destruct p as [| p].
    + exists b, []. cbn [read_loop].
      unfold Iter.current, Iter.Valid. cbn [Iter.pos Iter.items].
      cbn. rewrite app_nil_r. now repeat split.
    + replace (Z.of_nat (S p) - 1) with (Z.of_nat p) by lia.
      destruct (current_at es p ltac:(lia)) as (k & v & Hcur & Hnth).
      destruct (read_loop_step Iter.Prev fuel es (Z.of_nat p) k v b Hcur)
        as (s1 & out & E & Ht & Hout).
      rewrite E. unfold Iter.Prev. cbn [Iter.pos Iter.items].
      destruct (IH p s1 ltac:(lia)) as (s & tr & E' & Ht' & Hv).
      exists s, (EvIterEntry k v :: out ++ tr).
      split; [exact E' |].
      split; [rewrite Ht', Ht, <- app_assoc; reflexivity |].
      change (EvIterEntry k v :: out ++ tr)
        with ([EvIterEntry k v] ++ out ++ tr).
      rewrite !visited_keys_app.
      destruct (output_only out Hout) as (_ & ->).
      rewrite Hv. cbn [visited_keys flat_map app].
      rewrite (firstn_nth_error (map fst es) p k)
        by (exact (map_nth_error fst p es Hnth)).
      rewrite rev_app_distr. reflexivity.
Qed.

(** C5 (as amended): over the same stored entries and entry count [N],
    read-sequential visits the first [N] keys in ascending order and
    read-reverse the last [N] keys in descending order, each stopping early
    when the cursor is exhausted; when the store holds no more than [N]
    entries, read-reverse visits exactly the reversal of what
    read-sequential visits, hence the same set of keys. *)
Theorem read_phases_visit (b1 b2 : St) :
  DB_Entries (world b1) = DB_Entries (world b2) ->
  num_ b1 = num_ b2 ->
  let keys := map fst (DB_Entries (world b1)) in
  let n := Z.to_nat (num_ b1) in
  exists s1 s2 tr1 tr2,
    ReadSequential fl b1 = Done tt s1 /\ trace s1 = trace b1 ++ tr1
    /\ ReadReverse fl b2 = Done tt s2 /\ trace s2 = trace b2 ++ tr2
    /\ visited_keys tr1 = firstn n keys
    /\ visited_keys tr2 = firstn n (rev keys)
    /\ ((length keys <= n)%nat ->
        visited_keys tr2 = rev (visited_keys tr1)
        /\ forall k, In k (visited_keys tr1) <-> In k (visited_keys tr2)).
Proof.
  intros Hes Hnum keys n.
  destruct (read_loop_next (DB_Entries (world b1)) n 0
              (log EvNewIterator b1) ltac:(lia))
    as (s1 & tr1 & E1 & Ht1 & Hv1).
  destruct (read_loop_prev (DB_Entries (world b2)) n
              (length (DB_Entries (world b2)))
              (log EvNewIterator b2) ltac:(lia))
    as (s2 & tr2 & E2 & Ht2 & Hv2).
  exists s1, s2, (EvNewIterator :: tr1), (EvNewIterator :: tr2).
  split.
  { unfold ReadSequential, NewIterator, Iter.SeekToFirst. unfold_m.
    simpl_st. cbn [Iter.items]. exact E1. }
  split; [rewrite Ht1; simpl_st; rewrite <- app_assoc; reflexivity |].
  split.
  { unfold ReadReverse, NewIterator, Iter.SeekToLast. unfold_m.
    simpl_st. cbn [Iter.items]. rewrite <- Hnum. exact E2. }
  split; [rewrite Ht2; simpl_st; rewrite <- app_assoc; reflexivity |].
  assert (Hk1 : visited_keys (EvNewIterator :: tr1) = firstn n keys)
    by (cbn [visited_keys flat_map app]; exact Hv1).
  assert (Hk2 : visited_keys (EvNewIterator :: tr2) = firstn n (rev keys)).
  { cbn [visited_keys flat_map app]. fold (visited_keys tr2). rewrite Hv2.
    rewrite <- Hes. fold keys.
    rewrite <- (length_map fst (DB_Entries (world b1))). fold keys.
    now rewrite firstn_all. }
  split; [exact Hk1 |]. split; [exact Hk2 |].
  intros Hlen. rewrite Hk1, Hk2.
  rewrite !firstn_all2 by (rewrite ?length_rev; exact Hlen).
  split; [reflexivity |]. intros k. apply in_rev.
Qed.

(** *** Fatal errors *)

Lemma clean_app tr1 tr2 : clean tr1 -> clean tr2 -> clean (tr1 ++ tr2).
Proof. unfold clean. intros H1 H2. apply Forall_app. now split. Qed.

Lemma output_clean tr :
  Forall (fun e => is_output e = true) tr -> clean tr.
Proof.
  unfold clean. intros Hout. eapply Forall_impl; [| exact Hout].
  intros e He. destruct e; try discriminate He; reflexivity.
Qed.

Lemma ff_ret {A} (a : A) : fails_fast (ret a : M St A).
Proof. intros b. exists []. cbn. rewrite app_nil_r. split; [reflexivity | constructor]. Qed.

Lemma ff_abort {A} f : fails_fast (abort f : M St A).
Proof. intros b. exists []. cbn. rewrite app_nil_r. split; [reflexivity | constructor]. Qed.

Lemma ff_gets {A} (f : St -> A) : fails_fast (gets f).
Proof. intros b. exists []. cbn. rewrite app_nil_r. split; [reflexivity | constructor]. Qed.

Lemma ff_modify (f : St -> St) :
  (forall b, trace (f b) = trace b) -> fails_fast (modify f).
Proof.
  intros Hf b. exists []. cbn. rewrite app_nil_r, Hf.
  split; [reflexivity | constructor].
Qed.

Lemma ff_emit e : failed e = false -> fails_fast (emit e : M St unit).
Proof.
  intros He b. exists [e]. cbn. split; [reflexivity |].
  constructor; [exact He | constructor].
Qed.

Lemma ff_call {A} (f : W -> A * W) : fails_fast (call f : M St A).
Proof.
  intros b. exists []. unfold call. destruct (f (world b)) as [a w].
  cbn. rewrite app_nil_r. split; [reflexivity | constructor].
Qed.

Lemma ff_call_ (f : W -> W) : fails_fast (call_ f : M St unit).
Proof. apply ff_modify. reflexivity. Qed.

Lemma ff_bind {A B} (m : M St A) (k : A -> M St B) :
  fails_fast m -> (forall a, fails_fast (k a)) -> fails_fast (bind m k).
Proof.
  intros Hm Hk b. destruct (Hm b) as (tr1 & Ht1 & Hf1). unfold bind.
  destruct (m b) as [a s | c s | f s]; simpl_st.
  - destruct (Hk a s) as (tr2 & Ht2 & Hf2).
    exists (tr1 ++ tr2). split; [rewrite Ht2, Ht1, app_assoc; reflexivity |].
    cbn in Hf1. destruct (k a s) as [a' s' | c' s' | f' s']; cbn in *.
    + now apply clean_app.
    + destruct Hf2 as (Hc & pre & e & -> & Hpre & He).
      split; [exact Hc |]. exists (tr1 ++ pre), e.
      split; [now rewrite app_assoc |]. split; [now apply clean_app | exact He].
    + now apply clean_app.
  - exists tr1. split; [exact Ht1 | exact Hf1].
  - exists tr1. split; [exact Ht1 | exact Hf1].
Qed.

Lemma ff_if {A} (c : bool) (m1 m2 : M St A) :
  fails_fast m1 -> fails_fast m2 -> fails_fast (if c then m1 else m2).
Proof. now destruct c. Qed.

Lemma ff_FinishedSingleOp : fails_fast (FinishedSingleOp fl).
Proof.
  intros b. destruct (FinishedSingleOp_spec b) as (s & tr & E & Ht & Ho & _).
  exists tr. rewrite E. split; [exact Ht | now apply output_clean].
Qed.

Lemma ff_Start : fails_fast (Start : M St unit).
Proof.
  intros b. destruct (Start_spec b) as (s & E & Ht & _).
  exists []. rewrite E. cbn. rewrite app_nil_r. split; [exact Ht | constructor].
Qed.

Lemma ff_Stop name : fails_fast (Stop fl name).
Proof.
  intros b. destruct (Stop_spec name b) as (s & E & Ht & _).
  eexists. rewrite E. split; [exact Ht |].
  destruct (FLAGS_histogram fl); repeat constructor.
Qed.

Lemma ff_Open : fails_fast (Open : M St unit).
Proof.
  intros b. unfold Open. unfold_m. destruct (db_ b); simpl_st.
  - exists []. rewrite app_nil_r. split; [reflexivity | constructor].
  - destruct (DB_Open (world b)) as [st w] eqn:Hopen. simpl_st.
    destruct (ok st) eqn:Hok; cbn [negb]; simpl_st.
    + exists [EvOpen st]. split; [reflexivity |].
      constructor; [cbn; now rewrite Hok | constructor].
    + eexists. rewrite <- app_assoc. split; [reflexivity |].
      split; [reflexivity |]. exists [], (EvOpen st).
      split; [reflexivity |]. split; [constructor | cbn; now rewrite Hok].
Qed.

Lemma ff_write_one sync order value_size i :
  fails_fast (write_one fl sync order value_size i).
Proof.
  intros b.
  destruct (write_one_cases sync order value_size i b)
    as [[(f & s & E) Ht] | [(k & val & st & _ & Hok & (s & E) & Ht)
                           | (k & val & st & out & s & _ & Hok & E & Ht & Hout & _)]];
    rewrite E in *; simpl_st.
  - exists []. rewrite app_nil_r. split; [exact Ht | constructor].
  - eexists. split; [exact Ht |]. split; [reflexivity |].
    exists [], (EvWrite sync [(format_key k, val)] st).
    split; [reflexivity |]. split; [constructor | cbn; now rewrite Hok].
  - eexists. split; [exact Ht |].
    constructor; [cbn; now rewrite Hok | now apply output_clean].
Qed.

Lemma ff_write_loop sync order value_size fuel : forall i,
  fails_fast (write_loop fl sync order value_size fuel i).
Proof.
  induction fuel as [| fuel IH]; intros i; cbn [write_loop].
  - apply ff_ret.
  - apply ff_bind; [apply ff_write_one | intros _; apply IH].
Qed.

Ltac ff_step :=
  first
    [ apply ff_ret | apply ff_abort | apply ff_gets | apply ff_call
    | apply ff_call_ | apply ff_Start | apply ff_Open
    | apply ff_FinishedSingleOp | apply ff_Stop | apply ff_write_loop
    | apply ff_emit; reflexivity
    | apply ff_modify; intros; reflexivity
    | apply ff_if | apply ff_bind | intro ].

Lemma ff_Write sync order state n value_size :
  fails_fast (Write fl sync order state n value_size).
Proof. unfold Write. destruct state; repeat ff_step. Qed.

Lemma ff_random_key : fails_fast (random_key fl).
Proof.
  unfold random_key. apply ff_bind; [apply ff_gets |]. intros r.
  destruct (Random_Next r) as [v r']. repeat ff_step.
Qed.

Lemma ff_read_loop step fuel : forall it, fails_fast (read_loop fl step fuel it).
Proof.
  induction fuel as [| fuel IH]; intros it; cbn [read_loop].
  - apply ff_ret.
  - destruct (Iter.current it) as [[k v] |]; [| apply ff_ret].
    repeat first [apply IH | ff_step].
Qed.

Lemma ff_read_random_loop fuel : fails_fast (read_random_loop fl fuel).
Proof.
  induction fuel as [| fuel IH]; cbn [read_random_loop].
  - apply ff_ret.
  - repeat first [apply IH | apply ff_random_key | ff_step].
Qed.

Lemma ff_probe_levels levels : forall m,
  fails_fast (probe_levels levels m : M St Z).
Proof.
  induction levels as [| l levels IH]; intros m; cbn [probe_levels].
  - apply ff_ret.
  - repeat first [apply IH | ff_step].
Qed.

Lemma ff_compact_levels levels :
  fails_fast (compact_levels levels : M St unit).
Proof.
  induction levels as [| l levels IH]; cbn [compact_levels].
  - apply ff_ret.
  - repeat first [apply IH | ff_step].
Qed.

Lemma ff_handler name h : handler fl name = Some h -> fails_fast h.
Proof.
  unfold handler. intros Hh.
  repeat match type of Hh with
         | (if ?c then _ else _) = _ => destruct c
         end;
    try discriminate Hh; injection Hh as <-.
  all: try (apply ff_bind; [apply ff_gets | intros n; apply ff_Write]).
  - unfold ReadSequential, NewIterator.
    repeat first [apply ff_read_loop | ff_step].
  - unfold ReadReverse, NewIterator.
    repeat first [apply ff_read_loop | ff_step].
  - unfold ReadRandom. repeat first [apply ff_read_random_loop | ff_step].
  - unfold Compact.
    repeat first [apply ff_probe_levels | apply ff_compact_levels | ff_step].
  - unfold HeapProfile. repeat ff_step.
Qed.

Lemma ff_run_benchmark name : fails_fast (run_benchmark fl name).
Proof.
  unfold run_benchmark. apply ff_bind; [apply ff_Start | intros _].
  apply ff_bind; [| intros _; apply ff_Stop].
  destruct (handler fl name) as [h |] eqn:Hh.
  - now apply (ff_handler name).
  - apply ff_emit. reflexivity.
Qed.

Lemma ff_run_benchmarks names : fails_fast (run_benchmarks fl names).
Proof.
  induction names as [| name rest IH]; cbn [run_benchmarks].
  - apply ff_ret.
  - apply ff_bind; [apply ff_run_benchmark | intros _; exact IH].
Qed.

(** In a trace of that shape a fatal call is the last call: only its
    report follows, and the process has exited with status 1. *)
Lemma fatal_is_last pre e post : forall pre' e' rep,
  pre ++ e :: post = pre' ++ e' :: rep ->
  failed e = true -> clean pre' -> clean rep ->
  pre = pre' /\ e = e' /\ post = rep.
Proof.
  induction pre as [| x pre IH]; intros [| y pre'] e' rep Heq He Hpre Hrep;
    cbn in Heq; injection Heq as Hx Hrest.
  - now subst.
  - subst y. apply Forall_inv in Hpre. congruence.
  - subst rep. unfold clean in Hrep. rewrite Forall_forall in Hrep.
    specialize (Hrep e ltac:(apply in_or_app; right; now left)). congruence.
  - subst y. apply Forall_inv_tail in Hpre.
    destruct (IH pre' e' rep Hrest He Hpre Hrep) as (-> & -> & ->).
    now repeat split.
Qed.

Lemma fail_fast_fatal {A} (o : Outcome St A) tr pre e post :
  fail_fast o tr -> tr = pre ++ e :: post -> failed e = true ->
  post = error_report e /\ exists s, o = Exited 1 s.
Proof.
  intros Hff -> He. destruct o as [a s | c s | f s]; cbn in Hff.
  - unfold clean in Hff. rewrite Forall_forall in Hff.
    specialize (Hff e ltac:(apply in_or_app; right; now left)). congruence.
  - destruct Hff as (-> & pre' & e' & Heq & Hpre & He').
    assert (Hrep : clean (error_report e'))
      by (destruct e'; try discriminate He'; repeat constructor).
    destruct (fatal_is_last pre e post pre' e' _ Heq He Hpre Hrep)
      as (_ & <- & ->).
    split; [reflexivity | now exists s].
  - unfold clean in Hff. rewrite Forall_forall in Hff.
    specialize (Hff e ltac:(apply in_or_app; right; now left)). congruence.
Qed.

(** C7: whatever the world answers, when [Run] has made an open or a write
    that did not return ok, that call is the last call of the run: it is
    followed by the error report on the diagnostic stream and by nothing
    else, neither a retry nor a later phase, and the process has exited
    with status 1.  A run that does not exit has seen no such call, and a
    run exits only in this way. *)
Theorem Run_fails_fast (b : St) :
  exists tr,
    trace (final_state (Run fl b)) = trace b ++ tr
    /\ fail_fast (Run fl b) tr
    /\ (forall pre e post,
        tr = pre ++ e :: post -> failed e = true ->
        post = error_report e /\ exists s, Run fl b = Exited 1 s)
    /\ (forall st, error_report (EvOpen st)
                  = [EvStderr ("open error: " ++ ToString st ++ LF)%string])
    /\ (forall sync batch st,
        error_report (EvWrite sync batch st)
        = [EvStderr ("put error: " ++ ToString st ++ LF)%string]).
Proof.
  assert (Hrun : fails_fast (Run fl)).
  { unfold Run, PrintHeader.
    apply ff_bind; [apply ff_emit; reflexivity | intros _].
    apply ff_bind; [apply ff_Open | intros _].
    apply ff_run_benchmarks. }
  destruct (Hrun b) as (tr & Ht & Hff).
  exists tr. split; [exact Ht |]. split; [exact Hff |].
  split; [| split; reflexivity].
  intros pre e post Heq He. now apply (fail_fast_fatal _ tr pre e post).
Qed.

(** *** Unknown benchmark names *)

Lemma handler_unknown name :
  ~ In name known_benchmarks -> handler fl name = None.
Proof.
  intros Hnot. unfold handler.
  repeat match goal with
         | |- (if String.eqb name ?x then _ else _) = None =>
             destruct (String.eqb_spec name x) as [-> | _];
             [exfalso; apply Hnot; cbn; tauto |]
         end.
  reflexivity.
Qed.

(** C8: for a name that is none of the known benchmarks, the turn of the
    loop of [Run] prints the warning on the diagnostic stream and the
    summary line of the phase, makes no call into the storage engine (the
    world is only asked for the time, by [Start] and by [Stop]), returns,
    and the loop goes on with the names that follow. *)
Theorem unknown_benchmark_skipped (name : string) (rest : list string)
  (b : St) :
  ~ In name known_benchmarks ->
  exists s micros_per_op,
    run_benchmark fl name b = Done tt s
    /\ trace s
       = trace b
         ++ [EvStderr ("unknown benchmark '" ++ name ++ "'" ++ LF)%string;
             EvStdoutSummary name micros_per_op "" ""]
         ++ (if FLAGS_histogram fl then [EvStdoutHistogram []] else [])
    /\ Forall (fun e => is_engine_call e = false)
         (skipn (length (trace b)) (trace s))
    /\ world s = snd (Env_NowMicros (snd (Env_NowMicros (world b))))
    /\ db_ s = db_ b
    /\ run_benchmarks fl (name :: rest) b = run_benchmarks fl rest s.
Proof.
  intros Hnot.
  assert (Hrun : exists s micros_per_op,
            run_benchmark fl name b = Done tt s
            /\ trace s
               = trace b
                 ++ [EvStderr ("unknown benchmark '" ++ name ++ "'" ++ LF)%string;
                     EvStdoutSummary name micros_per_op "" ""]
                 ++ (if FLAGS_histogram fl then [EvStdoutHistogram []]
                     else [])
            /\ world s = snd (Env_NowMicros (snd (Env_NowMicros (world b))))
            /\ db_ s = db_ b).
  { unfold run_benchmark. rewrite (handler_unknown name Hnot).
    unfold Start, Stop. unfold_m.
    destruct (Env_NowMicros (world b)) as [t1 w1] eqn:H1. simpl_st.
    destruct (Env_NowMicros w1) as [t2 w2] eqn:H2. simpl_st.
    cbn [Z.ltb Z.compare is_empty]. simpl_st. cbn [snd].
    rewrite ?H2. cbn [snd].
    destruct (FLAGS_histogram fl); simpl_st;
      eexists _, _; (split; [reflexivity |]); simpl_st;
      rewrite <- ?app_assoc; cbn [app]; repeat split; reflexivity. }
  destruct Hrun as (s & micros & E & Ht & Hw & Hdb).
  exists s, micros. split; [exact E |]. split; [exact Ht |].
  split.
  { rewrite Ht, skipn_app, Nat.sub_diag, skipn_all. cbn [app skipn].
    destruct (FLAGS_histogram fl); repeat constructor. }
  split; [exact Hw |]. split; [exact Hdb |].
  cbn [run_benchmarks]. unfold bind. rewrite E. reflexivity.
Qed.

End BenchmarkFacts.

(** ** The statements at work on the simulated world *)


Lemma write_phase_key_integers_witness :
  let fl := Sim.flags "fillsync" 300 5 in
  let b := Sim.bench fl Sim.healthy in
  (exists s, run_benchmark fl "fillsync" b = Done tt s)
  /\ map (drawn_key fl) (draws (W := Sim.t) (rand_ b) 3) = [7; 16; 204]
  /\ exists tr ks,
       trace (final_state (run_benchmark fl "fillsync" b)) = trace b ++ tr
       /\ map (map fst) (written_batches tr)
          = map (fun k => [format_key k]) ks
       /\ (length ks <= Z.to_nat (entries_of fl "fillsync"))%nat
       /\ (forall s, run_benchmark fl "fillsync" b = Done tt s ->
           length ks = Z.to_nat (entries_of fl "fillsync"))
       /\ ("fillsync"%string = "fillseq"%string ->
           ks = map Z.of_nat (seq 0 (length ks)))
       /\ ("fillsync"%string <> "fillseq"%string ->
           ks = map (drawn_key fl) (draws (W := Sim.t) (rand_ b) (length ks))
           /\ Forall (fun k => 0 <= k < FLAGS_num fl) ks
           /\ (0 < FLAGS_num fl ->
               forall v, drawn_key fl v = CInt.to_uint v mod FLAGS_num fl)
           /\ (forall s, run_benchmark fl "fillsync" b = Done tt s ->
               rand_ s = advanced (W := Sim.t) (rand_ b) (length ks))).
Proof.
  intros fl b.
  split; [eexists; vm_compute; reflexivity |].
  split; [vm_compute; reflexivity |].
  apply (write_phase_key_integers fl "fillsync" b).
  - reflexivity.
  - vm_compute. split; discriminate.
  - cbn. tauto.
Defined.

Lemma write_phase_bytes_witness :
  let fl := Sim.flags "overwrite" 3 5 in
  let b := Sim.bench fl Sim.healthy in
  let phase :=
    (Start ;; Write fl false RANDOM EXISTING 3 5 ;; Stop fl "overwrite")%bench in
  phase (set_db_ true b) = Done tt (final_state (phase (set_db_ true b)))
  /\ bytes_ (final_state (phase (set_db_ true b))) = 3 * (5 + 16)
  /\ (forall k, - 2 ^ 31 <= k < 2 ^ 31 ->
      String.length (format_key k) = 16%nat).
Proof.
  intros fl b phase.
  assert (Hrun : phase (set_db_ true b)
                 = Done tt (final_state (phase (set_db_ true b))))
    by (vm_compute; reflexivity).
  split; [exact Hrun |].
  apply (write_phase_bytes fl false RANDOM EXISTING 3 5 "overwrite"
           (set_db_ true b)).
  - vm_compute. split; discriminate.
  - vm_compute. split; discriminate.
  - exact Hrun.
Defined.

Lemma read_phases_visit_witness :
  let fl := Sim.flags "readseq,readreverse" 3 5 in
  let b := Sim.populated fl Sim.three_keys in
  exists s1 s2 tr1 tr2,
    ReadSequential fl b = Done tt s1 /\ trace s1 = trace b ++ tr1
    /\ ReadReverse fl b = Done tt s2 /\ trace s2 = trace b ++ tr2
    /\ visited_keys tr1 = [format_key 0; format_key 1; format_key 2]
    /\ visited_keys tr2 = [format_key 2; format_key 1; format_key 0].
Proof.
  intros fl b.
  destruct (read_phases_visit fl b b eq_refl eq_refl)
    as (s1 & s2 & tr1 & tr2 & E1 & Ht1 & E2 & Ht2 & Hv1 & Hv2 & _).
  exists s1, s2, tr1, tr2.
  repeat split; try assumption.
Defined.

(** C5, the claim as written fails: with three entries stored and an entry
    count of two, read-sequential visits the keys of 0 and 1 and
    read-reverse those of 2 and 1: neither the same set nor reversed
    sequences. *)
Lemma read_reverse_counterexample :
  let fl := Sim.flags "readseq,readreverse" 2 5 in
  let b := Sim.populated fl Sim.three_keys in
  let forward := visited_keys (trace (final_state (ReadSequential fl b))) in
  let backward := visited_keys (trace (final_state (ReadReverse fl b))) in
  forward = [format_key 0; format_key 1]
  /\ backward = [format_key 2; format_key 1]
  /\ backward <> rev forward
  /\ ~ (forall k, In k forward <-> In k backward).
Proof.
  intros fl b forward backward.
  assert (Hf : forward = [format_key 0; format_key 1])
    by (vm_compute; reflexivity).
  assert (Hb : backward = [format_key 2; format_key 1])
    by (vm_compute; reflexivity).
  split; [exact Hf |]. split; [exact Hb |].
  rewrite Hf, Hb. split.
  - vm_compute. discriminate.
  - intros Hiff. destruct (Hiff (format_key 0)) as [Hin _].
    specialize (Hin (or_introl eq_refl)).
    vm_compute in Hin. destruct Hin as [Hin | [Hin | []]]; discriminate Hin.
Qed.

Lemma unknown_benchmark_skipped_witness :
  let fl := Sim.flags "bogus,fillseq" 3 5 in
  let b := Sim.bench fl Sim.healthy in
  ~ In "bogus"%string known_benchmarks
  /\ exists s,
       run_benchmark fl "bogus" b = Done tt s
       /\ run_benchmarks fl ["bogus"; "fillseq"]%string b
          = run_benchmarks fl ["fillseq"%string] s.
Proof.
  intros fl b.
  assert (Hnot : ~ In "bogus"%string known_benchmarks).
  { cbn. intros H.
    repeat (destruct H as [H | H]; [discriminate H |]). exact H. }
  split; [exact Hnot |].
  destruct (unknown_benchmark_skipped fl "bogus" ["fillseq"%string] b Hnot)
    as (s & micros & E & _ & _ & _ & _ & Hrest).
  exists s. split; [exact E | exact Hrest].
Defined.

Lemma Stop_summary_witness :
  let fl := Sim.flags "compact" 3 5 in
  let b := Sim.bench fl Sim.healthy in
  exists s micros_per_op,
    Stop fl "compact" b = Done tt s
    /\ trace s = trace b ++ [EvStdoutSummary "compact" (Finite micros_per_op) "" ""]
    /\ done_ s = 1.
Proof.
  intros fl b.
  destruct (Stop_summary fl "compact" b) as (s & E & Ht & _ & Hd & _).
  exists s. eexists. split; [exact E |]. split; [exact Ht | exact Hd].
Defined.


Lemma Run_fails_fast_witness :
  let fl := Sim.flags "fillseq,readseq" 3 5 in
  let b := Sim.bench fl (Sim.failing_after 1) in
  exists s, Run fl b = Exited 1 s.
Proof.
  intros fl b.
  destruct (Run_fails_fast fl b) as (tr & Ht & _ & Hfatal & _).
  vm_compute in Ht. injection Ht as Ht.
  refine (proj2 (Hfatal
            [EvStdoutHeader; EvOpen StatusOK; EvClose; EvDestroy;
             EvOpen StatusOK;
             EvWrite false [(format_key 0, repeat "x"%char 5)] StatusOK]
            (EvWrite false [(format_key 1, repeat "x"%char 5)]
               (StatusError "IO error: disk full"))
            [EvStderr ("put error: IO error: disk full" ++ LF)%string]
            _ eq_refl)).
  rewrite <- Ht. vm_compute. reflexivity.
Defined.

(** * Further properties of the file *)

(** ** The list of benchmarks *)

Lemma split_commas_nonempty s : split_commas s <> [].
Proof.
  destruct s as [| c s]; cbn; [discriminate |].
  destruct (Ascii.eqb c ","%char); [discriminate |].
  destruct (split_commas s); discriminate.
Qed.

Lemma split_commas_join s :
  String.concat "," (split_commas s) = s.
Proof.
  induction s as [| c s IH]; [reflexivity |].
  cbn [split_commas].
  destruct (split_commas s) as [| n rest] eqn:E;
    [now elim (split_commas_nonempty s) |].
  destruct (Ascii.eqb_spec c ","%char) as [-> | Hne].
  - change (String.concat "," (""%string :: n :: rest))
      with ("" ++ "," ++ String.concat "," (n :: rest))%string.
    rewrite IH. reflexivity.
  - destruct rest as [| n' rest].
    + cbn in *. now rewrite IH.
    + change (String.concat "," (String c n :: n' :: rest))
        with (String c (n ++ "," ++ String.concat "," (n' :: rest)))%string.
      change (String.concat "," (n :: n' :: rest))
        with (n ++ "," ++ String.concat "," (n' :: rest))%string in IH.
      now rewrite IH.
Qed.

(** X1: the comma separated list is cut at every comma and nowhere else:
    joining the names with commas gives the list back, no name holds a
    comma, and there is one name more than there are commas (so an empty
    list still yields one, empty, name). *)
Theorem benchmark_names_roundtrip (s : string) :
  String.concat "," (split_commas s) = s
  /\ Forall (fun name => count_commas name = O) (split_commas s)
  /\ length (split_commas s) = S (count_commas s).
Proof.
  split; [apply split_commas_join |].
  induction s as [| c s [IH1 IH2]].
  - split; [repeat constructor | reflexivity].
  - cbn [split_commas count_commas].
    destruct (split_commas s) as [| n rest] eqn:E;
      [now elim (split_commas_nonempty s) |].
    destruct (Ascii.eqb c ","%char) eqn:Hc.
    + split; [constructor; [reflexivity | exact IH1] |].
      cbn [length] in *. now rewrite IH2.
    + split; [| exact IH2].
      inversion IH1 as [| ? ? Hn Hrest]; subst.
      constructor; [| exact Hrest]. cbn [count_commas]. now rewrite Hc.
Qed.

(** ** The order of keys *)

Lemma string_of_chars_cons c l :
  Printf.string_of_chars (c :: l) = String c (Printf.string_of_chars l).
Proof. reflexivity. Qed.

Lemma decimal_value_acc_shift l : forall acc,
  Printf.decimal_value_acc acc (Printf.string_of_chars l)
  = acc * 10 ^ Z.of_nat (length l)
    + Printf.decimal_value_acc 0 (Printf.string_of_chars l).
Proof.
  induction l as [| c l IH]; intros acc.
  - cbn. lia.
  - rewrite string_of_chars_cons. cbn [Printf.decimal_value_acc length].
    rewrite (IH (10 * acc + Printf.digit_value c)),
      (IH (10 * 0 + Printf.digit_value c)).
    replace (Z.of_nat (S (length l))) with (Z.succ (Z.of_nat (length l)))
      by lia.
    rewrite Z.pow_succ_r by lia. ring.
Qed.

(** A character that is a decimal digit. *)
Lemma Forall_digits_decimal_fuel fuel : forall n,
  0 <= n ->
  Forall (fun c => exists d, 0 <= d < 10 /\ c = Printf.digit_char d)
    (Printf.decimal_fuel fuel n).
Proof.
  induction fuel as [| fuel IH]; intros n Hn; [constructor |].
  cbn [Printf.decimal_fuel].
  destruct (Z.ltb_spec n 10).
  - repeat constructor. exists n. split; [lia | reflexivity].
  - apply Forall_app. split.
    + apply IH. apply Z.div_pos; lia.
    + repeat constructor. exists (n mod 10).
      split; [apply Z.mod_pos_bound; lia | reflexivity].
Qed.

Lemma digits_value_bound l :
  Forall (fun c => exists d, 0 <= d < 10 /\ c = Printf.digit_char d) l ->
  0 <= Printf.decimal_value_acc 0 (Printf.string_of_chars l)
    < 10 ^ Z.of_nat (length l).
Proof.
  induction 1 as [| c l (d & Hd & ->) _ IH].
  - cbn. lia.
  - rewrite string_of_chars_cons. cbn [Printf.decimal_value_acc length].
    rewrite decimal_value_acc_shift, digit_value_char by exact Hd.
    replace (Z.of_nat (S (length l))) with (Z.succ (Z.of_nat (length l)))
      by lia.
    rewrite Z.pow_succ_r by lia. nia.
Qed.

Lemma compare_digit_chars a b :
  0 <= a < 10 -> 0 <= b < 10 ->
  Ascii.compare (Printf.digit_char a) (Printf.digit_char b) = Z.compare a b.
Proof.
  intros Ha Hb.
  assert (Ca : a = 0 \/ a = 1 \/ a = 2 \/ a = 3 \/ a = 4 \/ a = 5
               \/ a = 6 \/ a = 7 \/ a = 8 \/ a = 9) by lia.
  assert (Cb : b = 0 \/ b = 1 \/ b = 2 \/ b = 3 \/ b = 4 \/ b = 5
               \/ b = 6 \/ b = 7 \/ b = 8 \/ b = 9) by lia.
  repeat (destruct Ca as [-> | Ca]);
    repeat (destruct Cb as [-> | Cb]); subst; reflexivity.
Qed.

(** Digit strings of the same width compare as the numbers they denote. *)
Lemma compare_digit_strings xs : forall ys,
  length xs = length ys ->
  Forall (fun c => exists d, 0 <= d < 10 /\ c = Printf.digit_char d) xs ->
  Forall (fun c => exists d, 0 <= d < 10 /\ c = Printf.digit_char d) ys ->
  String.compare (Printf.string_of_chars xs) (Printf.string_of_chars ys)
  = Z.compare (Printf.decimal_value_acc 0 (Printf.string_of_chars xs))
      (Printf.decimal_value_acc 0 (Printf.string_of_chars ys)).
Proof.
  induction xs as [| x xs IH]; intros [| y ys] Hlen Hx Hy;
    try discriminate Hlen; [reflexivity |].
  inversion Hx as [| ? ? (a & Ha & ->) Hxs]; subst.
  inversion Hy as [| ? ? (b & Hb & ->) Hys]; subst.
  injection Hlen as Hlen.
  rewrite !string_of_chars_cons.
  cbn [String.compare Printf.decimal_value_acc].
  rewrite compare_digit_chars by assumption.
  rewrite (decimal_value_acc_shift xs), (decimal_value_acc_shift ys).
  rewrite !digit_value_char by assumption. rewrite <- Hlen.
  pose proof (digits_value_bound xs Hxs) as Bx.
  pose proof (digits_value_bound ys Hys) as By. rewrite <- Hlen in By.
  specialize (IH ys Hlen Hxs Hys).
  set (vx := Printf.decimal_value_acc 0 (Printf.string_of_chars xs)) in *.
  set (vy := Printf.decimal_value_acc 0 (Printf.string_of_chars ys)) in *.
  set (p := 10 ^ Z.of_nat (length xs)) in *.
  destruct (Z.compare_spec a b) as [-> | Hlt | Hgt].
  - rewrite IH. destruct (Z.compare_spec vx vy);
      symmetry; [apply Z.compare_eq_iff | apply Z.compare_lt_iff
                | apply Z.compare_gt_iff]; lia.
  - symmetry. apply Z.compare_lt_iff. nia.
  - symmetry. apply Z.compare_gt_iff. nia.
Qed.

(** The sixteen characters of the key of a non-negative [int]. *)
Lemma format_key_digits k :
  0 <= k < 2 ^ 31 ->
  exists l,
    format_key k = Printf.string_of_chars l
    /\ length l = 16%nat
    /\ Forall (fun c => exists d, 0 <= d < 10 /\ c = Printf.digit_char d) l
    /\ Printf.decimal_value_acc 0 (Printf.string_of_chars l) = k.
Proof.
  intros Hk.
  destruct (format_key_int k ltac:(lia)) as [Hfmt Hlen].
  pose proof (decimal_value_fmt_0d 16 k Hk) as Hval.
  rewrite Hfmt in *. unfold Printf.fmt_0d in *.
  destruct (Z.ltb_spec k 0) as [Hneg | _]; [lia |].
  cbn [app length Nat.add] in *.
  eexists. split; [reflexivity |].
  split; [now rewrite <- length_string_of_chars |].
  split; [| exact Hval].
  apply Forall_app. split.
  - apply Forall_forall. intros c Hc. apply repeat_spec in Hc. subst c.
    exists 0. split; [lia | reflexivity].
  - apply Forall_digits_decimal_fuel. lia.
Qed.

(** X2: on non-negative [int]s the fixed width of ["%016d"] makes the
    byte-wise order of the keys the numeric order of the integers; in
    particular different integers have different keys. *)
Theorem key_order_is_numeric_order (a b : Z) :
  0 <= a < 2 ^ 31 -> 0 <= b < 2 ^ 31 ->
  String.compare (format_key a) (format_key b) = Z.compare a b
  /\ (format_key a = format_key b -> a = b).
Proof.
  intros Ha Hb.
  destruct (format_key_digits a Ha) as (la & Ea & Hla & Hda & Hva).
  destruct (format_key_digits b Hb) as (lb & Eb & Hlb & Hdb & Hvb).
  split.
  - rewrite Ea, Eb, compare_digit_strings by (assumption || congruence).
    now rewrite Hva, Hvb.
  - intros Heq. rewrite Ea, Eb in Heq. rewrite <- Hva, <- Hvb.
    now rewrite Heq.
Qed.

Lemma key_order_is_numeric_order_witness :
  String.compare (format_key 9) (format_key 10) = Lt
  /\ (format_key 7 = format_key 7 -> 7 = 7).
Proof.
  assert (H9 : 0 <= 9 < 2 ^ 31) by lia.
  assert (H10 : 0 <= 10 < 2 ^ 31) by lia.
  assert (H7 : 0 <= 7 < 2 ^ 31) by lia.
  split.
  - exact (proj1 (key_order_is_numeric_order 9 10 H9 H10)).
  - exact (proj2 (key_order_is_numeric_order 7 7 H7 H7)).
Defined.

(** ** [TrimSpace] *)

Section TrimFacts.

Variable s : list ascii.
Hypothesis Hsize : Z.of_nat (length s) <= CInt.INT_MAX.

(** The first loop stops at the first character that is no white space. *)
Lemma skip_front_spec fuel : forall k,
  (k <= length s)%nat -> (length s - k <= fuel)%nat ->
  exists j,
    Trim.skip_front s fuel (Z.of_nat k) = Z.of_nat j
    /\ (k <= j <= length s)%nat
    /\ (forall i, (k <= i < j)%nat -> isspace (nth i s zero) = true)
    /\ ((j < length s)%nat -> isspace (nth j s zero) = false).
Proof using Hsize.
  unfold CInt.INT_MAX in Hsize.
  induction fuel as [| fuel IH]; intros k Hk Hfuel.
  - exists k. cbn. repeat split; intros; lia.
  - cbn [Trim.skip_front]. rewrite to_size_t_id by lia. rewrite Nat2Z.id.
    destruct (Z.ltb_spec (Z.of_nat k) (Z.of_nat (length s))) as [Hlt | Hge];
      cbn [andb].
    + destruct (isspace (nth k s zero)) eqn:Hsp.
      * rewrite to_int_id by lia.
        replace (Z.of_nat k + 1) with (Z.of_nat (S k)) by lia.
        destruct (IH (S k) ltac:(lia) ltac:(lia)) as (j & E & Hj & Hall & Hstop).
        exists j. split; [exact E |]. split; [lia |]. split; [| exact Hstop].
        intros i Hi. destruct (Nat.eq_dec i k) as [-> | Hne];
          [exact Hsp | apply Hall; lia].
      * exists k. repeat split; intros; first [lia | exact Hsp].
    + exists k. repeat split; intros; lia.
Qed.

(** The second loop stops behind the last character that is no white
    space, and not before [start]. *)
Lemma skip_back_spec start fuel : forall l,
  (start <= l <= length s)%nat -> (l - start <= fuel)%nat ->
  exists j,
    Trim.skip_back s (Z.of_nat start) fuel (Z.of_nat l) = Z.of_nat j
    /\ (start <= j <= l)%nat
    /\ (forall i, (j <= i < l)%nat -> isspace (nth i s zero) = true)
    /\ ((start < j)%nat -> isspace (nth (j - 1) s zero) = false).
Proof using Hsize.
  unfold CInt.INT_MAX in Hsize.
  induction fuel as [| fuel IH]; intros l Hl Hfuel.
  - exists l. cbn. repeat split; intros; lia.
  - cbn [Trim.skip_back].
    destruct (Z.gtb_spec (Z.of_nat l) (Z.of_nat start)) as [Hgt | Hle];
      cbn [andb].
    + replace (Z.to_nat (Z.of_nat l - 1)) with (l - 1)%nat by lia.
      destruct (isspace (nth (l - 1) s zero)) eqn:Hsp.
      * rewrite to_int_id by lia.
        replace (Z.of_nat l - 1) with (Z.of_nat (l - 1)) by lia.
        destruct (IH (l - 1)%nat ltac:(lia) ltac:(lia))
          as (j & E & Hj & Hall & Hstop).
        exists j. split; [exact E |]. split; [lia |]. split; [| exact Hstop].
        intros i Hi. destruct (Nat.eq_dec i (l - 1)) as [-> | Hne];
          [exact Hsp | apply Hall; lia].
      * exists l. repeat split; intros; first [lia | exact Hsp].
    + exists l. repeat split; intros; lia.
Qed.

(** The two cuts of [TrimSpace]. *)
Lemma TrimSpace_cuts :
  exists j1 j2,
    TrimSpace s = mkSlice (Z.of_nat j1) (Z.of_nat (j2 - j1))
    /\ (j1 <= j2 <= length s)%nat
    /\ (forall i, (i < j1)%nat -> isspace (nth i s zero) = true)
    /\ (forall i, (j2 <= i < length s)%nat -> isspace (nth i s zero) = true)
    /\ ((j1 < j2)%nat ->
        isspace (nth j1 s zero) = false
        /\ isspace (nth (j2 - 1) s zero) = false).
Proof using Hsize.
  destruct (skip_front_spec (length s) 0 ltac:(lia) ltac:(lia))
    as (j1 & E1 & Hj1 & Hall1 & Hstop1).
  destruct (skip_back_spec j1 (length s) (length s) ltac:(lia) ltac:(lia))
    as (j2 & E2 & Hj2 & Hall2 & Hstop2).
  exists j1, j2. unfold TrimSpace. unfold CInt.INT_MAX in Hsize.
  change (Z.of_nat 0) with 0 in E1. rewrite E1.
  rewrite (to_int_id (Z.of_nat (length s))) by lia. rewrite E2.
  rewrite to_size_t_id by lia.
  split; [f_equal; lia |]. split; [lia |].
  split; [intros i Hi; apply Hall1; lia |].
  split; [exact Hall2 |].
  intros Hlt. split; [apply Hstop1; lia | now apply Hstop2].
Qed.

End TrimFacts.

Lemma Forall_nth_firstn {A} (P : A -> Prop) (l : list A) d j :
  (forall i, (i < j)%nat -> P (nth i l d)) -> (j <= length l)%nat ->
  Forall P (firstn j l).
Proof.
  revert j. induction l as [| a l IH]; intros [| j] Hall Hj;
    cbn in *; try constructor; try lia.
  - apply (Hall O). lia.
  - apply IH; [| lia]. intros i Hi. apply (Hall (S i)). lia.
Qed.

Lemma Forall_nth_skipn {A} (P : A -> Prop) (l : list A) d j :
  (forall i, (j <= i < length l)%nat -> P (nth i l d)) ->
  Forall P (skipn j l).
Proof.
  revert j. induction l as [| a l IH]; intros [| j] Hall; cbn in *;
    try constructor.
  - apply (Hall O). lia.
  - apply (IH O). intros i Hi. apply (Hall (S i)). lia.
  - apply IH. intros i Hi. apply (Hall (S i)). lia.
Qed.

(** The three parts [TrimSpace] splits its argument into. *)
Lemma TrimSpace_split (s : list ascii) :
  Z.of_nat (length s) <= CInt.INT_MAX ->
  exists pre mid post,
    s = pre ++ mid ++ post
    /\ Forall (fun c => isspace c = true) pre
    /\ Forall (fun c => isspace c = true) post
    /\ TrimSpace s = mkSlice (Z.of_nat (length pre)) (Z.of_nat (length mid))
    /\ slice_bytes s (TrimSpace s) = Some mid
    /\ (forall c rest, mid = c :: rest -> isspace c = false)
    /\ (forall c front, mid = front ++ [c] -> isspace c = false).
Proof.
  intros Hsize.
  destruct (TrimSpace_cuts s Hsize) as (j1 & j2 & E & Hj & H1 & H2 & H3).
  exists (firstn j1 s), (firstn (j2 - j1) (skipn j1 s)), (skipn j2 s).
  assert (Hlen1 : length (firstn j1 s) = j1) by (rewrite length_firstn; lia).
  assert (Hlen2 : length (firstn (j2 - j1) (skipn j1 s)) = (j2 - j1)%nat)
    by (rewrite length_firstn, length_skipn; lia).
  split.
  { rewrite <- (firstn_skipn j1 s) at 1. f_equal.
    rewrite <- (firstn_skipn (j2 - j1) (skipn j1 s)) at 1. f_equal.
    rewrite skipn_skipn. f_equal. lia. }
  split; [apply (Forall_nth_firstn _ s zero); [exact H1 | lia] |].
  split; [apply (Forall_nth_skipn _ s zero); exact H2 |].
  split; [rewrite Hlen1, Hlen2; exact E |].
  split.
  { rewrite E.
    destruct (slice_bytes_inside s (Z.of_nat j1) (Z.of_nat (j2 - j1)))
      as [Hb _]; try lia.
    rewrite Hb, !Nat2Z.id. reflexivity. }
  assert (Hnth : forall i, (i < j2 - j1)%nat ->
            nth i (firstn (j2 - j1) (skipn j1 s)) zero = nth (j1 + i) s zero).
  { intros i Hi. rewrite nth_firstn.
    destruct (Nat.ltb_spec i (j2 - j1)); [| lia]. apply nth_skipn. }
  split.
  - intros c rest Hmid.
    assert (Hpos : (0 < j2 - j1)%nat) by (rewrite <- Hlen2, Hmid; cbn; lia).
    pose proof (Hnth O Hpos) as Hc. rewrite Hmid, Nat.add_0_r in Hc.
    cbn [nth] in Hc. rewrite Hc. apply H3. lia.
  - intros c front Hmid.
    assert (Hlen : (j2 - j1 = length front + 1)%nat)
      by (rewrite <- Hlen2, Hmid, length_app; reflexivity).
    pose proof (Hnth (length front) ltac:(lia)) as Hc.
    rewrite Hmid, nth_middle in Hc. rewrite Hc.
    replace (j1 + length front)%nat with (j2 - 1)%nat by lia.
    apply H3. lia.
Qed.

(** X3: [TrimSpace] cuts the white space off both ends and nothing else:
    the bytes split into white space, the slice returned, and white space,
    and the slice returned neither starts nor ends with white space. *)
Theorem TrimSpace_trims (s : list ascii) :
  Z.of_nat (length s) <= CInt.INT_MAX ->
  exists pre mid post,
    s = pre ++ mid ++ post
    /\ Forall (fun c => isspace c = true) pre
    /\ Forall (fun c => isspace c = true) post
    /\ TrimSpace s = mkSlice (Z.of_nat (length pre)) (Z.of_nat (length mid))
    /\ slice_bytes s (TrimSpace s) = Some mid
    /\ (forall c rest, mid = c :: rest -> isspace c = false)
    /\ (forall c front, mid = front ++ [c] -> isspace c = false).
Proof. exact (TrimSpace_split s). Qed.

Lemma TrimSpace_trims_witness :
  let s := list_ascii_of_string "  model name  " in
  Z.of_nat (length s) <= CInt.INT_MAX
  /\ slice_bytes s (TrimSpace s) = Some (list_ascii_of_string "model name").
Proof.
  intros s.
  assert (Hsize : Z.of_nat (length s) <= CInt.INT_MAX)
    by (vm_compute; discriminate).
  split; [exact Hsize |].
  destruct (TrimSpace_trims s Hsize) as (pre & mid & post & _ & _ & _ & _ & Hb & _).
  rewrite Hb. vm_compute in Hb. symmetry. exact Hb.
Defined.

(** X4: trimming what [TrimSpace] returned changes nothing more, and a
    slice of white space only is trimmed to the empty slice. *)
Theorem TrimSpace_idempotent (s mid : list ascii) :
  Z.of_nat (length s) <= CInt.INT_MAX ->
  slice_bytes s (TrimSpace s) = Some mid ->
  TrimSpace mid = mkSlice 0 (Z.of_nat (length mid))
  /\ slice_bytes mid (TrimSpace mid) = Some mid
  /\ (Forall (fun c => isspace c = true) s -> mid = []).
Proof.
  intros Hsize Hmid.
  destruct (TrimSpace_split s Hsize)
    as (pre & mid' & post & Hs & Hpre & Hpost & _ & Hb & Hhead & Hlast).
  rewrite Hb in Hmid. injection Hmid as <-.
  assert (Hlen : Z.of_nat (length mid') <= CInt.INT_MAX).
  { rewrite Hs, !length_app in Hsize. lia. }
  assert (Hfix : TrimSpace mid' = mkSlice 0 (Z.of_nat (length mid'))).
  { destruct (TrimSpace_cuts mid' Hlen) as (j1 & j2 & E & Hj & H1 & H2 & _).
    assert (Hj1 : j1 = O).
    { destruct j1 as [| j1]; [reflexivity | exfalso].
      destruct mid' as [| c rest]; [cbn in Hj; lia |].
      specialize (H1 O ltac:(lia)). cbn in H1.
      rewrite (Hhead c rest eq_refl) in H1. discriminate. }
    assert (Hj2 : j2 = length mid').
    { destruct (Nat.eq_dec j2 (length mid')) as [-> | Hne]; [reflexivity |].
      exfalso.
      assert (Hne' : mid' <> []) by (intros ->; cbn in *; lia).
      pose proof (app_removelast_last zero Hne') as Hsplit.
      specialize (H2 (length mid' - 1)%nat ltac:(lia)).
      rewrite Hsplit in H2 at 2.
      assert (Hrl : length (removelast mid') = (length mid' - 1)%nat).
      { rewrite Hsplit at 2. rewrite length_app. cbn. lia. }
      rewrite <- Hrl, nth_middle in H2.
      rewrite (Hlast (last mid' zero) (removelast mid') Hsplit) in H2.
      discriminate. }
    rewrite E, Hj1, Hj2. f_equal. lia. }
  split; [exact Hfix |]. split.
  - rewrite Hfix.
    destruct (slice_bytes_inside mid' 0 (Z.of_nat (length mid')))
      as [Hbytes _]; try lia.
    rewrite Hbytes, Nat2Z.id. cbn [Z.to_nat skipn]. now rewrite firstn_all.
  - intros Hall. destruct mid' as [| c rest]; [reflexivity | exfalso].
    rewrite Hs in Hall. apply Forall_app in Hall. destruct Hall as [_ Hall].
    apply Forall_app in Hall. destruct Hall as [Hall _].
    apply Forall_inv in Hall. rewrite (Hhead c rest eq_refl) in Hall.
    discriminate.
Qed.

Lemma TrimSpace_idempotent_witness :
  let s := list_ascii_of_string " cache size " in
  let mid := list_ascii_of_string "cache size" in
  Z.of_nat (length s) <= CInt.INT_MAX
  /\ slice_bytes s (TrimSpace s) = Some mid
  /\ slice_bytes mid (TrimSpace mid) = Some mid.
Proof.
  intros s mid.
  assert (Hsize : Z.of_nat (length s) <= CInt.INT_MAX)
    by (vm_compute; discriminate).
  assert (Hmid : slice_bytes s (TrimSpace s) = Some mid)
    by (vm_compute; reflexivity).
  split; [exact Hsize |]. split; [exact Hmid |].
  exact (proj1 (proj2 (TrimSpace_idempotent s mid Hsize Hmid))).
Defined.

(** ** Sequences of generated values *)

(** X5: over a sequence of successful calls of [Generate], every value
    starts where the one before ended exactly when the lengths asked for
    fit between the cursor and the end of the buffer; when they sum to more
    than that, the cursor has wrapped to the start at least once. *)
Theorem Generate_sequence_wraps (lens : list Z) :
  forall g g' ss,
    Z.of_nat (length (RandomGenerator.data_ g)) <= CInt.INT_MAX ->
    0 <= RandomGenerator.pos_ g
      <= Z.of_nat (length (RandomGenerator.data_ g)) ->
    Forall (fun len => 0 <= len <= CInt.INT_MAX) lens ->
    generate_all g lens = Some (g', ss) ->
    (chained (RandomGenerator.pos_ g) ss
     <-> RandomGenerator.pos_ g + fold_right Z.add 0 lens
         <= Z.of_nat (length (RandomGenerator.data_ g))).
Proof.
  induction lens as [| len lens IH]; intros g g' ss Hsize Hpos Hlens Hall.
  - cbn in Hall. injection Hall as <- <-. cbn. split; [lia | trivial].
  - cbn [generate_all] in Hall.
    destruct (RandomGenerator.Generate g len) as [g1 s1 | g1] eqn:Hgen;
      [| discriminate].
    destruct (generate_all g1 lens) as [[g2 ss2] |] eqn:Hrest;
      [| discriminate].
    injection Hall as <- <-.
    inversion Hlens as [| ? ? Hlen Hlens']; subst.
    destruct (Generate_success g len g1 s1 Hsize Hpos Hlen Hgen)
      as (-> & -> & H0 & H1 & Hsucc).
    cbn [RandomGenerator.data_ RandomGenerator.pos_] in *.
    assert (Hsum : 0 <= fold_right Z.add 0 lens).
    { clear - Hlens'. induction Hlens' as [| x l Hx _ IHl]; cbn; lia. }
    cbn [chained fold_right slice_off slice_size].
    destruct (Z.gtb_spec (RandomGenerator.pos_ g + len)
                (Z.of_nat (length (RandomGenerator.data_ g))))
      as [Hover | Hfit].
    + split; [intros [Hoff _]; lia | intros Hle; lia].
    + match type of Hrest with
      | generate_all ?g1 _ = _ =>
          assert (Hpos1 : 0 <= RandomGenerator.pos_ g1
                          <= Z.of_nat (length (RandomGenerator.data_ g1)))
            by (cbn; lia);
          specialize (IH g1 g2 ss2 Hsize Hpos1 Hlens' Hrest)
      end.
      cbn [RandomGenerator.data_ RandomGenerator.pos_] in IH.
      rewrite <- Z.add_assoc in IH. split.
      * intros [_ Hch]. apply IH in Hch. lia.
      * intros Hle. split; [reflexivity |]. apply IH. lia.
Qed.

Lemma Generate_sequence_wraps_witness :
  let g := RandomGenerator.new (repeat "x"%char 8) in
  (exists g' ss, generate_all g [3; 3; 3] = Some (g', ss)
                 /\ ~ chained (RandomGenerator.pos_ g) ss)
  /\ (exists g' ss, generate_all g [3; 3] = Some (g', ss)
                    /\ chained (RandomGenerator.pos_ g) ss).
Proof.
  intros g.
  assert (Hsize : Z.of_nat (length (RandomGenerator.data_ g)) <= CInt.INT_MAX)
    by (vm_compute; discriminate).
  assert (Hpos : 0 <= RandomGenerator.pos_ g
                 <= Z.of_nat (length (RandomGenerator.data_ g)))
    by (vm_compute; split; discriminate).
  split.
  - eexists _, _. split; [vm_compute; reflexivity |].
    intros Hch.
    eapply (Generate_sequence_wraps [3; 3; 3] g) in Hch;
      [| exact Hsize | exact Hpos | | vm_compute; reflexivity].
    + vm_compute in Hch. now apply Hch.
    + repeat constructor; vm_compute; discriminate.
  - eexists _, _. split; [vm_compute; reflexivity |].
    eapply (Generate_sequence_wraps [3; 3] g);
      [exact Hsize | exact Hpos | | vm_compute; reflexivity | ].
    + repeat constructor; vm_compute; discriminate.
    + vm_compute. discriminate.
Defined.

(** ** Heap profiles *)

Lemma length_fmt_0d_bound width k :
  - 2 ^ 31 <= k < 2 ^ 31 ->
  (String.length (Printf.fmt_0d width k) <= Nat.max width 11)%nat.
Proof.
  intros Hk. unfold Printf.fmt_0d.
  rewrite length_string_of_chars, !length_app, repeat_length.
  assert (Hd := length_decimal_int (Z.abs k) ltac:(lia)).
  destruct (k <? 0); cbn [length]; lia.
Qed.

Lemma length_append s1 s2 :
  String.length (s1 ++ s2)%string
  = (String.length s1 + String.length s2)%nat.
Proof. induction s1 as [| c s1 IH]; cbn; [reflexivity | now rewrite IH]. Qed.

Lemma heap_file_name_fits c :
  - 2 ^ 31 <= c < 2 ^ 31 ->
  heap_file_name c = ("/tmp/dbbench/heap-" ++ Printf.fmt_0d 4 c)%string.
Proof.
  intros Hc. unfold heap_file_name. apply snprintf_fits.
  rewrite length_append. pose proof (length_fmt_0d_bound 4 c Hc).
  cbn [String.length]. lia.
Qed.

(** X6: the name of the file of a heap profile determines the number of
    the profile: profiles with different numbers go to different files. *)
Theorem heap_file_names_distinct (c1 c2 : Z) :
  0 <= c1 < 2 ^ 31 -> 0 <= c2 < 2 ^ 31 ->
  heap_file_name c1 = heap_file_name c2 -> c1 = c2.
Proof.
  intros H1 H2 Heq.
  rewrite !heap_file_name_fits in Heq by lia.
  cbn [String.append] in Heq.
  repeat match type of Heq with
         | String _ _ = String _ _ => injection Heq as Heq
         end.
  rewrite <- (decimal_value_fmt_0d 4 c1 H1), <- (decimal_value_fmt_0d 4 c2 H2).
  now rewrite Heq.
Qed.

Lemma heap_file_names_distinct_witness :
  heap_file_name 1 = "/tmp/dbbench/heap-0001"%string
  /\ (heap_file_name 1 = heap_file_name 1 -> 1 = 1).
Proof.
  split; [vm_compute; reflexivity |].
  apply heap_file_names_distinct; lia.
Defined.

(** ** What the phases emit *)

Section EmitFacts.

Context {W R : Type} `{HW : World W R}.
Variable fl : Flags.
Variable P : Event -> bool.

Local Abbreviation St := (Bench W R).

Lemma em_nil {A} (m : M St A) :
  (forall b, trace (final_state (m b)) = trace b) -> emits P m.
Proof.
  intros Hm b. exists []. rewrite app_nil_r. split; [apply Hm | constructor].
Qed.

Lemma em_ret {A} (a : A) : emits P (ret a : M St A).
Proof. now apply em_nil. Qed.

Lemma em_abort {A} f : emits P (abort f : M St A).
Proof. now apply em_nil. Qed.

Lemma em_exit {A} c : emits P (exit c : M St A).
Proof. now apply em_nil. Qed.

Lemma em_gets {A} (f : St -> A) : emits P (gets f).
Proof. now apply em_nil. Qed.

Lemma em_modify (f : St -> St) :
  (forall b, trace (f b) = trace b) -> emits P (modify f).
Proof. intros Hf. apply em_nil. exact Hf. Qed.

Lemma em_call {A} (f : W -> A * W) : emits P (call f : M St A).
Proof.
  apply em_nil. intros b. unfold call. now destruct (f (world b)).
Qed.

Lemma em_call_ (f : W -> W) : emits P (call_ f : M St unit).
Proof. now apply em_nil. Qed.

Lemma em_emit e : P e = true -> emits P (emit e : M St unit).
Proof.
  intros He b. exists [e]. split; [reflexivity | now repeat constructor].
Qed.

Lemma em_bind {A B} (m : M St A) (k : A -> M St B) :
  emits P m -> (forall a, emits P (k a)) -> emits P (bind m k).
Proof.
  intros Hm Hk b. destruct (Hm b) as (tr1 & Ht1 & Hp1). unfold bind.
  destruct (m b) as [a s | c s | f s]; simpl_st.
  - destruct (Hk a s) as (tr2 & Ht2 & Hp2). exists (tr1 ++ tr2).
    split; [rewrite Ht2, Ht1, app_assoc; reflexivity |].
    apply Forall_app. now split.
  - now exists tr1.
  - now exists tr1.
Qed.

Lemma em_if {A} (c : bool) (m1 m2 : M St A) :
  emits P m1 -> emits P m2 -> emits P (if c then m1 else m2).
Proof. now destruct c. Qed.

(** The plumbing, one step at a time. *)
Ltac em_step :=
  first
    [ apply em_ret | apply em_abort | apply em_exit | apply em_gets
    | apply em_call | apply em_call_
    | apply em_modify; intros; reflexivity
    | apply em_if | apply em_bind | intro ].

Hypothesis Hstderr : forall e, is_stderr e = true -> P e = true.

Lemma em_stderr text : emits P (emit (EvStderr text) : M St unit).
Proof using Hstderr. apply em_emit. now apply Hstderr. Qed.

Lemma em_FinishedSingleOp : emits P (FinishedSingleOp fl).
Proof using Hstderr.
  unfold FinishedSingleOp, now_seconds.
  repeat first [apply em_stderr | apply em_emit; now apply Hstderr | em_step].
Qed.

Lemma em_Start : emits P (Start : M St unit).
Proof. unfold Start, now_seconds. repeat em_step. Qed.

Lemma em_random_key : emits P (random_key fl).
Proof.
  unfold random_key. apply em_bind; [apply em_gets |]. intros r.
  destruct (Random_Next r) as [v r']. repeat em_step.
Qed.

Lemma em_generate_value len : emits P (generate_value len : M St _).
Proof.
  unfold generate_value. apply em_bind; [apply em_gets |]. intros g.
  destruct (RandomGenerator.Generate g len) as [g' s | g'];
    [destruct (slice_bytes _ s) |]; repeat em_step.
Qed.

Lemma em_Open :
  (forall st, P (EvOpen st) = true) -> emits P (Open : M St unit).
Proof using Hstderr.
  intros Hopen. unfold Open.
  repeat first [apply em_stderr | apply em_emit; apply Hopen | em_step].
Qed.

Lemma em_write_loop sync order value_size fuel :
  (forall batch st, P (EvWrite sync batch st) = true) ->
  forall i, emits P (write_loop fl sync order value_size fuel i).
Proof using Hstderr.
  intros Hwrite.
  induction fuel as [| fuel IH]; intros i; cbn [write_loop].
  - apply em_ret.
  - apply em_bind; [| intros _; apply IH].
    unfold write_one. destruct order;
      repeat first [apply em_random_key | apply em_generate_value
                   | apply em_FinishedSingleOp | apply em_stderr
                   | apply em_emit; apply Hwrite | em_step].
Qed.

Lemma em_read_loop step fuel :
  (forall k v, P (EvIterEntry k v) = true) ->
  forall it, emits P (read_loop fl step fuel it).
Proof using Hstderr.
  intros Hread.
  induction fuel as [| fuel IH]; intros it; cbn [read_loop].
  - apply em_ret.
  - destruct (Iter.current it) as [[k v] |]; [| apply em_ret].
    repeat first [apply IH | apply em_FinishedSingleOp
                 | apply em_emit; apply Hread | em_step].
Qed.

Lemma em_read_random_loop fuel :
  (forall k, P (EvGet k) = true) -> emits P (read_random_loop fl fuel).
Proof using Hstderr.
  intros Hget.
  induction fuel as [| fuel IH]; cbn [read_random_loop].
  - apply em_ret.
  - repeat first [apply IH | apply em_random_key | apply em_FinishedSingleOp
                 | apply em_emit; apply Hget | em_step].
Qed.

Lemma em_ReadSequential :
  P EvNewIterator = true -> (forall k v, P (EvIterEntry k v) = true) ->
  emits P (ReadSequential fl).
Proof using Hstderr.
  intros Hnew Hread. unfold ReadSequential, NewIterator.
  repeat first [apply em_read_loop; exact Hread | apply em_emit; exact Hnew
               | em_step].
Qed.

Lemma em_ReadReverse :
  P EvNewIterator = true -> (forall k v, P (EvIterEntry k v) = true) ->
  emits P (ReadReverse fl).
Proof using Hstderr.
  intros Hnew Hread. unfold ReadReverse, NewIterator.
  repeat first [apply em_read_loop; exact Hread | apply em_emit; exact Hnew
               | em_step].
Qed.

Lemma em_ReadRandom :
  (forall k, P (EvGet k) = true) -> emits P (ReadRandom fl).
Proof using Hstderr.
  intros Hget. unfold ReadRandom.
  repeat first [apply em_read_random_loop; exact Hget | em_step].
Qed.

Lemma em_probe_levels levels :
  (forall name r, P (EvGetProperty name r) = true) ->
  forall m, emits P (probe_levels levels m : M St Z).
Proof.
  intros Hprop.
  induction levels as [| l levels IH]; intros m; cbn [probe_levels].
  - apply em_ret.
  - repeat first [apply IH | apply em_emit; apply Hprop | em_step].
Qed.

Lemma em_compact_levels levels :
  (forall l lo hi, P (EvCompactRange l lo hi) = true) ->
  emits P (compact_levels levels : M St unit).
Proof.
  intros Hc.
  induction levels as [| l levels IH]; cbn [compact_levels].
  - apply em_ret.
  - repeat first [apply IH | apply em_emit; apply Hc | em_step].
Qed.

Lemma em_Compact :
  P EvCompactMemTable = true ->
  (forall name r, P (EvGetProperty name r) = true) ->
  (forall l lo hi, P (EvCompactRange l lo hi) = true) ->
  emits P (Compact fl).
Proof.
  intros Hm Hp Hc. unfold Compact.
  repeat first [apply em_probe_levels; exact Hp
               | apply em_compact_levels; exact Hc
               | apply em_emit; exact Hm | em_step].
Qed.

Lemma em_HeapProfile :
  (forall f st, P (EvNewWritableFile f st) = true) ->
  (forall ok, P (EvGetHeapProfile ok) = true) ->
  (forall f, P (EvDeleteFile f) = true) ->
  emits P (HeapProfile : M St unit).
Proof.
  intros Hn Hg Hd. unfold HeapProfile.
  repeat first [apply em_emit; first [apply Hn | apply Hg | apply Hd]
               | em_step].
Qed.

(** [Write] with [EXISTING]: the loop and nothing before it. *)
Lemma em_Write_existing sync order n value_size :
  (forall batch st, P (EvWrite sync batch st) = true) ->
  emits P (Write fl sync order EXISTING n value_size).
Proof using Hstderr.
  intros Hwrite. unfold Write.
  repeat first [apply em_write_loop; exact Hwrite | em_step].
Qed.

(** [Write] with [FRESH]. *)
Lemma em_Write sync order state n value_size :
  (forall batch st, P (EvWrite sync batch st) = true) ->
  (forall e, is_lifecycle e = true -> P e = true) ->
  emits P (Write fl sync order state n value_size).
Proof using Hstderr.
  intros Hwrite Hlife. destruct state; [| now apply em_Write_existing].
  unfold Write.
  repeat first [apply em_write_loop; exact Hwrite
               | apply em_Open; intros; now apply Hlife
               | apply em_Start
               | apply em_emit; now apply Hlife | em_step].
Qed.

End EmitFacts.

Section PhaseFacts.

Context {W R : Type} `{HW : World W R}.
Variable fl : Flags.

Local Abbreviation St := (Bench W R).

Lemma em_Stop P name :
  (forall e, is_stdout e = true -> P e = true) ->
  emits P (Stop fl name : M St unit).
Proof.
  intros Hout b. destruct (Stop_spec fl name b) as (s & E & Ht & _).
  rewrite E. eexists. split; [exact Ht |].
  destruct (FLAGS_histogram fl); repeat constructor; now apply Hout.
Qed.

(** A turn of the loop of [Run] emits what [Start], the handler (or the
    warning) and [Stop] emit. *)
Lemma em_run_benchmark P name :
  (forall e, is_stdout e = true -> P e = true) ->
  match handler fl name with
  | Some h => emits P h
  | None => forall text, P (EvStderr text) = true
  end ->
  emits P (run_benchmark fl name).
Proof.
  intros Hout Hbody. unfold run_benchmark.
  apply em_bind; [apply em_Start | intros _].
  apply em_bind; [| intros _; now apply em_Stop].
  destruct (handler fl name) as [h |]; [exact Hbody |].
  apply em_emit. apply Hbody.
Qed.

(** Case analysis on the name of a benchmark, along the chain of [Run]. *)
Ltac by_name name :=
  unfold handler;
  repeat match goal with
         | |- context [String.eqb name ?x] =>
             destruct (String.eqb_spec name x) as [-> | ?]
         end.

(** X7: only the four phases that ask [Write] for a [FRESH] database close,
    destroy or open it: [overwrite], the three read phases, [compact],
    [heapprofile] and an unknown name never do. *)
Theorem only_fresh_phases_reopen (name : string) (b : St) :
  ~ In name ["fillseq"; "fillrandom"; "fillsync"; "fill100K"]%string ->
  exists tr,
    trace (final_state (run_benchmark fl name b)) = trace b ++ tr
    /\ Forall (fun e => is_lifecycle e = false) tr.
Proof.
  intros Hnot.
  assert (Hem : emits (fun e => negb (is_lifecycle e))
                  (run_benchmark fl name)).
  { apply em_run_benchmark; [now intros [] |].
    by_name name; try (exfalso; apply Hnot; cbn; tauto).
    - apply em_bind; [apply em_gets | intros ?].
      apply em_Write_existing; [now intros [] | reflexivity].
    - apply em_ReadSequential; [now intros [] | reflexivity | reflexivity].
    - apply em_ReadReverse; [now intros [] | reflexivity | reflexivity].
    - apply em_ReadRandom; [now intros [] | reflexivity].
    - apply em_Compact; reflexivity.
    - apply em_HeapProfile; reflexivity.
    - reflexivity. }
  destruct (Hem b) as (tr & Ht & Hall). exists tr. split; [exact Ht |].
  eapply Forall_impl; [| exact Hall].
  intros e He. now apply negb_true_iff in He.
Qed.

(** X8: the three read phases only read: what they do to the world is
    creating an iterator, reading its entries and looking keys up; they
    write nothing, compact nothing and leave the database open. *)
Theorem read_phases_only_read (name : string) (b : St) :
  In name ["readseq"; "readreverse"; "readrandom"]%string ->
  exists tr,
    trace (final_state (run_benchmark fl name b)) = trace b ++ tr
    /\ Forall (fun e => is_read e || is_output e = true) tr.
Proof.
  intros Hin.
  assert (Hem : emits (fun e => is_read e || is_output e)
                  (run_benchmark fl name)).
  { apply em_run_benchmark; [now intros [] |].
    cbn [In] in Hin. destruct Hin as [<- | [<- | [<- | []]]]; cbn.
    - apply em_ReadSequential; [now intros [] | reflexivity | reflexivity].
    - apply em_ReadReverse; [now intros [] | reflexivity | reflexivity].
    - apply em_ReadRandom; [now intros [] | reflexivity]. }
  exact (Hem b).
Qed.

(** X9: every write of [fillsync] is made with [sync] set, and every write
    of the other four write phases with [sync] clear. *)
Theorem write_phases_sync_option (name : string) (b : St) :
  In name ["fillseq"; "fillrandom"; "overwrite"; "fillsync"; "fill100K"]%string ->
  exists tr,
    trace (final_state (run_benchmark fl name b)) = trace b ++ tr
    /\ Forall (fun e => write_sync_is (String.eqb name "fillsync") e = true)
         tr.
Proof.
  intros Hin.
  assert (Hem : emits (write_sync_is (String.eqb name "fillsync"))
                  (run_benchmark fl name)).
  { apply em_run_benchmark; [now intros [] |].
    cbn [In] in Hin.
    destruct Hin as [<- | [<- | [<- | [<- | [<- | []]]]]]; cbn;
      (apply em_bind; [apply em_gets | intros ?]);
      apply em_Write;
      first [ now intros [] | reflexivity ]. }
  exact (Hem b).
Qed.

End PhaseFacts.

Lemma only_fresh_phases_reopen_witness :
  let fl := Sim.flags "overwrite" 3 5 in
  let b := Sim.populated fl Sim.three_keys in
  ~ In "overwrite"%string
      ["fillseq"; "fillrandom"; "fillsync"; "fill100K"]%string
  /\ (exists s, run_benchmark fl "overwrite" b = Done tt s)
  /\ exists tr,
       trace (final_state (run_benchmark fl "overwrite" b)) = trace b ++ tr
       /\ Forall (fun e => is_lifecycle e = false) tr.
Proof.
  intros fl b.
  assert (Hnot : ~ In "overwrite"%string
                   ["fillseq"; "fillrandom"; "fillsync"; "fill100K"]%string).
  { cbn. intros H.
    repeat (destruct H as [H | H]; [discriminate H |]). exact H. }
  split; [exact Hnot |].
  split; [eexists; vm_compute; reflexivity |].
  exact (only_fresh_phases_reopen fl "overwrite" b Hnot).
Defined.

Lemma read_phases_only_read_witness :
  let fl := Sim.flags "readrandom" 3 5 in
  let b := Sim.populated fl Sim.three_keys in
  In "readrandom"%string ["readseq"; "readreverse"; "readrandom"]%string
  /\ (exists s, run_benchmark fl "readrandom" b = Done tt s)
  /\ exists tr,
       trace (final_state (run_benchmark fl "readrandom" b)) = trace b ++ tr
       /\ Forall (fun e => is_read e || is_output e = true) tr.
Proof.
  intros fl b.
  assert (Hin : In "readrandom"%string
                  ["readseq"; "readreverse"; "readrandom"]%string)
    by (cbn; tauto).
  split; [exact Hin |].
  split; [eexists; vm_compute; reflexivity |].
  exact (read_phases_only_read fl "readrandom" b Hin).
Defined.

Lemma write_phases_sync_option_witness :
  let fl := Sim.flags "fillsync" 300 5 in
  let b := Sim.bench fl Sim.healthy in
  In "fillsync"%string
    ["fillseq"; "fillrandom"; "overwrite"; "fillsync"; "fill100K"]%string
  /\ (exists s, run_benchmark fl "fillsync" b = Done tt s)
  /\ exists tr,
       trace (final_state (run_benchmark fl "fillsync" b)) = trace b ++ tr
       /\ Forall (fun e => write_sync_is true e = true) tr.
Proof.
  intros fl b.
  assert (Hin : In "fillsync"%string
                  ["fillseq"; "fillrandom"; "overwrite"; "fillsync";
                   "fill100K"]%string) by (cbn; tauto).
  split; [exact Hin |].
  split; [eexists; vm_compute; reflexivity |].
  exact (write_phases_sync_option fl "fillsync" b Hin).
Defined.

(** ** One summary line per phase *)

Section RunFacts.

Context {W R : Type} `{HW : World W R}.
Variable fl : Flags.

Local Abbreviation St := (Bench W R).

Lemma summary_names_app tr1 tr2 :
  summary_names (tr1 ++ tr2) = summary_names tr1 ++ summary_names tr2.
Proof. apply flat_map_app. Qed.

Lemma no_stdout_no_summary tr :
  Forall (fun e => negb (is_stdout e) = true) tr -> summary_names tr = [].
Proof.
  induction 1 as [| e tr He _ IH]; [reflexivity |].
  destruct e; try discriminate He; exact IH.
Qed.

(** Between [Start] and [Stop] nothing is printed on standard output. *)
Lemma handler_no_stdout name :
  emits (fun e => negb (is_stdout e))
    (match handler fl name with
     | Some h => h
     | None =>
         emit (EvStderr ("unknown benchmark '" ++ name ++ "'" ++ LF)%string)
     end : M St unit).
Proof.
  unfold handler.
  repeat match goal with
         | |- context [String.eqb name ?x] => destruct (String.eqb name x)
         end.
  all: try (apply em_bind; [apply em_gets | intros ?];
            apply em_Write; first [now intros [] | reflexivity]).
  - apply em_ReadSequential; [now intros [] | reflexivity | reflexivity].
  - apply em_ReadReverse; [now intros [] | reflexivity | reflexivity].
  - apply em_ReadRandom; [now intros [] | reflexivity].
  - apply em_Compact; reflexivity.
  - apply em_HeapProfile; reflexivity.
  - apply em_emit. reflexivity.
Qed.

(** A turn of the loop prints the summary line of its phase when it
    returns, and none when the process ends inside the phase. *)
Lemma run_benchmark_summary name (b : St) :
  exists tr,
    trace (final_state (run_benchmark fl name b)) = trace b ++ tr
    /\ ((exists s, run_benchmark fl name b = Done tt s)
        /\ summary_names tr = [name]
        \/ (forall s, run_benchmark fl name b <> Done tt s)
           /\ summary_names tr = []).
Proof.
  unfold run_benchmark, bind.
  destruct (Start_spec b) as (b1 & E1 & Ht1 & _). rewrite E1.
  destruct (handler_no_stdout name b1) as (tr1 & Htr1 & Hno).
  apply no_stdout_no_summary in Hno.
  destruct (match handler fl name with
            | Some h => h
            | None => emit _
            end b1) as [[] s1 | c s1 | f s1]; simpl_st.
  - destruct (Stop_spec fl name s1) as (s2 & E2 & Ht2 & _).
    rewrite E2. simpl_st. eexists. split.
    { rewrite Ht2, Htr1, Ht1, <- app_assoc. reflexivity. }
    left. split; [now exists s2 |].
    rewrite summary_names_app, Hno.
    destruct (FLAGS_histogram fl); reflexivity.
  - exists tr1. split; [now rewrite Htr1, Ht1 |].
    right. split; [discriminate | exact Hno].
  - exists tr1. split; [now rewrite Htr1, Ht1 |].
    right. split; [discriminate | exact Hno].
Qed.

Lemma run_benchmarks_summary names : forall (b : St),
  exists tr printed rest,
    trace (final_state (run_benchmarks fl names b)) = trace b ++ tr
    /\ summary_names tr = printed
    /\ names = printed ++ rest
    /\ (forall s, run_benchmarks fl names b = Done tt s -> rest = []).
Proof.
  induction names as [| name names IH]; intros b.
  - exists [], [], []. cbn. rewrite app_nil_r. now repeat split.
  - cbn [run_benchmarks]. unfold bind.
    destruct (run_benchmark_summary name b)
      as (tr1 & Ht1 & [[(s1 & E1) Hs1] | [Hnd Hs1]]).
    + rewrite E1 in *. simpl_st.
      destruct (IH s1) as (tr2 & printed & rest & Ht2 & Hs2 & Hn & Hdone).
      exists (tr1 ++ tr2), (name :: printed), rest.
      split; [rewrite Ht2, Ht1, app_assoc; reflexivity |].
      split; [rewrite summary_names_app, Hs1, Hs2; reflexivity |].
      split; [now rewrite Hn | exact Hdone].
    + destruct (run_benchmark fl name b) as [[] s1 | c s1 | f s1];
        [now elim (Hnd s1) | |]; simpl_st;
        exists tr1, [], (name :: names);
        (split; [exact Ht1 |]); (split; [exact Hs1 |]);
        (split; [reflexivity | discriminate]).
Qed.

(** X10: [Run] prints one summary line per phase it completes, under the
    name of the phase and in the order of the list: the names on the
    summary lines are the list of benchmarks when [Run] returns, and a
    beginning of it when the process ends early. *)
Theorem Run_summary_lines (b : St) :
  exists tr rest,
    trace (final_state (Run fl b)) = trace b ++ tr
    /\ split_commas (FLAGS_benchmarks fl) = summary_names tr ++ rest
    /\ (forall s, Run fl b = Done tt s -> rest = []).
Proof.
  unfold Run, PrintHeader, bind, emit, modify.
  assert (Hopen : emits (fun e => negb (is_stdout e)) (Open : M St unit))
    by (apply em_Open; [now intros [] | reflexivity]).
  destruct (Hopen (log EvStdoutHeader b)) as (tr1 & Ht1 & Hno).
  apply no_stdout_no_summary in Hno. simpl_st.
  destruct (Open (log EvStdoutHeader b)) as [[] s1 | c s1 | f s1]; simpl_st.
  - destruct (run_benchmarks_summary (split_commas (FLAGS_benchmarks fl)) s1)
      as (tr2 & printed & rest & Ht2 & Hs2 & Hn & Hdone).
    exists (EvStdoutHeader :: tr1 ++ tr2), rest.
    split; [rewrite Ht2, Ht1, <- !app_assoc; reflexivity |].
    split; [| exact Hdone].
    change (EvStdoutHeader :: tr1 ++ tr2)
      with ([EvStdoutHeader] ++ tr1 ++ tr2).
    rewrite !summary_names_app, Hno, Hs2. exact Hn.
  - exists (EvStdoutHeader :: tr1), (split_commas (FLAGS_benchmarks fl)).
    split; [rewrite Ht1, <- app_assoc; reflexivity |].
    split; [| discriminate].
    change (EvStdoutHeader :: tr1) with ([EvStdoutHeader] ++ tr1).
    rewrite summary_names_app, Hno. reflexivity.
  - exists (EvStdoutHeader :: tr1), (split_commas (FLAGS_benchmarks fl)).
    split; [rewrite Ht1, <- app_assoc; reflexivity |].
    split; [| discriminate].
    change (EvStdoutHeader :: tr1) with ([EvStdoutHeader] ++ tr1).
    rewrite summary_names_app, Hno. reflexivity.
Qed.

End RunFacts.

Lemma Run_summary_lines_witness :
  let fl := Sim.flags "fillseq,bogus,readseq,compact" 3 5 in
  let b := Sim.bench fl Sim.healthy in
  summary_names (trace (final_state (Run fl b)))
  = ["fillseq"; "bogus"; "readseq"; "compact"]%string.
Proof.
  intros fl b.
  destruct (Run_summary_lines fl b) as (tr & rest & Ht & Hn & Hdone).
  assert (Hrun : Run fl b = Done tt (final_state (Run fl b)))
    by (vm_compute; reflexivity).
  rewrite (Hdone _ Hrun), app_nil_r in Hn.
  rewrite Ht. change (trace b) with [EvDestroy].
  cbn [app summary_names flat_map]. fold (summary_names tr).
  rewrite <- Hn. vm_compute. reflexivity.
Defined.

(** ** Counting operations *)

Section CountFacts.

Context {W R : Type} `{HW : World W R}.
Variable fl : Flags.

Local Abbreviation St := (Bench W R).

(** All that [FinishedSingleOp] does. *)
Lemma FinishedSingleOp_effect (b : St) :
  exists s slow,
    FinishedSingleOp fl b = Done tt s
    /\ done_ s = CInt.to_int (done_ b + 1)
    /\ length (hist_ s)
       = (length (hist_ b) + if FLAGS_histogram fl then 1 else 0)%nat
    /\ next_report_ s
       = (if next_report_ b <=? done_ s
          then CInt.to_int (next_report_ b + report_step (next_report_ b))
          else next_report_ b)
    /\ trace s
       = trace b ++ slow
         ++ (if next_report_ b <=? done_ s then [progress_line (done_ s)]
             else [])
    /\ Forall (fun e => exists micros, e = EvStderrLongOp micros) slow
    /\ (FLAGS_histogram fl = false -> slow = [] /\ world s = world b)
    /\ gen_ s = gen_ b /\ rand_ s = rand_ b /\ bytes_ s = bytes_ b
    /\ message_ s = message_ b /\ num_ s = num_ b /\ db_ s = db_ b
    /\ heap_counter_ s = heap_counter_ b /\ start_ s = start_ b.
Proof.
  unfold FinishedSingleOp, progress_line, report_step. unfold_m.
  destruct (FLAGS_histogram fl).
  - destruct (Env_NowMicros (world b)) as [t w] eqn:Hnow. simpl_st.
    match goal with
    | |- context [negb (Qle_bool ?m 20000)] => set (micros := m)
    end.
    destruct (negb (Qle_bool micros 20000)); simpl_st;
      destruct (next_report_ b <=? CInt.to_int (done_ b + 1)) eqn:Hrep;
      simpl_st.
    + eexists. exists [EvStderrLongOp micros].
      split; [reflexivity |]. simpl_st.
      rewrite ?Hrep, ?length_app, <- ?app_assoc. cbn [length app].
      repeat split; try reflexivity; try discriminate.
      repeat constructor. now exists micros.
    + eexists. exists [EvStderrLongOp micros].
      split; [reflexivity |]. simpl_st.
      rewrite ?Hrep, ?length_app, <- ?app_assoc. cbn [length app].
      repeat split; try reflexivity; try discriminate.
      repeat constructor. now exists micros.
    + eexists. exists [].
      split; [reflexivity |]. simpl_st.
      rewrite ?Hrep, ?length_app, <- ?app_assoc. cbn [length app].
      repeat split; try reflexivity; try discriminate. constructor.
    + eexists. exists [].
      split; [reflexivity |]. simpl_st.
      rewrite ?Hrep, ?length_app, <- ?app_assoc. cbn [length app].
      repeat split; try reflexivity; try discriminate.
      * now rewrite app_nil_r.
      * constructor.
  - simpl_st.
    destruct (next_report_ b <=? CInt.to_int (done_ b + 1)) eqn:Hrep;
      simpl_st; eexists; exists []; (split; [reflexivity |]); simpl_st;
      rewrite ?Hrep, ?Nat.add_0_r; cbn [app]; rewrite ?app_nil_r;
      repeat split; try reflexivity; constructor.
Qed.

(** All that [Start] does. *)
Lemma Start_effect (b : St) :
  exists s,
    Start b = Done tt s
    /\ trace s = trace b
    /\ bytes_ s = 0 /\ done_ s = 0 /\ next_report_ s = 100
    /\ message_ s = EmptyString /\ hist_ s = []
    /\ num_ s = num_ b /\ db_ s = db_ b /\ gen_ s = gen_ b
    /\ rand_ s = rand_ b /\ heap_counter_ s = heap_counter_ b.
Proof.
  unfold Start. unfold_m.
  destruct (Env_NowMicros (world b)) as [t w] eqn:Hnow. cbn.
  eexists. split; [reflexivity |]. simpl_st. now repeat split.
Qed.

Lemma report_point_iff d nr :
  report_pending d nr -> (report_point (d + 1) <-> nr <= d + 1).
Proof.
  unfold report_pending, report_point, report_spacing.
  repeat match goal with
         | |- context [?a <=? ?b] => destruct (Z.leb_spec a b)
         end; intros (Hd & Hlow & Hmod);
    (split; [intros [Hpos Hm] | intros Hreach; split]);
    Z.to_euclidean_division_equations; lia.
Qed.

Lemma report_pending_next d nr :
  report_pending d nr -> nr <= d + 1 ->
  report_pending (d + 1) (nr + report_step nr).
Proof.
  unfold report_pending, report_spacing, report_step.
  repeat match goal with
         | |- context [?a <=? ?b] => destruct (Z.leb_spec a b)
         | |- context [?a <? ?b] => destruct (Z.ltb_spec a b)
         end; intros (Hd & Hlow & Hmod) Hreach; repeat split;
    Z.to_euclidean_division_equations; lia.
Qed.

Lemma report_pending_stay d nr :
  report_pending d nr -> d + 1 < nr -> report_pending (d + 1) nr.
Proof.
  unfold report_pending. intros (Hd & Hlow & Hmod) Hlt. lia.
Qed.

(** X11: progress is reported every 100 operations up to 1000, every 1000
    up to 10000, every 10000 up to 100000 and every 100000 beyond.  [Start]
    leaves the first report pending at 100; and when [next_report_] is the
    first report point after [done_], [FinishedSingleOp] counts the
    operation, prints the progress line exactly when the new count is a
    report point, and leaves [next_report_] at the first report point after
    the new count. *)
Theorem progress_cadence (b : St) :
  report_pending (done_ b) (next_report_ b) ->
  done_ b < 2000000000 ->
  (forall b0 s0 : St, Start b0 = Done tt s0 ->
     report_pending (done_ s0) (next_report_ s0))
  /\ exists s slow,
       FinishedSingleOp fl b = Done tt s
       /\ done_ s = done_ b + 1
       /\ report_pending (done_ s) (next_report_ s)
       /\ Forall (fun e => exists micros, e = EvStderrLongOp micros) slow
       /\ (report_point (done_ s) ->
           trace s = trace b ++ slow ++ [progress_line (done_ s)])
       /\ (~ report_point (done_ s) -> trace s = trace b ++ slow).
Proof.
  intros Hpend Hsmall. split.
  { intros b0 s0 Hs0. destruct (Start_effect b0) as (s & E & _ & _ & Hd & Hn & _).
    rewrite E in Hs0. injection Hs0 as <-. rewrite Hd, Hn.
    unfold report_pending, report_spacing. cbn. lia. }
  destruct (FinishedSingleOp_effect b)
    as (s & slow & E & Hd & _ & Hn & Ht & Hslow & _).
  assert (Hd' : done_ s = done_ b + 1).
  { rewrite Hd. apply to_int_id. destruct Hpend as ((H0 & _) & _).
    change (2 ^ 31) with 2147483648. lia. }
  pose proof (report_point_iff _ _ Hpend) as Hiff.
  exists s, slow. split; [exact E |]. split; [exact Hd' |].
  rewrite Hd' in *.
  destruct (Z.leb_spec (next_report_ b) (done_ b + 1)) as [Hreach | Hnot].
  - split.
    { rewrite Hn, to_int_id.
      - now apply report_pending_next.
      - destruct Hpend as ((H0 & H1) & _). unfold report_step.
        change (2 ^ 31) with 2147483648.
        repeat match goal with
               | |- context [?a <? ?c] => destruct (Z.ltb_spec a c)
               end; lia. }
    split; [exact Hslow |]. split; [intros _; exact Ht |].
    intros Hno. elim Hno. now apply Hiff.
  - split; [rewrite Hn; now apply report_pending_stay |].
    split; [exact Hslow |]. split.
    + intros Hp. apply Hiff in Hp. lia.
    + intros _. now rewrite Ht, app_nil_r.
Qed.

End CountFacts.

Lemma progress_cadence_witness :
  let fl := Sim.flags "readrandom" 1000 5 in
  let b := set_next_report_ 100 (set_done_ 99 (Sim.bench fl Sim.healthy)) in
  report_pending (done_ b) (next_report_ b)
  /\ done_ b < 2000000000
  /\ report_point 100
  /\ trace (final_state (FinishedSingleOp fl b))
     = trace b ++ [progress_line 100]
  /\ next_report_ (final_state (FinishedSingleOp fl b)) = 200.
Proof.
  intros fl b.
  assert (Hpend : report_pending (done_ b) (next_report_ b))
    by (unfold report_pending; vm_compute; repeat split; discriminate).
  assert (Hsmall : done_ b < 2000000000) by (vm_compute; reflexivity).
  assert (Hpoint : report_point 100)
    by (unfold report_point; vm_compute; repeat split).
  destruct (progress_cadence fl b Hpend Hsmall)
    as (_ & s & slow & E & Hd & _ & _ & Hrep & _).
  repeat (split; [assumption |]).
  rewrite E. simpl_st.
  assert (Hs : s = final_state (FinishedSingleOp fl b))
    by (rewrite E; reflexivity).
  split; [| rewrite Hs; vm_compute; reflexivity].
  rewrite Hs. vm_compute. reflexivity.
Defined.

(** ** The loop of [Write], in full *)

Section WriteFacts.

Context {W R : Type} `{HW : World W R}.
Variable fl : Flags.

Local Abbreviation St := (Bench W R).

(** A value served by a ready generator. *)
Lemma generate_value_effect value_size (b : St) :
  gen_ready (gen_ b) value_size ->
  exists val off s,
    generate_value value_size b = Done val s
    /\ gen_ready (gen_ s) value_size
    /\ RandomGenerator.data_ (gen_ s) = RandomGenerator.data_ (gen_ b)
    /\ Z.of_nat (length val) = value_size
    /\ val = firstn (Z.to_nat value_size)
               (skipn off (RandomGenerator.data_ (gen_ b)))
    /\ trace s = trace b /\ done_ s = done_ b /\ hist_ s = hist_ b
    /\ message_ s = message_ b /\ world s = world b
    /\ next_report_ s = next_report_ b.
Proof.
  intros (Hsize & Hpos & Hv).
  assert (Hlen : 0 <= value_size <= CInt.INT_MAX) by lia.
  pose proof (Generate_fits (gen_ b) value_size Hsize Hpos Hlen) as Hfit.
  pose proof (Generate_wraps (gen_ b) value_size Hsize Hpos Hlen) as Hwrap.
  unfold generate_value. unfold_m. simpl_st.
  destruct (Z_le_gt_dec (RandomGenerator.pos_ (gen_ b) + value_size)
              (Z.of_nat (length (RandomGenerator.data_ (gen_ b)))))
    as [Hle | Hgt].
  - rewrite (Hfit Hle). simpl_st. cbn [RandomGenerator.data_].
    destruct (slice_bytes_inside (RandomGenerator.data_ (gen_ b))
                (RandomGenerator.pos_ (gen_ b)) value_size)
      as [Hb Hl]; try lia.
    rewrite Hb. eexists _, _, _. split; [reflexivity |]. simpl_st.
    unfold gen_ready. cbn [RandomGenerator.data_ RandomGenerator.pos_].
    repeat split; try reflexivity; try lia; exact Hl.
  - rewrite (Hwrap ltac:(lia) ltac:(lia)). simpl_st.
    cbn [RandomGenerator.data_].
    destruct (slice_bytes_inside (RandomGenerator.data_ (gen_ b))
                0 value_size) as [Hb Hl]; try lia.
    rewrite Hb. eexists _, _, _. split; [reflexivity |]. simpl_st.
    unfold gen_ready. cbn [RandomGenerator.data_ RandomGenerator.pos_].
    repeat split; try reflexivity; try lia; exact Hl.
Qed.

(** One completed iteration of the loop of [Write]. *)
Lemma write_one_done sync order value_size i (b s : St) :
  write_one fl sync order value_size i b = Done tt s ->
  exists key val st out,
    trace s = trace b ++ EvWrite sync [(key, val)] st :: out
    /\ written_batches out = []
    /\ done_ s = CInt.to_int (done_ b + 1)
    /\ length (hist_ s)
       = (length (hist_ b) + if FLAGS_histogram fl then 1 else 0)%nat
    /\ message_ s = message_ b
    /\ (gen_ready (gen_ b) value_size ->
        gen_ready (gen_ s) value_size
        /\ RandomGenerator.data_ (gen_ s) = RandomGenerator.data_ (gen_ b)
        /\ Z.of_nat (length val) = value_size
        /\ exists off,
             val = firstn (Z.to_nat value_size)
                     (skipn off (RandomGenerator.data_ (gen_ b)))).
Proof.
  intros Hrun. unfold write_one in Hrun.
  assert (Hkey : exists k (b1 : St),
            match order with
            | SEQUENTIAL => ret i
            | RANDOM => random_key fl
            end b = Done k b1
            /\ trace b1 = trace b /\ gen_ b1 = gen_ b /\ done_ b1 = done_ b
            /\ hist_ b1 = hist_ b /\ message_ b1 = message_ b).
  { unfold bind at 1 in Hrun.
    destruct (match order with
              | SEQUENTIAL => ret i
              | RANDOM => random_key fl
              end b) as [k b1 | c b1 | f b1] eqn:Ek; try discriminate Hrun.
    exists k, b1. split; [reflexivity |].
    destruct order.
    - injection Ek as <- <-. now repeat split.
    - unfold random_key in Ek. repeat unfold_m_in Ek.
      destruct (Random_Next (rand_ b)) as [r r']. simpl_st.
      destruct (CInt.to_uint (FLAGS_num fl) =? 0); [discriminate Ek |].
      injection Ek as <- <-. now repeat split. }
  destruct Hkey as (k & b1 & Ek & Ht1 & Hg1 & Hd1 & Hh1 & Hm1).
  unfold bind at 1 in Hrun. rewrite Ek in Hrun.
  unfold bind at 1 in Hrun. unfold generate_value in Hrun.
  repeat unfold_m_in Hrun. simpl_st.
  destruct (RandomGenerator.Generate (gen_ b1) value_size)
    as [g' sl | g'] eqn:Hgen; [| discriminate Hrun].
  simpl_st.
  destruct (slice_bytes (RandomGenerator.data_ g') sl) as [val |] eqn:Hsl;
    [| discriminate Hrun].
  simpl_st.
  destruct (DB_Write sync [(format_key k, val)] (world b1)) as [st w].
  simpl_st. destruct (ok st); cbn [negb] in Hrun; [| discriminate Hrun].
  match type of Hrun with
  | context [FinishedSingleOp fl ?x] =>
      destruct (FinishedSingleOp_effect fl x)
        as (s' & slow & E & Hd & Hh & _ & Ht & Hslow & _ & Hg & _ & _ & Hm & _);
      rewrite E in Hrun
  end.
  injection Hrun as <-. simpl_st.
  eexists (format_key k), val, st, _.
  split; [rewrite Ht, Ht1, <- !app_assoc; reflexivity |].
  split.
  { rewrite written_batches_app.
    replace (written_batches slow) with (@nil (list entry)).
    - now destruct (next_report_ b1 <=? done_ s').
    - clear - Hslow. induction Hslow as [| e l (m & ->) _ IH];
        [reflexivity | exact IH]. }
  split; [now rewrite Hd, Hd1 |].
  split; [now rewrite Hh, Hh1 |].
  split; [now rewrite Hm, Hm1 |].
  intros (Hsize & Hpos & Hv). rewrite Hg. rewrite <- Hg1 in *.
  assert (Hlen : 0 <= value_size <= CInt.INT_MAX) by lia.
  destruct (Generate_success (gen_ b1) value_size g' sl Hsize Hpos Hlen Hgen)
    as (-> & -> & H0 & H1 & _).
  cbn [RandomGenerator.data_ RandomGenerator.pos_] in *.
  set (start := if RandomGenerator.pos_ (gen_ b1) + value_size
                   >? Z.of_nat (length (RandomGenerator.data_ (gen_ b1)))
                then 0 else RandomGenerator.pos_ (gen_ b1)) in *.
  destruct (slice_bytes_inside (RandomGenerator.data_ (gen_ b1)) start
              value_size) as [Hb Hl]; try lia.
  rewrite Hb in Hsl. injection Hsl as <-.
  split; [unfold gen_ready;
          cbn [RandomGenerator.data_ RandomGenerator.pos_]; lia |].
  split; [reflexivity |]. split; [exact Hl |].
  now exists (Z.to_nat start).
Qed.

(** A completed loop of [Write]: as many writes as iterations, each of one
    key and one value; the counters after it. *)
Lemma write_loop_done sync order value_size fuel : forall i (b s : St),
  write_loop fl sync order value_size fuel i b = Done tt s ->
  exists tr,
    trace s = trace b ++ tr
    /\ length (written_batches tr) = fuel
    /\ (0 <= done_ b -> done_ b + Z.of_nat fuel < 2 ^ 31 ->
        done_ s = done_ b + Z.of_nat fuel)
    /\ length (hist_ s)
       = (length (hist_ b) + if FLAGS_histogram fl then fuel else 0)%nat
    /\ message_ s = message_ b
    /\ (gen_ready (gen_ b) value_size ->
        Forall (fun batch =>
                  exists key val off,
                    batch = [(key, val)]
                    /\ Z.of_nat (length val) = value_size
                    /\ val = firstn (Z.to_nat value_size)
                               (skipn off (RandomGenerator.data_ (gen_ b))))
          (written_batches tr)).
Proof.
  induction fuel as [| fuel IH]; intros i b s Hrun.
  - cbn in Hrun. injection Hrun as <-. exists []. rewrite app_nil_r.
    cbn. repeat split; try lia.
    + now destruct (FLAGS_histogram fl).
    + constructor.
  - cbn [write_loop] in Hrun. unfold bind at 1 in Hrun.
    destruct (write_one fl sync order value_size i b)
      as [[] s1 | c s1 | f s1] eqn:E1; try discriminate Hrun.
    destruct (write_one_done sync order value_size i b s1 E1)
      as (key & val & st & out & Ht1 & Hout & Hd1 & Hh1 & Hm1 & Hgen1).
    destruct (IH (i + 1) s1 s Hrun) as (tr & Ht & Hn & Hd & Hh & Hm & Hgen).
    exists (EvWrite sync [(key, val)] st :: out ++ tr).
    split; [rewrite Ht, Ht1, <- app_assoc; reflexivity |].
    assert (Hw : written_batches (EvWrite sync [(key, val)] st :: out ++ tr)
                 = [(key, val)] :: written_batches tr).
    { change (EvWrite sync [(key, val)] st :: out ++ tr)
        with ([EvWrite sync [(key, val)] st] ++ out ++ tr).
      now rewrite !written_batches_app, Hout. }
    rewrite Hw. split; [cbn; now rewrite Hn |].
    split.
    { intros H0 Hb. rewrite Hd; rewrite Hd1, to_int_id; lia. }
    split; [rewrite Hh, Hh1; destruct (FLAGS_histogram fl); lia |].
    split; [now rewrite Hm, Hm1 |].
    intros Hready. destruct (Hgen1 Hready) as (Hready1 & Hdata & Hlen & off & Hval).
    constructor.
    + now exists key, val, off.
    + rewrite <- Hdata. now apply Hgen.
Qed.

(** [Write] up to its loop, when the call completes. *)
Lemma Write_enters_loop sync order state n value_size (b s : St) :
  Write fl sync order state n value_size b = Done tt s ->
  exists s1 pre,
    write_loop fl sync order value_size (Z.to_nat n) 0 s1 = Done tt s
    /\ trace s1 = trace b ++ pre
    /\ gen_ s1 = gen_ b
    /\ match state with
       | FRESH =>
           (exists st, ok st = true /\ pre = fresh_prelude (db_ b) st)
           /\ done_ s1 = 0 /\ hist_ s1 = []
           /\ message_ s1 = ops_note n (num_ b) ""
       | EXISTING =>
           pre = [] /\ done_ s1 = done_ b /\ hist_ s1 = hist_ b
           /\ message_ s1 = ops_note n (num_ b) (message_ b)
       end.
Proof.
  intros Hrun. unfold Write, Open, Start, ops_note, fresh_prelude in *.
  repeat unfold_m_in Hrun.
  destruct state; simpl_st.
  - destruct (db_ b); simpl_st;
      match type of Hrun with
      | context [DB_Open ?w] => destruct (DB_Open w) as [st w1] eqn:Hopen
      end; simpl_st;
      (destruct (ok st) eqn:Hok; cbn [negb] in Hrun; simpl_st;
       [| discriminate Hrun]);
      match type of Hrun with
      | context [Env_NowMicros ?w] =>
          destruct (Env_NowMicros w) as [t w2] eqn:Hnow
      end; simpl_st;
      destruct (n =? num_ b); cbn [negb] in Hrun; simpl_st;
      eexists; eexists; (split; [exact Hrun |]); simpl_st;
      rewrite <- ?app_assoc; cbn [app];
      (split; [reflexivity |]); (split; [reflexivity |]);
      (split; [exists st; split; [exact Hok | reflexivity] |]);
      repeat split.
  - destruct (n =? num_ b); cbn [negb] in Hrun; simpl_st;
      eexists; exists []; (split; [exact Hrun |]); simpl_st;
      rewrite ?app_nil_r; repeat split.
Qed.

Lemma bind_done {S A B} (m : M S A) (k : A -> M S B) (b s : S) (x : B) :
  bind m k b = Done x s ->
  exists a s1, m b = Done a s1 /\ k a s1 = Done x s.
Proof.
  unfold bind. destruct (m b) as [a s1 | c s1 | f s1]; try discriminate.
  intros Hk. now exists a, s1.
Qed.

(** A completed [Write]: the events before the loop, then the loop. *)
Lemma Write_done sync order state n value_size (b s : St) :
  Write fl sync order state n value_size b = Done tt s ->
  exists pre tr,
    trace s = trace b ++ pre ++ tr
    /\ match state with
       | FRESH => exists st, ok st = true /\ pre = fresh_prelude (db_ b) st
       | EXISTING => pre = []
       end
    /\ Forall (fun e => is_lifecycle e = false) tr
    /\ length (written_batches tr) = Z.to_nat n
    /\ (gen_ready (gen_ b) value_size ->
        Forall (one_value_from (RandomGenerator.data_ (gen_ b)) value_size)
          (written_batches tr))
    /\ (0 <= n < 2 ^ 31 ->
        match state with FRESH => True | EXISTING => done_ b = 0 end ->
        done_ s = n)
    /\ (match state with FRESH => True | EXISTING => hist_ b = [] end ->
        length (hist_ s) = if FLAGS_histogram fl then Z.to_nat n else O)
    /\ message_ s
       = ops_note n (num_ b)
           match state with FRESH => "" | EXISTING => message_ b end.
Proof.
  intros Hrun.
  destruct (Write_enters_loop sync order state n value_size b s Hrun)
    as (s1 & pre & Hloop & Ht1 & Hg1 & Hst).
  destruct (write_loop_done sync order value_size (Z.to_nat n) 0 s1 s Hloop)
    as (tr & Ht & Hlen & Hd & Hh & Hm & Hv).
  exists pre, tr.
  split; [rewrite Ht, Ht1, <- app_assoc; reflexivity |].
  split; [destruct state; tauto |].
  split.
  { destruct (em_write_loop fl (fun e => negb (is_lifecycle e))
                ltac:(now intros []) sync order value_size (Z.to_nat n)
                ltac:(reflexivity) 0 s1) as (tr' & Ht' & Hall).
    rewrite Hloop in Ht'. cbn [final_state] in Ht'.
    rewrite Ht in Ht'. apply app_inv_head in Ht'. subst tr'.
    eapply Forall_impl; [| exact Hall].
    intros e He. now apply negb_true_iff in He. }
  split; [exact Hlen |].
  split; [intros Hready; rewrite <- Hg1 in *; now apply Hv |].
  split.
  { intros Hn H0.
    assert (Hd1 : done_ s1 = 0) by (destruct state; [tauto | lia]).
    rewrite Hd; rewrite Hd1; lia. }
  split.
  { intros H0.
    assert (Hh1 : hist_ s1 = []).
    { destruct state; [tauto |].
      destruct Hst as (_ & _ & -> & _). exact H0. }
    rewrite Hh, Hh1. now destruct (FLAGS_histogram fl). }
  rewrite Hm. destruct state; tauto.
Qed.


(** X13: with a generator buffer larger than the value size, every batch of
    a completed [Write] holds one key and one value of exactly [value_size]
    bytes, and those bytes lie side by side in the generator buffer: the
    generator never hands out a value that runs over the end of its data. *)
Theorem written_values_from_buffer sync order state n value_size (b s : St) :
  gen_ready (gen_ b) value_size ->
  Write fl sync order state n value_size b = Done tt s ->
  exists tr,
    trace s = trace b ++ tr
    /\ length (written_batches tr) = Z.to_nat n
    /\ Forall (one_value_from (RandomGenerator.data_ (gen_ b)) value_size)
         (written_batches tr).
Proof.
  intros Hready Hrun.
  destruct (Write_done sync order state n value_size b s Hrun)
    as (pre & tr & Ht & Hpre & _ & Hlen & Hv & _).
  assert (Hw : written_batches pre = []).
  { destruct state.
    - destruct Hpre as (st & _ & ->). unfold fresh_prelude.
      now destruct (db_ b).
    - now subst pre. }
  exists (pre ++ tr). split; [exact Ht |].
  rewrite written_batches_app, Hw. cbn [app].
  split; [exact Hlen | now apply Hv].
Qed.

(** The three steps of a write phase that completes. *)
Lemma write_phase_steps sync order state n value_size name (b s : St) :
  (Start ;; Write fl sync order state n value_size ;; Stop fl name)%bench b
  = Done tt s ->
  exists b1 s2,
    Start b = Done tt b1
    /\ Write fl sync order state n value_size b1 = Done tt s2
    /\ Stop fl name s2 = Done tt s.
Proof.
  intros Hrun.
  apply bind_done in Hrun. destruct Hrun as ([] & b1 & E1 & Hrun).
  apply bind_done in Hrun. destruct Hrun as ([] & s2 & E2 & E3).
  now exists b1, s2.
Qed.

(** X14: a write phase that completes has counted exactly its
    [num_entries] operations: the summary line divides the elapsed time by
    that count (by 1 for an empty phase), the phase made that many writes,
    and with [FLAGS_histogram] the histogram printed after the summary holds
    one sample for each of them. *)
Theorem write_phase_counts sync order state n value_size name (b s : St) :
  0 <= n < 2 ^ 31 ->
  (Start ;; Write fl sync order state n value_size ;; Stop fl name)%bench b
  = Done tt s ->
  done_ s = Z.max n 1
  /\ exists tr per_op sep msg rest,
       trace s = trace b ++ tr ++ EvStdoutSummary name per_op sep msg :: rest
       /\ length (written_batches tr) = Z.to_nat n
       /\ if FLAGS_histogram fl
          then exists h, rest = [EvStdoutHistogram h]
                         /\ length h = Z.to_nat n
          else rest = [].
Proof.
  intros Hn Hrun.
  destruct (write_phase_steps _ _ _ _ _ _ _ _ Hrun) as (b1 & s2 & E1 & E2 & E3).
  destruct (Start_effect b)
    as (b1' & E1' & Ht1 & _ & Hd1 & _ & Hm1 & Hh1 & _).
  rewrite E1 in E1'. injection E1' as <-.
  destruct (Write_done sync order state n value_size b1 s2 E2)
    as (pre & tr & Ht2 & Hpre & _ & Hlen & _ & Hd & Hh & _).
  assert (Hw : written_batches pre = []).
  { destruct state.
    - destruct Hpre as (st & _ & ->). unfold fresh_prelude.
      now destruct (db_ b1).
    - now subst pre. }
  assert (Hd2 : done_ s2 = n) by (apply Hd; [exact Hn | now destruct state]).
  assert (Hh2 : length (hist_ s2)
                = if FLAGS_histogram fl then Z.to_nat n else O)
    by (apply Hh; now destruct state).
  pose proof (Stop_spec fl name s2) as HS. cbv zeta in HS.
  destruct HS as (s' & E3' & Ht3 & _ & Hd3 & _).
  rewrite E3 in E3'. injection E3' as <-.
  split.
  { rewrite Hd3, Hd2. destruct (Z.ltb_spec n 1); lia. }
  exists (pre ++ tr). do 3 eexists.
  exists (if FLAGS_histogram fl then [EvStdoutHistogram (hist_ s2)] else []).
  split; [rewrite Ht3, Ht2, Ht1, <- !app_assoc; reflexivity |].
  split; [now rewrite written_batches_app, Hw |].
  destruct (FLAGS_histogram fl); [| reflexivity].
  now exists (hist_ s2).
Qed.


End WriteFacts.


Lemma written_values_from_buffer_witness :
  let fl := Sim.flags "fillrandom" 3 5 in
  let b := Sim.bench fl Sim.healthy in
  let s := final_state (Write fl false RANDOM FRESH 3 5 b) in
  gen_ready (gen_ b) 5
  /\ Write fl false RANDOM FRESH 3 5 b = Done tt s
  /\ exists tr,
       trace s = trace b ++ tr
       /\ length (written_batches tr) = Z.to_nat 3
       /\ Forall (one_value_from (RandomGenerator.data_ (gen_ b)) 5)
            (written_batches tr).
Proof.
  intros fl b s.
  assert (Hready : gen_ready (gen_ b) 5)
    by (unfold gen_ready; vm_compute; repeat split; discriminate).
  assert (Hrun : Write fl false RANDOM FRESH 3 5 b = Done tt s)
    by (vm_compute; reflexivity).
  split; [exact Hready |]. split; [exact Hrun |].
  exact (written_values_from_buffer fl false RANDOM FRESH 3 5 b s Hready Hrun).
Defined.

Lemma write_phase_counts_witness :
  let fl := Sim.flags "fillsync" 300 5 in
  let b := Sim.bench fl Sim.healthy in
  let phase :=
    (Start ;; Write fl true RANDOM FRESH 3 5 ;; Stop fl "fillsync")%bench in
  let s := final_state (phase b) in
  0 <= 3 < 2 ^ 31
  /\ phase b = Done tt s
  /\ done_ s = Z.max 3 1
  /\ exists tr per_op sep msg rest,
       trace s
       = trace b ++ tr ++ EvStdoutSummary "fillsync" per_op sep msg :: rest
       /\ length (written_batches tr) = Z.to_nat 3
       /\ if FLAGS_histogram fl
          then exists h, rest = [EvStdoutHistogram h]
                         /\ length h = Z.to_nat 3
          else rest = [].
Proof.
  intros fl b phase s.
  assert (Hn : 0 <= 3 < 2 ^ 31) by lia.
  assert (Hrun : phase b = Done tt s) by (vm_compute; reflexivity).
  split; [exact Hn |]. split; [exact Hrun |].
  exact (write_phase_counts fl true RANDOM FRESH 3 5 "fillsync" b s Hn Hrun).
Defined.


(** ** The read phases, in full *)

Section ReadFacts.

Context {W R : Type} `{HW : World W R}.
Variable fl : Flags.

Local Abbreviation St := (Bench W R).

Lemma looked_up_app tr1 tr2 :
  looked_up (tr1 ++ tr2) = looked_up tr1 ++ looked_up tr2.
Proof. unfold looked_up. now rewrite flat_map_app. Qed.

Lemma visited_entries_app tr1 tr2 :
  visited_entries (tr1 ++ tr2) = visited_entries tr1 ++ visited_entries tr2.
Proof. unfold visited_entries. now rewrite flat_map_app. Qed.

Lemma visited_bytes_app tr1 tr2 :
  visited_bytes (tr1 ++ tr2) = visited_bytes tr1 + visited_bytes tr2.
Proof.
  unfold visited_bytes. rewrite visited_entries_app, map_app.
  induction (map entry_bytes (visited_entries tr1)) as [| x l IH];
    cbn [app fold_right]; lia.
Qed.

Lemma visited_bytes_nonneg tr : 0 <= visited_bytes tr.
Proof.
  unfold visited_bytes.
  induction (visited_entries tr) as [| e l IH]; cbn [map fold_right];
    [lia |].
  unfold entry_bytes at 1. lia.
Qed.

(** What [FinishedSingleOp] prints is neither a lookup nor an entry of an
    iterator. *)
Lemma FinishedSingleOp_quiet (b : St) :
  exists s out,
    FinishedSingleOp fl b = Done tt s
    /\ trace s = trace b ++ out
    /\ looked_up out = [] /\ visited_entries out = []
    /\ done_ s = CInt.to_int (done_ b + 1)
    /\ bytes_ s = bytes_ b /\ message_ s = message_ b /\ num_ s = num_ b
    /\ heap_counter_ s = heap_counter_ b
    /\ length (hist_ s)
       = (length (hist_ b) + if FLAGS_histogram fl then 1 else 0)%nat.
Proof.
  destruct (FinishedSingleOp_effect fl b)
    as (s & slow & E & Hd & Hh & _ & Ht & Hslow & _ & _ & _ & Hb & Hm & Hn
        & _ & Hc & _).
  exists s. eexists. split; [exact E |]. split; [exact Ht |].
  assert (Hq : looked_up slow = [] /\ visited_entries slow = []).
  { clear - Hslow. induction Hslow as [| e l (m & ->) _ IH];
      [now split | exact IH]. }
  destruct Hq as [Hq1 Hq2].
  rewrite looked_up_app, visited_entries_app, Hq1, Hq2.
  repeat split; try assumption;
    now destruct (next_report_ b <=? done_ s).
Qed.



Lemma current_In it (e : entry) :
  Iter.current it = Some e -> In e (Iter.items it).
Proof.
  unfold Iter.current. destruct (Iter.Valid it); [| discriminate].
  apply nth_error_In.
Qed.

(** One pass of the loop of [ReadSequential] and [ReadReverse], whichever
    way the iterator moves. *)
Lemma read_loop_done step
  (Hstep : forall it, Iter.items (step it) = Iter.items it) fuel :
  forall it (b : St),
  exists s tr,
    read_loop fl step fuel it b = Done tt s
    /\ trace s = trace b ++ tr
    /\ (length (visited_entries tr) <= fuel)%nat
    /\ Forall (fun e => In e (Iter.items it)) (visited_entries tr)
    /\ looked_up tr = []
    /\ message_ s = message_ b
    /\ (0 <= bytes_ b -> bytes_ b + visited_bytes tr < 2 ^ 63 ->
        bytes_ s = bytes_ b + visited_bytes tr)
    /\ (0 <= done_ b -> done_ b + Z.of_nat fuel < 2 ^ 31 ->
        done_ s = done_ b + Z.of_nat (length (visited_entries tr))).
Proof.
  induction fuel as [| fuel IH]; intros it b.
  - exists b, []. cbn. rewrite app_nil_r.
    repeat split; try lia; constructor.
  - cbn [read_loop]. destruct (Iter.current it) as [[k v] |] eqn:Hcur.
    + unfold_m. simpl_st.
      match goal with
      | |- context [FinishedSingleOp fl ?x] =>
          destruct (FinishedSingleOp_quiet x)
            as (s1 & out & E & Ht1 & Hl1 & Hq1 & Hd1 & Hb1 & Hm1 & _);
          rewrite E
      end.
      simpl_st.
      destruct (IH (step it) s1)
        as (s & tr & Es & Ht & Hlen & Hall & Hl & Hm & Hb & Hd).
      exists s, (EvIterEntry k v :: out ++ tr).
      split; [exact Es |].
      split; [rewrite Ht, Ht1, <- !app_assoc; reflexivity |].
      assert (Hv : visited_entries (EvIterEntry k v :: out ++ tr)
                   = (k, v) :: visited_entries tr).
      { change (EvIterEntry k v :: out ++ tr)
          with ([EvIterEntry k v] ++ out ++ tr).
        now rewrite !visited_entries_app, Hq1. }
      assert (Hvb : visited_bytes (EvIterEntry k v :: out ++ tr)
                    = entry_bytes (k, v) + visited_bytes tr).
      { unfold visited_bytes. now rewrite Hv. }
      rewrite Hv.
      split; [cbn [length]; lia |].
      split.
      { constructor; [now apply current_In |].
        rewrite Hstep in Hall. exact Hall. }
      split.
      { change (EvIterEntry k v :: out ++ tr)
          with ([EvIterEntry k v] ++ out ++ tr).
        now rewrite !looked_up_app, Hl1, Hl. }
      split; [now rewrite Hm, Hm1 |].
      split.
      * intros H0 Hlt. rewrite Hvb in *.
        pose proof (visited_bytes_nonneg tr) as Hnn.
        assert (He : 0 <= entry_bytes (k, v)) by (unfold entry_bytes; lia).
        assert (Hs1 : bytes_ s1 = bytes_ b + entry_bytes (k, v)).
        { rewrite Hb1. unfold entry_bytes in *. cbn [fst snd] in *.
          rewrite to_size_t_id
            by (change (2 ^ 64) with 18446744073709551616;
                change (2 ^ 63) with 9223372036854775808 in Hlt; lia).
          apply to_int64_id.
          change (2 ^ 63) with 9223372036854775808 in *. lia. }
        rewrite Hb; rewrite Hs1; lia.
      * intros H0 Hlt. cbn [length].
        rewrite Hd; rewrite Hd1, to_int_id; lia.
    + exists b, []. cbn. rewrite app_nil_r.
      repeat split; try lia; constructor.
Qed.

(** X17: [ReadSequential] and [ReadReverse] always complete; they hand out
    at most [num_] entries, all of them entries of the database, count one
    operation for each, and add to the byte counter the size of the key plus
    the size of the value of each entry handed out. *)
Theorem read_phases_count_bytes (reverse : bool) (b : St) :
  0 <= bytes_ b -> 0 <= done_ b -> done_ b + Z.max (num_ b) 0 < 2 ^ 31 ->
  exists s tr,
    (if reverse then ReadReverse fl else ReadSequential fl) b = Done tt s
    /\ trace s = trace b ++ tr
    /\ (Z.of_nat (length (visited_entries tr)) <= Z.max (num_ b) 0)
    /\ Forall (fun e => In e (DB_Entries (world b))) (visited_entries tr)
    /\ done_ s = done_ b + Z.of_nat (length (visited_entries tr))
    /\ (bytes_ b + visited_bytes tr < 2 ^ 63 ->
        bytes_ s = bytes_ b + visited_bytes tr).
Proof.
  intros Hb0 Hd0 Hn.
  assert (Hgen : forall step it0,
            (forall it, Iter.items (step it) = Iter.items it) ->
            Iter.items it0 = DB_Entries (world b) ->
            exists s tr,
              (iter <- NewIterator ;; n <- gets num_ ;;
               read_loop fl step (Z.to_nat n) it0)%bench b = Done tt s
              /\ trace s = trace b ++ tr
              /\ (Z.of_nat (length (visited_entries tr)) <= Z.max (num_ b) 0)
              /\ Forall (fun e => In e (DB_Entries (world b)))
                   (visited_entries tr)
              /\ done_ s = done_ b + Z.of_nat (length (visited_entries tr))
              /\ (bytes_ b + visited_bytes tr < 2 ^ 63 ->
                  bytes_ s = bytes_ b + visited_bytes tr)).
  { intros step it0 Hstep Hitems. unfold NewIterator. unfold_m. simpl_st.
    match goal with
    | |- context [read_loop fl step ?f it0 ?x] =>
        destruct (read_loop_done step Hstep f it0 x)
          as (s & tr & E & Ht & Hlen & Hall & _ & _ & Hb & Hd)
    end.
    simpl_st. exists s, (EvNewIterator :: tr).
    split; [exact E |].
    split; [rewrite Ht, <- app_assoc; reflexivity |].
    change (visited_entries (EvNewIterator :: tr)) with (visited_entries tr).
    change (visited_bytes (EvNewIterator :: tr)) with (visited_bytes tr).
    split; [lia |]. split; [now rewrite Hitems in Hall |].
    split; [apply Hd; lia |].
    intros Hlt. now apply Hb. }
  destruct reverse.
  - unfold ReadReverse. unfold bind at 1. unfold NewIterator at 1.
    unfold bind at 1, gets at 1, bind at 1, emit at 1, modify at 1,
      bind at 1, ret at 1.
    specialize (Hgen Iter.Prev
                  (Iter.SeekToLast (Iter.mk (DB_Entries (world b)) (-1)))
                  ltac:(reflexivity) ltac:(reflexivity)).
    unfold NewIterator in Hgen. unfold_m_in Hgen. exact Hgen.
  - unfold ReadSequential. unfold bind at 1. unfold NewIterator at 1.
    unfold bind at 1, gets at 1, bind at 1, emit at 1, modify at 1,
      bind at 1, ret at 1.
    specialize (Hgen Iter.Next
                  (Iter.SeekToFirst (Iter.mk (DB_Entries (world b)) (-1)))
                  ltac:(reflexivity) ltac:(reflexivity)).
    unfold NewIterator in Hgen. unfold_m_in Hgen. exact Hgen.
Qed.

End ReadFacts.


Lemma read_phases_count_bytes_witness :
  let fl := Sim.flags "readreverse" 2 5 in
  let b := Sim.populated fl Sim.three_keys in
  0 <= bytes_ b /\ 0 <= done_ b /\ done_ b + Z.max (num_ b) 0 < 2 ^ 31
  /\ exists s tr,
       ReadReverse fl b = Done tt s
       /\ trace s = trace b ++ tr
       /\ (Z.of_nat (length (visited_entries tr)) <= Z.max (num_ b) 0)
       /\ Forall (fun e => In e (DB_Entries (world b))) (visited_entries tr)
       /\ done_ s = done_ b + Z.of_nat (length (visited_entries tr))
       /\ (bytes_ b + visited_bytes tr < 2 ^ 63 ->
           bytes_ s = bytes_ b + visited_bytes tr).
Proof.
  intros fl b.
  assert (Hb : 0 <= bytes_ b) by (vm_compute; discriminate).
  assert (Hd : 0 <= done_ b) by (vm_compute; discriminate).
  assert (Hn : done_ b + Z.max (num_ b) 0 < 2 ^ 31)
    by (vm_compute; reflexivity).
  split; [exact Hb |]. split; [exact Hd |]. split; [exact Hn |].
  exact (read_phases_count_bytes fl true b Hb Hd Hn).
Defined.

(** ** Heap profiles *)

Section ProfileFacts.

Context {W R : Type} `{HW : World W R}.
Variable fl : Flags.

Local Abbreviation St := (Bench W R).






End ProfileFacts.

